(** * claude-mem: Gemini extraction agent, project filter and spawn lock

    A shallow embedding of

    - [GeminiAgent] (context truncation, retry and back-off, rate limiting,
      response parsing, session driver with fallback),
    - the project filter of the worker utilities ([isProjectIgnored]),
    - the file based spawn lock ([acquireSpawnLock], [releaseSpawnLock]),

    followed by the properties the specification states about them (C1 to
    C10), and then by further properties of the same code (X1 to X20), which
    also cover the caches and the readiness poll of the worker utilities, the
    summarize handler and the smart install script.

    Conventions.  JavaScript numbers that are integers in the source are [Z];
    the few genuinely fractional computations (jitter, [parseFloat]) are exact
    rationals [Q], so IEEE rounding is not part of the model.  Strings are
    [string] (one [ascii] per code unit).  Arrays that the source mutates in
    place live in a store and are addressed by reference; code that throws
    returns a [Result] next to the state it leaves behind. *)

From Stdlib Require Import ZArith QArith Qround Qminmax Lqa Lia Bool Ascii String List.
From stdpp Require Import base option list gmap strings pretty.

Local Open Scope string_scope.
Local Open Scope Z_scope.
Local Open Scope list_scope.

(** ** JavaScript built-ins used by the sources *)

Module JS.

(** [Math.ceil(a / b)] for integers [a] and a positive integer [b]. *)
Definition ceilDiv (a b : Z) : Z := - ((- a) / b).

(** ASCII view of the white space skipped by [parseInt] and [trim]. *)
Definition isWhiteSpace (c : ascii) : bool :=
  let n := nat_of_ascii c in
  (n =? 32)%nat || ((9 <=? n)%nat && (n <=? 13)%nat).

Definition isDigit (c : ascii) : bool :=
  let n := nat_of_ascii c in (48 <=? n)%nat && (n <=? 57)%nat.

Definition digitValue (c : ascii) : Z := Z.of_nat (nat_of_ascii c) - 48.

Fixpoint skipWhiteSpace (s : string) : string :=
  match s with
  | String c r => if isWhiteSpace c then skipWhiteSpace r else s
  | EmptyString => s
  end.

(** Longest prefix of decimal digits, read as a number, with the rest. *)
Fixpoint readDigits (acc : Z) (seen : bool) (s : string) : option (Z * string) :=
  match s with
  | String c r =>
      if isDigit c then readDigits (10 * acc + digitValue c) true r
      else if seen then Some (acc, s) else None
  | EmptyString => if seen then Some (acc, s) else None
  end.

Definition hexValue (c : ascii) : option Z :=
  let n := nat_of_ascii c in
  if isDigit c then Some (digitValue c)
  else if (97 <=? n)%nat && (n <=? 102)%nat then Some (Z.of_nat n - 87)
  else if (65 <=? n)%nat && (n <=? 70)%nat then Some (Z.of_nat n - 55)
  else None.

(** Longest prefix of hexadecimal digits, read as a number. *)
Fixpoint readHex (acc : Z) (seen : bool) (s : string) : option Z :=
  match s with
  | String c r =>
      match hexValue c with
      | Some d => readHex (16 * acc + d) true r
      | None => if seen then Some acc else None
      end
  | EmptyString => if seen then Some acc else None
  end.

(** The digits of [parseInt] without a radix argument: hexadecimal after
    [0x] or [0X], decimal otherwise. *)
Definition readInteger (s : string) : option Z :=
  match s with
  | String c (String x r) =>
      if Ascii.eqb c "0" && (Ascii.eqb x "x" || Ascii.eqb x "X")
      then readHex 0 false r
      else option_map fst (readDigits 0 false s)
  | _ => option_map fst (readDigits 0 false s)
  end.

(** [parseInt(s)]: leading white space, an optional sign, then the longest
    run of digits; [None] is [NaN]. *)
Definition parseInt (s : string) : option Z :=
  match skipWhiteSpace s with
  | String c r =>
      if Ascii.eqb c "-" then option_map Z.opp (readInteger r)
      else if Ascii.eqb c "+" then readInteger r
      else readInteger (String c r)
  | EmptyString => None
  end.

(** [parseInt(s) || d]: [NaN] and [0] are falsy. *)
Definition parseIntOr (s : string) (d : Z) : Z :=
  match parseInt s with
  | Some z => if z =? 0 then d else z
  | None => d
  end.

Definition lowerChar (c : ascii) : ascii :=
  let n := nat_of_ascii c in
  if (65 <=? n)%nat && (n <=? 90)%nat then ascii_of_nat (n + 32) else c.

(** [s.toLowerCase()] on ASCII text. *)
Fixpoint toLowerCase (s : string) : string :=
  match s with
  | String c r => String (lowerChar c) (toLowerCase r)
  | EmptyString => EmptyString
  end.

(** [hay.includes(needle)]. *)
Fixpoint includes (needle hay : string) : bool :=
  String.prefix needle hay ||
  match hay with
  | String _ r => includes needle r
  | EmptyString => false
  end.

(** [s.startsWith(p)]. *)
Definition startsWith (p s : string) : bool := String.prefix p s.

(** A JavaScript number that may be [NaN]; finite values are exact. *)
Inductive Num : Type :=
| NaN
| Fin (q : Q).

(** [Math.ceil(x * 1000) + 1000]. *)
Definition ceilMsPlusSecond (x : Num) : Num :=
  match x with
  | NaN => NaN
  | Fin q => Fin (inject_Z (Qceiling (q * 1000) + 1000))
  end.

End JS.

(** ** Settings file

    The fields of [settings.json] the modelled code reads; every value is a
    string, as [SettingsDefaultsManager.loadFromFile] returns it. *)

Record Settings : Type := {
  CLAUDE_MEM_GEMINI_API_KEY : string;
  CLAUDE_MEM_GEMINI_MODEL : string;
  CLAUDE_MEM_GEMINI_RATE_LIMITING_ENABLED : string;
  CLAUDE_MEM_GEMINI_MAX_CONTEXT_MESSAGES : string;
  CLAUDE_MEM_GEMINI_MAX_TOKENS : string;
  CLAUDE_MEM_GEMINI_RETRY_MAX_ATTEMPTS : string;
  CLAUDE_MEM_GEMINI_RETRY_BASE_DELAY_MS : string;
  CLAUDE_MEM_DISABLE_CLAUDE_FALLBACK : string;
  CLAUDE_MEM_ALLOWED_PROJECTS_ONLY : string;
  CLAUDE_MEM_IGNORED_PROJECTS : string
}.

(** ** Conversation history *)

Inductive Role : Type := user | assistant.

Record ConversationMessage : Type := {
  role : Role;
  content : string
}.

(** ** Context truncation *)

Module Truncation.

Definition DEFAULT_GEMINI_MAX_CONTEXT_MESSAGES : Z := 20.
Definition DEFAULT_GEMINI_MAX_ESTIMATED_TOKENS : Z := 100000.
Definition CHARS_PER_TOKEN_ESTIMATE : Z := 4.

Definition estimateTokens (text : string) : Z :=
  JS.ceilDiv (Z.of_nat (String.length text)) CHARS_PER_TOKEN_ESTIMATE.

Definition MAX_CONTEXT_MESSAGES (settings : Settings) : Z :=
  JS.parseIntOr (CLAUDE_MEM_GEMINI_MAX_CONTEXT_MESSAGES settings)
                DEFAULT_GEMINI_MAX_CONTEXT_MESSAGES.

Definition MAX_ESTIMATED_TOKENS (settings : Settings) : Z :=
  JS.parseIntOr (CLAUDE_MEM_GEMINI_MAX_TOKENS settings)
                DEFAULT_GEMINI_MAX_ESTIMATED_TOKENS.

(** [history.reduce((sum, m) => sum + estimateTokens(m.content), 0)] *)
Definition totalTokens (history : list ConversationMessage) : Z :=
  fold_left (fun sum m => sum + estimateTokens (content m)) history 0.

(** The test that ends the sliding window. *)
Definition windowFull (maxMessages maxTokens : Z)
           (kept : nat) (tokenCount msgTokens : Z) : bool :=
  (maxMessages <=? Z.of_nat kept) || (maxTokens <? tokenCount + msgTokens).

(** *** On array contents

    The loop [for (i = history.length - 1; i >= 0; i--)], with [k = i + 1]
    the number of indices still to visit. *)
Fixpoint slidingWindow (maxMessages maxTokens : Z)
         (history : list ConversationMessage) (k : nat)
         (truncated : list ConversationMessage) (tokenCount : Z)
  : list ConversationMessage :=
  match k with
  | O => truncated
  | S i =>
      match history !! i with
      | None => truncated
      | Some msg =>
          let msgTokens := estimateTokens (content msg) in
          if windowFull maxMessages maxTokens (length truncated) tokenCount msgTokens
          then truncated
          else slidingWindow maxMessages maxTokens history i
                             (msg :: truncated) (tokenCount + msgTokens)
      end
  end.

Definition withinLimits (settings : Settings)
           (history : list ConversationMessage) : bool :=
  (Z.of_nat (length history) <=? MAX_CONTEXT_MESSAGES settings)
  && (totalTokens history <=? MAX_ESTIMATED_TOKENS settings).

(** The contents of the array [truncateHistory] returns. *)
Definition truncatedContents (settings : Settings)
           (history : list ConversationMessage) : list ConversationMessage :=
  if withinLimits settings history then history
  else slidingWindow (MAX_CONTEXT_MESSAGES settings) (MAX_ESTIMATED_TOKENS settings)
                     history (length history) [] 0.

(** *** On the store of arrays

    Arrays are objects: [truncateHistory] receives a reference, may return
    that very reference, and otherwise fills a freshly allocated array with
    [unshift].  [None] is a dangling reference, which no caller produces. *)
Fixpoint truncateLoop (maxMessages maxTokens : Z) (history truncated : positive)
         (k : nat) (tokenCount : Z) (σ : gmap positive (list ConversationMessage))
  : option (gmap positive (list ConversationMessage)) :=
  match k with
  | O => Some σ
  | S i =>
      h ← σ !! history;
      msg ← h !! i;
      t ← σ !! truncated;
      let msgTokens := estimateTokens (content msg) in
      if windowFull maxMessages maxTokens (length t) tokenCount msgTokens
      then Some σ
      else truncateLoop maxMessages maxTokens history truncated i
                        (tokenCount + msgTokens) (<[truncated := msg :: t]> σ)
  end.

Definition truncateHistory (settings : Settings) (history : positive)
           (σ : gmap positive (list ConversationMessage))
  : option (positive * gmap positive (list ConversationMessage)) :=
  h ← σ !! history;
  if withinLimits settings h then Some (history, σ)
  else
    let truncated := fresh (dom σ) in
    σ' ← truncateLoop (MAX_CONTEXT_MESSAGES settings) (MAX_ESTIMATED_TOKENS settings)
                      history truncated (length h) 0 (<[truncated := []]> σ);
    Some (truncated, σ').

End Truncation.

(** ** Thrown values and parsed JSON *)

(** What a [throw] carries: an [Error] instance with its [name] and
    [message], or any other value (shown by [String(v)]). *)
Inductive Thrown : Type :=
| ErrorObject (name message : string)
| OtherValue (shown : string).

#[local] Unset Elimination Schemes.
Inductive JSON : Type :=
| JNull
| JBool (b : bool)
| JNumber (q : Q)
| JString (s : string)
| JArray (items : list JSON)
| JObject (fields : list (string * JSON)).
#[local] Set Elimination Schemes.

(** [JSON.parse] and [JSON.stringify] come with the runtime; [None] is the
    [SyntaxError] of [JSON.parse].  The fields of a parsed object have
    distinct keys. *)
Class Builtins : Type := {
  JSON_parse : string -> option JSON;
  JSON_stringify : JSON -> string
}.

(** ** Retry policy *)

Module Retry.

Definition DEFAULT_RETRY_MAX_ATTEMPTS : Z := 5.
Definition DEFAULT_RETRY_BASE_DELAY_MS : Z := 5000.

Definition isRateLimitError (error : Thrown) : bool :=
  match error with
  | ErrorObject _ message =>
      let msg := JS.toLowerCase message in
      JS.includes "429" msg
      || JS.includes "rate limit" msg
      || JS.includes "resource_exhausted" msg
      || JS.includes "quota exceeded" msg
  | OtherValue _ => false
  end.

(** [random] is the value [Math.random()] returned. *)
Definition calculateBackoffDelay (attempt baseDelayMs : Z) (random : Q) : Q :=
  let exponentialDelay := inject_Z (baseDelayMs * 2 ^ attempt) in
  let jitter := (exponentialDelay * ((1 # 10) + random * (1 # 10)))%Q in
  Qmin (exponentialDelay + jitter) (inject_Z 60000).

(** Own property [k] of a value that may be [undefined]; covers both
    [v?.k] and [v.k] on a value known not to be [null]. *)
Fixpoint field (k : string) (fields : list (string * JSON)) : option JSON :=
  match fields with
  | [] => None
  | (k', v) :: rest => if String.eqb k k' then Some v else field k rest
  end.

Definition prop (v : option JSON) (k : string) : option JSON :=
  match v with
  | Some (JObject fields) => field k fields
  | _ => None
  end.

Definition truthy (v : option JSON) : bool :=
  match v with
  | None | Some JNull | Some (JBool false) | Some (JString EmptyString) => false
  | Some (JNumber q) => negb (Qeq_bool q 0)
  | Some _ => true
  end.

(** What [for (const detail of details)] visits; [None] when the value is
    not iterable (a [TypeError]). *)
Fixpoint characters (s : string) : list JSON :=
  match s with
  | EmptyString => []
  | String c r => JString (String c EmptyString) :: characters r
  end.

Definition iterate (details : option JSON) : option (list JSON) :=
  if truthy details then
    match details with
    | Some (JArray items) => Some items
    | Some (JString s) => Some (characters s)
    | _ => None
    end
  else Some [].

(** [retryDelay.match(/^([\d.]+)s$/)]: the captured group. *)
Fixpoint matchSeconds (s : string) : option string :=
  match s with
  | EmptyString => None
  | String c r =>
      if JS.isDigit c || Ascii.eqb c "."
      then if String.eqb r "s" then Some (String c EmptyString)
           else option_map (String c) (matchSeconds r)
      else None
  end.

(** Digits after the decimal point: numerator and power of ten. *)
Fixpoint readFraction (num den : Z) (s : string) : Z * Z :=
  match s with
  | String c r =>
      if JS.isDigit c then readFraction (10 * num + JS.digitValue c) (10 * den) r
      else (num, den)
  | EmptyString => (num, den)
  end.

Definition fractionValue (s : string) : Q :=
  let '(num, den) := readFraction 0 1 s in (inject_Z num / inject_Z den)%Q.

(** [parseFloat] on the strings the pattern lets through (digits and
    dots): the longest prefix that is a decimal literal. *)
Definition parseFloat (s : string) : JS.Num :=
  match JS.readDigits 0 false s with
  | Some (n, String c r) =>
      if Ascii.eqb c "." then JS.Fin (inject_Z n + fractionValue r)
      else JS.Fin (inject_Z n)
  | Some (n, EmptyString) => JS.Fin (inject_Z n)
  | None =>
      match s with
      | String c (String d r) =>
          if Ascii.eqb c "." && JS.isDigit d
          then JS.Fin (fractionValue (String d r))
          else JS.NaN
      | _ => JS.NaN
      end
  end.

Definition RETRY_INFO : string := "type.googleapis.com/google.rpc.RetryInfo".

(** The body of the [for] loop over [details], run inside the [try]: a
    [null] detail makes [detail['@type']] throw, which the [catch] turns
    into [null]. *)
Fixpoint scanDetails (details : list JSON) : option JS.Num :=
  match details with
  | [] => None
  | JNull :: _ => None
  | detail :: rest =>
      match prop (Some detail) "@type" with
      | Some (JString ty) =>
          if String.eqb ty RETRY_INFO then
            match prop (Some detail) "retryDelay" with
            | Some (JString retryDelay) =>
                match matchSeconds retryDelay with
                | Some m => Some (JS.ceilMsPlusSecond (parseFloat m))
                | None => scanDetails rest
                end
            | _ => scanDetails rest
            end
          else scanDetails rest
      | _ => scanDetails rest
      end
  end.

(** [None] is [null]. *)
Definition extractGeminiRetryDelay `{Builtins} (errorText : string) : option JS.Num :=
  match JSON_parse errorText with
  | None => None
  | Some errorJson =>
      match iterate (prop (prop (Some errorJson) "error") "details") with
      | None => None
      | Some details => scanDetails details
      end
  end.

End Retry.

(** ** Sessions, the world and effects *)

Record ActiveSession : Type := {
  sessionDbId : Z;
  contentSessionId : string;
  memorySessionId : option string;
  project : string;
  userPrompt : string;
  lastPromptNumber : Z;
  conversationHistory : list ConversationMessage;
  cumulativeInputTokens : Z;
  cumulativeOutputTokens : Z;
  earliestPendingTimestamp : option Z;
  startTime : Z
}.

(** [session.conversationHistory.push(m)] *)
Definition pushMessage (m : ConversationMessage) (s : ActiveSession) : ActiveSession :=
  {| sessionDbId := sessionDbId s;
     contentSessionId := contentSessionId s;
     memorySessionId := memorySessionId s;
     project := project s;
     userPrompt := userPrompt s;
     lastPromptNumber := lastPromptNumber s;
     conversationHistory := conversationHistory s ++ [m];
     cumulativeInputTokens := cumulativeInputTokens s;
     cumulativeOutputTokens := cumulativeOutputTokens s;
     earliestPendingTimestamp := earliestPendingTimestamp s;
     startTime := startTime s |}.

(** [session.cumulativeInputTokens += Math.floor(tokensUsed * 0.7)] and
    [session.cumulativeOutputTokens += Math.floor(tokensUsed * 0.3)] *)
Definition addTokens (tokensUsed : Z) (s : ActiveSession) : ActiveSession :=
  {| sessionDbId := sessionDbId s;
     contentSessionId := contentSessionId s;
     memorySessionId := memorySessionId s;
     project := project s;
     userPrompt := userPrompt s;
     lastPromptNumber := lastPromptNumber s;
     conversationHistory := conversationHistory s;
     cumulativeInputTokens := cumulativeInputTokens s + tokensUsed * 7 / 10;
     cumulativeOutputTokens := cumulativeOutputTokens s + tokensUsed * 3 / 10;
     earliestPendingTimestamp := earliestPendingTimestamp s;
     startTime := startTime s |}.

(** [session.lastPromptNumber = n] *)
Definition setLastPromptNumber (n : Z) (s : ActiveSession) : ActiveSession :=
  {| sessionDbId := sessionDbId s;
     contentSessionId := contentSessionId s;
     memorySessionId := memorySessionId s;
     project := project s;
     userPrompt := userPrompt s;
     lastPromptNumber := n;
     conversationHistory := conversationHistory s;
     cumulativeInputTokens := cumulativeInputTokens s;
     cumulativeOutputTokens := cumulativeOutputTokens s;
     earliestPendingTimestamp := earliestPendingTimestamp s;
     startTime := startTime s |}.

(** Gemini's wire format of one turn. *)
Inductive GeminiRole : Type := role_user | role_model.

Record GeminiContent : Type := {
  gc_role : GeminiRole;
  gc_text : string
}.

Record Part : Type := {
  text : option string;
  thought : option bool
}.

Record Candidate : Type := {
  parts : option (list Part);   (* [content?.parts] *)
  finishReason : option string
}.

Record GeminiResponse : Type := {
  candidates : option (list Candidate);
  totalTokenCount : option Z    (* [usageMetadata?.totalTokenCount] *)
}.

(** What one [fetch] of the retry loop comes to. *)
Inductive FetchOutcome : Type :=
| Rejects (e : Thrown)                     (* [fetch], [text()] or [json()] throws *)
| HttpError (status : Z) (errorText : string)   (* [!response.ok] *)
| HttpOk (data : GeminiResponse).

Record Request : Type := {
  req_model : string;
  req_apiKey : string;
  req_contents : list GeminiContent;
  req_thinkingConfig : bool
}.

Inductive MessageType : Type := observation | summarize | other_type.

Record PendingMessage : Type := {
  type : MessageType;
  cwd : option string;
  prompt_number : option Z;
  tool_name : string;
  tool_input : JSON;
  tool_response : JSON;
  last_assistant_message : option string
}.

(** Sessions are objects shared between the agents and the session manager:
    they are addressed by reference. *)
Definition SessionRef : Type := nat.

Inductive Event : Type :=
| EvFetch (at_time : Z) (request : Request)
| EvTimer (delay : JS.Num)
| EvEnsureMemorySessionId (session : SessionRef)
| EvMessage (message : PendingMessage)
| EvProcessAgentResponse (session : SessionRef) (text : string)
| EvFallback (session : SessionRef).

(** Number of HTTP requests in a trace. *)
Fixpoint fetchesIn (t : list Event) : nat :=
  match t with
  | [] => O
  | EvFetch _ _ :: r => S (fetchesIn r)
  | _ :: r => fetchesIn r
  end.

(** A computation either returns or throws; the state it leaves behind is
    kept in both cases, as mutations made before a [throw] persist. *)
Inductive Result (A : Type) : Type :=
| Ok (a : A)
| Throw (e : Thrown).
Arguments Ok {A} a.
Arguments Throw {A} e.

(** ** Collaborators outside the modelled files

    The session manager, the response processor, the prompt builders and the
    fallback classification live in other modules.  They act on the session
    objects and on their own state [Ext] (database, queue, mode), and may
    throw; they have no access to the agent module's private variable, to the
    network or to the clock of the model. *)
Class Collaborators : Type := {
  Ext : Type;
  Mode : Type;
  isAbortError : Thrown -> bool;
  shouldFallbackToClaude : Thrown -> bool -> bool;
  getActiveMode : Ext -> Mode;
  buildInitPrompt : string -> string -> string -> Mode -> string;
  buildContinuationPrompt : string -> Z -> string -> Mode -> string;
  buildObservationPrompt : string -> string -> string -> Z -> option string -> string;
  buildSummaryPrompt : ActiveSession -> string -> Mode -> string;
  ensureMemorySessionId :
    SessionRef -> string -> (SessionRef -> ActiveSession) * Ext ->
    Result unit * ((SessionRef -> ActiveSession) * Ext);
  processAgentResponse :
    string -> SessionRef -> Z -> option Z -> option string ->
    (SessionRef -> ActiveSession) * Ext ->
    Result unit * ((SessionRef -> ActiveSession) * Ext);
  (** the messages the iterator yields during the run, and the error it
      ends with, if any *)
  getMessageIterator :
    Z -> (SessionRef -> ActiveSession) * Ext ->
    (list PendingMessage * option Thrown) * ((SessionRef -> ActiveSession) * Ext)
}.

Section Agent.

Context `{!Builtins, !Collaborators}.

Record World : Type := {
  now : Z;                                  (* [Date.now()] *)
  lastRequestTime : Z;                      (* the module level variable *)
  settings : Settings;                      (* what [loadFromFile] returns *)
  GEMINI_API_KEY : string;                  (* [process.env.GEMINI_API_KEY] *)
  sessions : SessionRef -> ActiveSession;   (* the session objects *)
  external : Ext;                           (* state of the collaborators *)
  network : nat -> FetchOutcome;            (* outcome of the n-th [fetch] *)
  randoms : nat -> Q;                       (* n-th value of [Math.random()] *)
  randomCount : nat;
  trace : list Event                        (* most recent first *)
}.

Definition setNow (t : Z) (w : World) : World :=
  {| now := t; lastRequestTime := lastRequestTime w; settings := settings w;
     GEMINI_API_KEY := GEMINI_API_KEY w; sessions := sessions w;
     external := external w;
     network := network w; randoms := randoms w; randomCount := randomCount w;
     trace := trace w |}.

Definition setLastRequestTime (t : Z) (w : World) : World :=
  {| now := now w; lastRequestTime := t; settings := settings w;
     GEMINI_API_KEY := GEMINI_API_KEY w; sessions := sessions w;
     external := external w;
     network := network w; randoms := randoms w; randomCount := randomCount w;
     trace := trace w |}.

Definition setObjects (h : SessionRef -> ActiveSession) (x : Ext) (w : World) : World :=
  {| now := now w; lastRequestTime := lastRequestTime w; settings := settings w;
     GEMINI_API_KEY := GEMINI_API_KEY w; sessions := h;
     external := x;
     network := network w; randoms := randoms w; randomCount := randomCount w;
     trace := trace w |}.

Definition setSession (r : SessionRef) (s : ActiveSession) (w : World) : World :=
  setObjects (fun r' => if Nat.eqb r' r then s else sessions w r') (external w) w.

Definition record (e : Event) (w : World) : World :=
  {| now := now w; lastRequestTime := lastRequestTime w; settings := settings w;
     GEMINI_API_KEY := GEMINI_API_KEY w; sessions := sessions w;
     external := external w;
     network := network w; randoms := randoms w; randomCount := randomCount w;
     trace := e :: trace w |}.

Definition bumpRandom (w : World) : World :=
  {| now := now w; lastRequestTime := lastRequestTime w; settings := settings w;
     GEMINI_API_KEY := GEMINI_API_KEY w; sessions := sessions w;
     external := external w;
     network := network w; randoms := randoms w; randomCount := S (randomCount w);
     trace := trace w |}.

(** Number of HTTP requests issued so far. *)
Definition fetchCount (w : World) : nat := fetchesIn (trace w).

Definition M (A : Type) : Type := World -> Result A * World.

#[global] Instance M_ret : MRet M := fun A a w => (Ok a, w).

#[global] Instance M_bind : MBind M := fun A B k m w =>
  match m w with
  | (Ok a, w') => k a w'
  | (Throw e, w') => (Throw e, w')
  end.

#[global] Instance M_throw : MThrow Thrown M := fun A e w => (Throw e, w).

(** [try { body } catch (e) { handler(e) }] *)
Definition tryCatch {A : Type} (body : M A) (handler : Thrown -> M A) : M A :=
  fun w =>
    match body w with
    | (Ok a, w') => (Ok a, w')
    | (Throw e, w') => handler e w'
    end.

Definition get : M World := fun w => (Ok w, w).
Definition modify (f : World -> World) : M unit := fun w => (Ok tt, f w).
Definition emit (e : Event) : M unit := modify (record e).

Definition readSession (r : SessionRef) : M ActiveSession :=
  fun w => (Ok (sessions w r), w).

Definition updateSession (r : SessionRef) (f : ActiveSession -> ActiveSession) : M unit :=
  modify (fun w => setSession r (f (sessions w r)) w).

(** A call into a collaborator. *)
Definition call {A : Type}
           (f : (SessionRef -> ActiveSession) * Ext ->
                Result A * ((SessionRef -> ActiveSession) * Ext)) : M A :=
  fun w =>
    let '(res, (h, x)) := f (sessions w, external w) in (res, setObjects h x w).

(** Node clamps a timer delay that is [NaN] or below one millisecond to one
    millisecond; the timer is taken to fire on time. *)
Definition timerMs (delay : JS.Num) : Z :=
  match delay with
  | JS.NaN => 1
  | JS.Fin q => Z.max 1 (Qfloor q)
  end.

(** [await new Promise(resolve => setTimeout(resolve, delay))] *)
Definition sleep (delay : JS.Num) : M unit :=
  modify (fun w => record (EvTimer delay) (setNow (now w + timerMs delay) w)).

(** [Math.random()] *)
Definition random : M Q :=
  fun w => (Ok (randoms w (randomCount w)), bumpRandom w).

(** [await fetch(url, ...)] together with reading the body. *)
Definition fetch (request : Request) : M FetchOutcome :=
  fun w => (Ok (network w (fetchCount w)), record (EvFetch (now w) request) w).

(** *** Configuration *)

Definition nonEmpty (s : string) : bool :=
match s with EmptyString => false | _ => true end.

Definition validModels : list string :=
[ "gemini-2.5-flash-lite"; "gemini-2.5-flash"; "gemini-2.5-pro";
  "gemini-2.0-flash"; "gemini-2.0-flash-lite"; "gemini-2.0-flash-exp";
  "gemini-3-flash-preview"; "gemini-3-pro-preview" ].

Definition defaultModel : string := "gemini-2.5-flash".

Record GeminiConfig : Type := {
  apiKey : string;
  model : string;
  rateLimitingEnabled : bool
}.

Definition getGeminiConfig : M GeminiConfig :=
w ← get;
let st := settings w in
let apiKey :=
  if nonEmpty (CLAUDE_MEM_GEMINI_API_KEY st) then CLAUDE_MEM_GEMINI_API_KEY st
  else GEMINI_API_KEY w in
let configuredModel :=
  if nonEmpty (CLAUDE_MEM_GEMINI_MODEL st) then CLAUDE_MEM_GEMINI_MODEL st
  else defaultModel in
let model :=
  if existsb (String.eqb configuredModel) validModels then configuredModel
  else defaultModel in
mret {| apiKey := apiKey;
        model := model;
        rateLimitingEnabled :=
          negb (String.eqb (CLAUDE_MEM_GEMINI_RATE_LIMITING_ENABLED st) "false") |}.

(** *** Rate limiting *)

(** Free tier requests per minute, by model. *)
Definition GEMINI_RPM_LIMITS : list (string * Z) :=
[ ("gemini-2.5-flash-lite", 10); ("gemini-2.5-flash", 10); ("gemini-2.5-pro", 5);
  ("gemini-2.0-flash", 15); ("gemini-2.0-flash-lite", 30);
  ("gemini-2.0-flash-exp", 10); ("gemini-3-flash-preview", 5);
  ("gemini-3-pro-preview", 2) ].

Fixpoint lookupRpm (model : string) (table : list (string * Z)) : option Z :=
match table with
| [] => None
| (m, rpm) :: rest => if String.eqb model m then Some rpm else lookupRpm model rest
end.

(** [GEMINI_RPM_LIMITS[model] || 5] *)
Definition rpmOf (model : string) : Z :=
match lookupRpm model GEMINI_RPM_LIMITS with
| Some rpm => if rpm =? 0 then 5 else rpm
| None => 5
end.

Definition minimumDelayMs (model : string) : Z :=
JS.ceilDiv 60000 (rpmOf model) + 100.

Definition enforceRateLimitForModel (model : string) (rateLimitingEnabled : bool)
  : M unit :=
if negb rateLimitingEnabled then mret tt
else
  w ← get;
  let timeSinceLastRequest := now w - lastRequestTime w in
  (if timeSinceLastRequest <? minimumDelayMs model
   then sleep (JS.Fin (inject_Z (minimumDelayMs model - timeSinceLastRequest)))
   else mret tt);;
  modify (fun w => setLastRequestTime (now w) w).

(** *** Parsing a response *)

Record QueryResult : Type := {
  qr_content : string;
  tokensUsed : option Z
}.

Definition isThought (p : Part) : bool :=
match thought p with Some true => true | _ => false end.

Definition hasText (p : Part) : bool :=
match text p with Some t => nonEmpty t | None => false end.

Definition textOf (p : Part) : string :=
match text p with Some t => t | None => EmptyString end.

(** [data.candidates?.[0]?.content?.parts || []] *)
Definition firstParts (data : GeminiResponse) : list Part :=
match candidates data with
| Some (c :: _) => match parts c with Some ps => ps | None => [] end
| _ => []
end.

(** [parts.filter(p => !p.thought && p.text)] *)
Definition contentParts (data : GeminiResponse) : list Part :=
List.filter (fun p => negb (isThought p) && hasText p) (firstParts data).

(** [strings.join('')] *)
Definition join (strings : list string) : string :=
fold_right String.append EmptyString strings.

Definition parseGeminiResponse (data : GeminiResponse) (_model : string) : QueryResult :=
let content := join (map textOf (contentParts data)) in
let hasContent := (0 <? String.length content)%nat in
if negb hasContent then {| qr_content := EmptyString; tokensUsed := None |}
else {| qr_content := content; tokensUsed := totalTokenCount data |}.

(** *** Querying with retries *)

Definition isThinkingModel (model : string) : bool :=
JS.startsWith "gemini-2.5" model || JS.startsWith "gemini-3" model.

Definition conversationToGeminiContents (history : list ConversationMessage)
  : list GeminiContent :=
map (fun msg =>
       {| gc_role := match role msg with assistant => role_model | user => role_user end;
          gc_text := content msg |}) history.

(** [new Error(`Gemini API error: ${response.status} - ${errorText}`)] *)
Definition apiError (status : Z) (errorText : string) : Thrown :=
ErrorObject "Error" ("Gemini API error: " +:+ pretty status +:+ " - " +:+ errorText).

(** [error instanceof Error ? error : new Error(String(error))] *)
Definition asError (error : Thrown) : Thrown :=
match error with
| ErrorObject _ _ => error
| OtherValue shown => ErrorObject "Error" shown
end.

(** [geminiDelay ?? calculateBackoffDelay(attempt, baseDelayMs)]: the random
    number is drawn only when there is no suggested delay. *)
Definition chooseDelay (geminiDelay : option JS.Num) (attempt baseDelayMs : Z)
  : M JS.Num :=
match geminiDelay with
| Some d => mret d
| None => r ← random; mret (JS.Fin (Retry.calculateBackoffDelay attempt baseDelayMs r))
end.

(** The [for (attempt = 0; attempt < maxAttempts; attempt++)] loop, with
    [remaining = maxAttempts - attempt] iterations left; the last line is
    the [throw] after the loop. *)
Fixpoint retryLoop (request : Request) (maxAttempts baseDelayMs : Z)
         (remaining : nat) (attempt : Z) (lastError : option Thrown)
  : M QueryResult :=
match remaining with
| S remaining' =>
    let caught (error : Thrown) : M QueryResult :=
      if Retry.isRateLimitError error && (attempt <? maxAttempts - 1)
      then
        delay ← chooseDelay None attempt baseDelayMs;
        sleep delay;;
        retryLoop request maxAttempts baseDelayMs remaining' (attempt + 1)
                  (Some (asError error))
      else mthrow error in
    outcome ← fetch request;
    match outcome with
    | HttpOk data => mret (parseGeminiResponse data (req_model request))
    | HttpError status errorText =>
        if (status =? 429) && (attempt <? maxAttempts - 1)
        then
          delay ← chooseDelay (Retry.extractGeminiRetryDelay errorText)
                              attempt baseDelayMs;
          sleep delay;;
          retryLoop request maxAttempts baseDelayMs remaining' (attempt + 1) lastError
        else caught (apiError status errorText)
    | Rejects error => caught error
    end
| O =>
    mthrow (default (ErrorObject "Error" "Gemini request failed after retries")
                    lastError)
end.

Definition maxAttemptsOf (st : Settings) : Z :=
JS.parseIntOr (CLAUDE_MEM_GEMINI_RETRY_MAX_ATTEMPTS st) Retry.DEFAULT_RETRY_MAX_ATTEMPTS.

Definition baseDelayMsOf (st : Settings) : Z :=
JS.parseIntOr (CLAUDE_MEM_GEMINI_RETRY_BASE_DELAY_MS st) Retry.DEFAULT_RETRY_BASE_DELAY_MS.

Definition queryGeminiMultiTurn (history : list ConversationMessage)
           (apiKey model : string) (rateLimitingEnabled : bool) : M QueryResult :=
w ← get;
let truncatedHistory := Truncation.truncatedContents (settings w) history in
let request :=
  {| req_model := model;
     req_apiKey := apiKey;
     req_contents := conversationToGeminiContents truncatedHistory;
     req_thinkingConfig := isThinkingModel model |} in
enforceRateLimitForModel model rateLimitingEnabled;;
w ← get;
let maxAttempts := maxAttemptsOf (settings w) in
retryLoop request maxAttempts (baseDelayMsOf (settings w))
          (Z.to_nat maxAttempts) 0 None.

(** *** The session driver *)

Record FallbackAgent : Type := {
  fa_startSession : SessionRef -> M unit
}.

Record GeminiAgent : Type := {
  fallbackAgent : option FallbackAgent
}.

Definition setFallbackAgent (agent : FallbackAgent) (this : GeminiAgent) : GeminiAgent :=
{| fallbackAgent := Some agent |}.

Definition userTurn (prompt : string) : ConversationMessage :=
{| role := user; content := prompt |}.

Definition assistantTurn (reply : string) : ConversationMessage :=
{| role := assistant; content := reply |}.

Definition MISSING_API_KEY : Thrown :=
ErrorObject "Error"
  "Gemini API key not configured. Set CLAUDE_MEM_GEMINI_API_KEY in settings or GEMINI_API_KEY environment variable.".

(** The [if (response.content) { ... }] block shared by the observation and
    the summary turns: returns [tokensUsed]. *)
Definition recordReply (session : SessionRef) (response : QueryResult) : M Z :=
if nonEmpty (qr_content response) then
  updateSession session (pushMessage (assistantTurn (qr_content response)));;
  let used := default 0 (tokensUsed response) in
  updateSession session (addTokens used);;
  mret used
else mret 0.

(** Lines from the first [push] to the end of the [if/else] on the init
    response. *)
Definition initTurn (session : SessionRef) (cfg : GeminiConfig) (mode : Mode) : M unit :=
s ← readSession session;
let initPrompt :=
  if lastPromptNumber s =? 1
  then buildInitPrompt (project s) (contentSessionId s) (userPrompt s) mode
  else buildContinuationPrompt (userPrompt s) (lastPromptNumber s)
                               (contentSessionId s) mode in
updateSession session (pushMessage (userTurn initPrompt));;
s ← readSession session;
initResponse ← queryGeminiMultiTurn (conversationHistory s) (apiKey cfg) (model cfg)
                                    (rateLimitingEnabled cfg);
emit (EvEnsureMemorySessionId session);;
call (ensureMemorySessionId session "gemini");;
if nonEmpty (qr_content initResponse) then
  used ← recordReply session initResponse;
  emit (EvProcessAgentResponse session (qr_content initResponse));;
  call (processAgentResponse (qr_content initResponse) session used None None)
else
  updateSession session (pushMessage (assistantTurn "<acknowledged>")).

(** One pass of the body of [for await (const message of ...)], after the
    update of [lastCwd]. *)
Definition processMessage (session : SessionRef) (cfg : GeminiConfig) (mode : Mode)
           (message : PendingMessage) (lastCwd : option string) : M unit :=
s ← readSession session;
let originalTimestamp := earliestPendingTimestamp s in
match type message with
| observation =>
    match prompt_number message with
    | Some n => updateSession session (setLastPromptNumber n)
    | None => mret tt
    end;;
    w ← get;
    let obsPrompt :=
      buildObservationPrompt (tool_name message)
                             (JSON_stringify (tool_input message))
                             (JSON_stringify (tool_response message))
                             (default (now w) originalTimestamp)
                             (cwd message) in
    updateSession session (pushMessage (userTurn obsPrompt));;
    s ← readSession session;
    obsResponse ← queryGeminiMultiTurn (conversationHistory s) (apiKey cfg) (model cfg)
                                       (rateLimitingEnabled cfg);
    used ← recordReply session obsResponse;
    emit (EvProcessAgentResponse session (qr_content obsResponse));;
    call (processAgentResponse (qr_content obsResponse) session used
                               originalTimestamp lastCwd)
| summarize =>
    s ← readSession session;
    let summaryPrompt :=
      buildSummaryPrompt s (default EmptyString (last_assistant_message message)) mode in
    updateSession session (pushMessage (userTurn summaryPrompt));;
    s ← readSession session;
    summaryResponse ← queryGeminiMultiTurn (conversationHistory s) (apiKey cfg)
                                           (model cfg) (rateLimitingEnabled cfg);
    used ← recordReply session summaryResponse;
    emit (EvProcessAgentResponse session (qr_content summaryResponse));;
    call (processAgentResponse (qr_content summaryResponse) session used
                               originalTimestamp lastCwd)
| other_type => mret tt
end.

(** [if (message.cwd) lastCwd = message.cwd] *)
Definition trackCwd (message : PendingMessage) (lastCwd : option string) : option string :=
match cwd message with
| Some c => if nonEmpty c then Some c else lastCwd
| None => lastCwd
end.

Fixpoint processMessages (session : SessionRef) (cfg : GeminiConfig) (mode : Mode)
         (messages : list PendingMessage) (lastCwd : option string) : M unit :=
match messages with
| [] => mret tt
| message :: rest =>
    emit (EvMessage message);;
    processMessage session cfg mode message (trackCwd message lastCwd);;
    processMessages session cfg mode rest (trackCwd message lastCwd)
end.

(** The [for await] loop over the iterator of the session manager. *)
Definition processPending (session : SessionRef) (cfg : GeminiConfig) (mode : Mode)
  : M unit :=
s ← readSession session;
'(messages, ending) ← call (fun st => let '(it, st') := getMessageIterator (sessionDbId s) st
                                      in (Ok it, st'));
processMessages session cfg mode messages None;;
match ending with
| Some error => mthrow error
| None => mret tt
end.

(** The [try] block. *)
Definition runSession (session : SessionRef) : M unit :=
cfg ← getGeminiConfig;
if negb (nonEmpty (apiKey cfg)) then mthrow MISSING_API_KEY
else
  w ← get;
  let mode := getActiveMode (external w) in
  initTurn session cfg mode;;
  processPending session cfg mode.

(** [settings.CLAUDE_MEM_DISABLE_CLAUDE_FALLBACK !== 'false'] *)
Definition disableFallback (w : World) : bool :=
negb (String.eqb (CLAUDE_MEM_DISABLE_CLAUDE_FALLBACK (settings w)) "false").

(** The [catch] block. *)
Definition onError (this : GeminiAgent) (session : SessionRef) (error : Thrown) : M unit :=
if isAbortError error then mthrow error
else
  w ← get;
  if shouldFallbackToClaude error (disableFallback w) then
    match fallbackAgent this with
    | Some agent => emit (EvFallback session);; fa_startSession agent session
    | None => mthrow error
    end
  else mthrow error.

Definition startSession (this : GeminiAgent) (session : SessionRef) : M unit :=
tryCatch (runSession session) (onError this session).

End Agent.

(** ** Project filter of the worker utilities *)

Module WorkerUtils.

(** The module level caches. *)
Record Cache : Type := {
  cachedAllowedProjectsOnly : option (list string);
  cachedIgnoredProjects : option (list string)
}.

(** [s.split(',')] *)
Fixpoint split (sep : ascii) (s : string) : list string :=
  match s with
  | EmptyString => [EmptyString]
  | String c r =>
      if Ascii.eqb c sep then EmptyString :: split sep r
      else match split sep r with
           | x :: xs => String c x :: xs
           | [] => [String c EmptyString]
           end
  end.

Fixpoint trimEnd (s : string) : string :=
  match s with
  | EmptyString => EmptyString
  | String c r =>
      match trimEnd r with
      | EmptyString => if JS.isWhiteSpace c then EmptyString else String c EmptyString
      | r' => String c r'
      end
  end.

(** [s.trim()] *)
Definition trim (s : string) : string := trimEnd (JS.skipWhiteSpace s).

(** [(setting || '').split(',').map(p => p.trim()).filter(p => p.length > 0)] *)
Definition projectList (setting : string) : list string :=
  List.filter (fun p => (0 <? String.length p)%nat) (map trim (split "," setting)).

Definition getIgnoredProjects (st : Settings) (c : Cache) : list string * Cache :=
  match cachedIgnoredProjects c with
  | Some l => (l, c)
  | None =>
      let l := projectList (CLAUDE_MEM_IGNORED_PROJECTS st) in
      (l, {| cachedAllowedProjectsOnly := cachedAllowedProjectsOnly c;
             cachedIgnoredProjects := Some l |})
  end.

Definition getAllowedProjectsOnly (st : Settings) (c : Cache) : list string * Cache :=
  match cachedAllowedProjectsOnly c with
  | Some l => (l, c)
  | None =>
      let l := projectList (CLAUDE_MEM_ALLOWED_PROJECTS_ONLY st) in
      (l, {| cachedAllowedProjectsOnly := Some l;
             cachedIgnoredProjects := cachedIgnoredProjects c |})
  end.

(** [list.includes(name)] *)
Definition includes (name : string) (l : list string) : bool :=
  existsb (String.eqb name) l.

Definition isProjectIgnored (projectNames : list string) (st : Settings) (c : Cache)
  : bool * Cache :=
  let '(allowedOnly, c1) := getAllowedProjectsOnly st c in
  let '(ignored, c2) := getIgnoredProjects st c1 in
  if (0 <? length allowedOnly)%nat then
    (negb (existsb (fun name => includes name allowedOnly) projectNames), c2)
  else if (0 <? length ignored)%nat then
    (existsb (fun name => includes name ignored) projectNames, c2)
  else (false, c2).

End WorkerUtils.

(** ** Spawn lock *)

Module SpawnLock.

Definition LOCK_STALE_THRESHOLD_MS : Z := 60000.

Record LockInfo : Type := {
  pid : Z;
  timestamp : Z
}.

(** What [JSON.parse(readFileSync(SPAWN_LOCK_FILE))] makes of the file: a
    lock record with its two numbers, or a failure of the [try] block for a
    corrupted file. *)
Inductive FileContent : Type :=
| Lock (info : LockInfo)
| Corrupted.

Record Host : Type := {
  lockFile : option FileContent;   (* [None]: the file does not exist *)
  clock : Z;                       (* [Date.now()] *)
  ownPid : Z;                      (* [process.pid] *)
  running : Z -> bool;             (* does [process.kill(pid, 0)] succeed *)
  (** what other processes do to the lock file between this process's check
      and its write *)
  meanwhile : option FileContent -> option FileContent
}.

Definition setLockFile (f : option FileContent) (h : Host) : Host :=
  {| lockFile := f; clock := clock h; ownPid := ownPid h; running := running h;
     meanwhile := meanwhile h |}.

Definition isProcessRunning (h : Host) (p : Z) : bool := running h p.

(** [unlinkSync(SPAWN_LOCK_FILE)] *)
Definition unlinkSync (h : Host) : Host := setLockFile None h.

(** The [if (existsSync(SPAWN_LOCK_FILE)) { ... }] block; [None] is its
    [return false]. *)
Definition checkExisting (h : Host) : option Host :=
  match lockFile h with
  | None => Some h
  | Some (Lock lockInfo) =>
      let lockAge := clock h - timestamp lockInfo in
      let processAlive := isProcessRunning h (pid lockInfo) in
      if (LOCK_STALE_THRESHOLD_MS <? lockAge) || negb processAlive
      then Some (unlinkSync h)
      else None
  | Some Corrupted => Some (unlinkSync h)
  end.

(** [writeFileSync(SPAWN_LOCK_FILE, ..., { flag: 'wx' })] with its [catch]:
    [false] is the [EEXIST] branch. *)
Definition exclusiveCreate (h : Host) : bool * Host :=
  match lockFile h with
  | Some _ => (false, h)
  | None =>
      (true, setLockFile (Some (Lock {| pid := ownPid h; timestamp := clock h |})) h)
  end.

(** [mkdirSync] and [unlinkSync] are taken to succeed, so the only error of
    the write is [EEXIST]. *)
Definition acquireSpawnLock (h : Host) : bool * Host :=
  match checkExisting h with
  | None => (false, h)
  | Some h' => exclusiveCreate (setLockFile (meanwhile h' (lockFile h')) h')
  end.

Definition releaseSpawnLock (h : Host) : Host :=
  match lockFile h with
  | None => h
  | Some (Lock lockInfo) => if pid lockInfo =? ownPid h then unlinkSync h else h
  | Some Corrupted => h
  end.

End SpawnLock.

(** * Properties *)

(** ** Context truncation *)

Section TruncationFacts.

Import Truncation.

Lemma ceilDiv_bounds (a b : Z) :
  0 < b -> b * (JS.ceilDiv a b - 1) < a <= b * JS.ceilDiv a b.
Proof.
  intros Hb. unfold JS.ceilDiv.
  pose proof (Z.div_mod (- a) b ltac:(lia)) as Hdm.
  pose proof (Z.mod_pos_bound (- a) b Hb) as Hm.
  nia.
Qed.

Lemma estimateTokens_nonneg (text : string) : 0 <= estimateTokens text.
Proof.
  unfold estimateTokens, CHARS_PER_TOKEN_ESTIMATE.
  pose proof (ceilDiv_bounds (Z.of_nat (String.length text)) 4 ltac:(lia)). lia.
Qed.

Lemma fold_tokens_shift (l : list ConversationMessage) (a : Z) :
  fold_left (fun sum m => sum + estimateTokens (content m)) l a
  = a + fold_left (fun sum m => sum + estimateTokens (content m)) l 0.
Proof.
  revert a. induction l as [|m l IH]; intros a; simpl; [lia|].
  rewrite IH, (IH (0 + _)). lia.
Qed.

Lemma totalTokens_cons (m : ConversationMessage) (l : list ConversationMessage) :
  totalTokens (m :: l) = estimateTokens (content m) + totalTokens l.
Proof. unfold totalTokens. simpl. rewrite fold_tokens_shift. lia. Qed.

(** The window kept so far is the part of the history after the indices
    still to visit; the loop keeps that shape and both bounds.  A negative
    limit admits nothing, hence the [Z.max 0]. *)
Lemma slidingWindow_invariant (maxMessages maxTokens : Z)
      (history : list ConversationMessage) (k : nat) :
  (k <= length history)%nat ->
  Z.of_nat (length (drop k history)) <= Z.max 0 maxMessages ->
  totalTokens (drop k history) <= Z.max 0 maxTokens ->
  let kept := slidingWindow maxMessages maxTokens history k
                            (drop k history) (totalTokens (drop k history)) in
  kept `suffix_of` history
  /\ Z.of_nat (length kept) <= Z.max 0 maxMessages
  /\ totalTokens kept <= Z.max 0 maxTokens.
Proof.
  induction k as [|i IH]; intros Hk Hlen Htok; simpl.
  - split; [apply suffix_drop | split; assumption].
  - destruct (lookup_lt_is_Some_2 history i ltac:(lia)) as [msg Hmsg].
    rewrite Hmsg. unfold windowFull.
    destruct (maxMessages <=? _) eqn:Hfull; simpl.
    { split; [apply suffix_drop | split; assumption]. }
    destruct (maxTokens <? _) eqn:Hover; simpl.
    { split; [apply suffix_drop | split; assumption]. }
    apply Z.leb_gt in Hfull. apply Z.ltb_ge in Hover.
    pose proof (drop_S history msg i Hmsg) as Hdrop.
    specialize (IH ltac:(lia)).
    rewrite Hdrop in IH. rewrite totalTokens_cons in IH.
    replace (totalTokens (drop (S i) history) + estimateTokens (content msg))
      with (estimateTokens (content msg) + totalTokens (drop (S i) history)) by lia.
    apply IH; [simpl; lia | lia].
Qed.

Lemma truncatedContents_bounds (st : Settings) (history : list ConversationMessage) :
  truncatedContents st history `suffix_of` history
  /\ Z.of_nat (length (truncatedContents st history)) <= Z.max 0 (MAX_CONTEXT_MESSAGES st)
  /\ totalTokens (truncatedContents st history) <= Z.max 0 (MAX_ESTIMATED_TOKENS st).
Proof.
  unfold truncatedContents.
  destruct (withinLimits st history) eqn:Hw.
  - unfold withinLimits in Hw. apply andb_prop in Hw as [H1 H2].
    apply Z.leb_le in H1, H2. split; [reflexivity | split; lia].
  - pose proof (slidingWindow_invariant (MAX_CONTEXT_MESSAGES st)
                  (MAX_ESTIMATED_TOKENS st) history (length history)) as H.
    rewrite drop_all in H. apply H; [lia | simpl; lia | cbn; lia].
Qed.

(** The loop on the store computes [slidingWindow] into the fresh array and
    writes nowhere else. *)
Lemma truncateLoop_refines (maxMessages maxTokens : Z) (history truncated : positive)
      (h : list ConversationMessage) (k : nat) :
  forall (t : list ConversationMessage) (tokenCount : Z)
         (σ : gmap positive (list ConversationMessage)),
  truncated <> history ->
  σ !! history = Some h ->
  σ !! truncated = Some t ->
  (k <= length h)%nat ->
  exists σ',
    truncateLoop maxMessages maxTokens history truncated k tokenCount σ = Some σ'
    /\ σ' !! truncated = Some (slidingWindow maxMessages maxTokens h k t tokenCount)
    /\ forall l, l <> truncated -> σ' !! l = σ !! l.
Proof.
  induction k as [|i IH]; intros t tokenCount σ Hne Hh Ht Hk; simpl.
  - exists σ. auto.
  - destruct (lookup_lt_is_Some_2 h i ltac:(lia)) as [msg Hmsg].
    rewrite Hh. simpl. rewrite Hmsg. simpl. rewrite Ht. simpl.
    destruct (windowFull _ _ _ _ _).
    + exists σ. auto.
    + destruct (IH (msg :: t) (tokenCount + estimateTokens (content msg))
                   (<[truncated := msg :: t]> σ)) as (σ' & Hrun & Hres & Hframe).
      * assumption.
      * rewrite lookup_insert_ne; assumption.
      * apply lookup_insert_eq.
      * lia.
      * exists σ'. split; [exact Hrun | split; [exact Hres |]].
        intros l Hl. rewrite Hframe by assumption.
        apply lookup_insert_ne. congruence.
Qed.

Lemma truncateHistory_refines (st : Settings) (history : positive)
      (h : list ConversationMessage) (σ : gmap positive (list ConversationMessage)) :
  σ !! history = Some h ->
  exists result σ',
    truncateHistory st history σ = Some (result, σ')
    /\ σ' !! result = Some (truncatedContents st h)
    /\ (forall l, is_Some (σ !! l) -> σ' !! l = σ !! l)
    /\ (withinLimits st h = true -> result = history /\ σ' = σ).
Proof.
  intros Hh. unfold truncateHistory, truncatedContents. rewrite Hh. simpl.
  destruct (withinLimits st h) eqn:Hw.
  - exists history, σ. auto.
  - set (truncated := fresh (dom σ)).
    assert (Hfresh : σ !! truncated = None).
    { apply not_elem_of_dom. apply is_fresh. }
    assert (Hne : truncated <> history) by congruence.
    destruct (truncateLoop_refines (MAX_CONTEXT_MESSAGES st) (MAX_ESTIMATED_TOKENS st)
                history truncated h (length h) [] 0 (<[truncated := []]> σ))
      as (σ' & Hrun & Hres & Hframe).
    + assumption.
    + rewrite lookup_insert_ne; assumption.
    + apply lookup_insert_eq.
    + lia.
    + rewrite Hrun. simpl. exists truncated, σ'.
      split; [reflexivity | split; [exact Hres | split; [| discriminate]]].
      intros l [x Hl]. assert (l <> truncated) by congruence.
      rewrite Hframe by assumption. apply lookup_insert_ne. congruence.
Qed.


End TruncationFacts.

(** A settings file that overrides the two truncation limits. *)
Definition smallWindowSettings : Settings :=
{| CLAUDE_MEM_GEMINI_API_KEY := "key";
   CLAUDE_MEM_GEMINI_MODEL := "gemini-3-pro-preview";
   CLAUDE_MEM_GEMINI_RATE_LIMITING_ENABLED := "true";
   CLAUDE_MEM_GEMINI_MAX_CONTEXT_MESSAGES := "2";
   CLAUDE_MEM_GEMINI_MAX_TOKENS := "10";
   CLAUDE_MEM_GEMINI_RETRY_MAX_ATTEMPTS := "5";
   CLAUDE_MEM_GEMINI_RETRY_BASE_DELAY_MS := "5000";
   CLAUDE_MEM_DISABLE_CLAUDE_FALLBACK := "false";
   CLAUDE_MEM_ALLOWED_PROJECTS_ONLY := "";
   CLAUDE_MEM_IGNORED_PROJECTS := "" |}.

Definition threeTurns : list ConversationMessage :=
[ {| role := user; content := "first prompt" |};
  {| role := assistant; content := "<observation/>" |};
  {| role := user; content := "second prompt, longer" |} ].

Example truncatedContents_drops_oldest :
  Truncation.truncatedContents smallWindowSettings threeTurns
  = [ {| role := assistant; content := "<observation/>" |};
      {| role := user; content := "second prompt, longer" |} ].
Proof. vm_compute. reflexivity. Qed.

Example truncatedContents_token_budget :
  Truncation.truncatedContents smallWindowSettings
    [ {| role := user; content := "0123456789012345678901234567890123456789" |};
      {| role := user; content := "01234567890123456789012345678901234567890" |} ]
  = [].
Proof. vm_compute. reflexivity. Qed.


(** ** Strings *)

Lemma append_cons (c : ascii) (a b : string) :
  String c a +:+ b = String c (a +:+ b).
Proof. reflexivity. Qed.

Lemma append_empty_r (a : string) : a +:+ EmptyString = a.
Proof.
  induction a as [|c a IH]; [reflexivity|]. rewrite append_cons, IH. reflexivity.
Qed.

Lemma includes_cons (needle : string) (c : ascii) (r : string) :
  JS.includes needle (String c r)
  = String.prefix needle (String c r) || JS.includes needle r.
Proof. reflexivity. Qed.

Lemma prefix_append (n x y : string) :
  String.prefix n x = true -> String.prefix n (x +:+ y) = true.
Proof.
  revert x. induction n as [|c n IH]; intros x H; destruct x as [|d x];
    try discriminate.
  - destruct y; reflexivity.
  - reflexivity.
  - rewrite append_cons. simpl in *. destruct (ascii_dec c d); [|discriminate].
    apply IH. assumption.
Qed.

Lemma includes_append_l (needle a b : string) :
  JS.includes needle a = true -> JS.includes needle (a +:+ b) = true.
Proof.
  induction a as [|c a IH]; intros H.
  - simpl in H. rewrite orb_false_r in H. destruct needle; [|discriminate].
    destruct b; reflexivity.
  - rewrite append_cons, includes_cons. rewrite includes_cons in H.
    apply orb_prop in H as [H | H].
    + rewrite <- append_cons, (prefix_append _ _ _ H). reflexivity.
    + rewrite (IH H). apply orb_true_r.
Qed.

Lemma includes_append_r (needle a b : string) :
  JS.includes needle b = true -> JS.includes needle (a +:+ b) = true.
Proof.
  intros H. induction a as [|c a IH]; [exact H|].
  rewrite append_cons, includes_cons, IH. apply orb_true_r.
Qed.

(** ** Retry delays *)

Section RetryFacts.

Import Retry.

(** Decimal literals, as the specification reads ["Ns"]: a whole number of
    seconds, or a whole part, a point and a fractional part. *)
Fixpoint allDigits (s : string) : bool :=
  match s with
  | EmptyString => true
  | String c r => JS.isDigit c && allDigits r
  end.

Fixpoint digitsValue (acc : Z) (s : string) : Z :=
  match s with
  | EmptyString => acc
  | String c r => digitsValue (10 * acc + JS.digitValue c) r
  end.

Definition decimalValue (whole fraction : string) : Q :=
  (inject_Z (digitsValue 0 whole)
   + inject_Z (digitsValue 0 fraction) / inject_Z (10 ^ Z.of_nat (String.length fraction)))%Q.

Inductive SecondsLiteral : string -> Q -> Prop :=
| whole_seconds (i : string) :
    allDigits i = true -> i <> EmptyString ->
    SecondsLiteral i (inject_Z (digitsValue 0 i))
| fractional_seconds (i f : string) :
    allDigits i = true -> i <> EmptyString -> allDigits f = true ->
    SecondsLiteral (i +:+ "." +:+ f) (decimalValue i f).

Lemma readDigits_whole (i rest : string) (acc : Z) (seen : bool) :
  allDigits i = true ->
  (seen = true \/ i <> EmptyString) ->
  match rest with String c _ => JS.isDigit c = false | EmptyString => True end ->
  JS.readDigits acc seen (i +:+ rest) = Some (digitsValue acc i, rest).
Proof.
  revert acc seen. induction i as [|c i IH]; intros acc seen Hall Hseen Hrest.
  - simpl. destruct Hseen as [-> | Hne]; [| congruence].
    destruct rest as [|c r]; simpl; [reflexivity|]. rewrite Hrest. reflexivity.
  - simpl in *. apply andb_prop in Hall as [Hc Hall]. rewrite Hc.
    apply IH; auto.
Qed.

Lemma readFraction_digits (f : string) (num den : Z) :
  allDigits f = true ->
  readFraction num den f = (digitsValue num f, den * 10 ^ Z.of_nat (String.length f)).
Proof.
  revert num den. induction f as [|c f IH]; intros num den Hall.
  - simpl. f_equal. lia.
  - simpl in Hall. apply andb_prop in Hall as [Hc Hall].
    cbn [readFraction digitsValue String.length]. rewrite Hc, IH by assumption.
    f_equal. rewrite Nat2Z.inj_succ, Z.pow_succ_r by lia. lia.
Qed.

Lemma parseFloat_literal (m : string) (N : Q) :
  SecondsLiteral m N -> exists q, parseFloat m = JS.Fin q /\ (q == N)%Q.
Proof.
  intros [i Hall Hne | i f Hall Hne Hf]; unfold parseFloat.
  - replace (JS.readDigits 0 false i) with (JS.readDigits 0 false (i +:+ EmptyString))
      by (rewrite append_empty_r; reflexivity).
    rewrite readDigits_whole by auto.
    eexists; split; [reflexivity | reflexivity].
  - rewrite readDigits_whole by (simpl; auto).
    simpl. unfold fractionValue. rewrite readFraction_digits by assumption.
    eexists; split; [reflexivity|]. unfold decimalValue.
    rewrite Z.mul_1_l. reflexivity.
Qed.

Definition secondsChar (c : ascii) : bool := JS.isDigit c || Ascii.eqb c ".".

Fixpoint secondsChars (s : string) : bool :=
  match s with
  | EmptyString => true
  | String c r => secondsChar c && secondsChars r
  end.

Lemma matchSeconds_cons (c : ascii) (r : string) :
  matchSeconds (String c r)
  = if JS.isDigit c || Ascii.eqb c "."
    then if String.eqb r "s" then Some (String c EmptyString)
         else option_map (String c) (matchSeconds r)
    else None.
Proof. reflexivity. Qed.

Lemma matchSeconds_body (body : string) :
  secondsChars body = true -> body <> EmptyString ->
  matchSeconds (body +:+ "s") = Some body.
Proof.
  induction body as [|c body IH]; intros Hall Hne; [congruence|].
  simpl in Hall. apply andb_prop in Hall as [Hc Hall].
  rewrite append_cons, matchSeconds_cons. unfold secondsChar in Hc. rewrite Hc.
  destruct body as [|c' body'].
  - reflexivity.
  - replace (String.eqb (String c' body' +:+ "s") "s") with false.
    + rewrite IH by (auto; congruence). reflexivity.
    + symmetry. apply String.eqb_neq. rewrite append_cons. intros Heq.
      injection Heq as Hc' Hrest. destruct body'; discriminate.
Qed.

Lemma secondsChars_digits (s : string) : allDigits s = true -> secondsChars s = true.
Proof.
  induction s as [|c s IH]; simpl; [reflexivity|].
  intros H. apply andb_prop in H as [Hc Hs].
  unfold secondsChar. rewrite Hc, IH by assumption. reflexivity.
Qed.

Lemma secondsChars_app (a b : string) :
  secondsChars a = true -> secondsChars b = true -> secondsChars (a +:+ b) = true.
Proof.
  induction a as [|c a IH]; simpl; [auto|].
  intros H Hb. apply andb_prop in H as [Hc Ha]. rewrite Hc, IH by assumption.
  reflexivity.
Qed.

Lemma matchSeconds_literal (m : string) (N : Q) :
  SecondsLiteral m N -> matchSeconds (m +:+ "s") = Some m.
Proof.
  intros [i Hall Hne | i f Hall Hne Hf]; apply matchSeconds_body.
  - apply secondsChars_digits; assumption.
  - assumption.
  - apply secondsChars_app; [apply secondsChars_digits; assumption|].
    simpl. apply secondsChars_digits; assumption.
  - destruct i; [congruence | discriminate].
Qed.

(** A detail the loop steps over: an object that is not a [RetryInfo]. *)
Definition otherDetail (detail : JSON) : Prop :=
  exists fields, detail = JObject fields
                 /\ field "@type" fields <> Some (JString RETRY_INFO).

Lemma scanDetails_skips (before rest : list JSON) :
  Forall otherDetail before ->
  scanDetails (before ++ rest) = scanDetails rest.
Proof.
  induction 1 as [|d before (fields & -> & Hty) _ IH]; [reflexivity|].
  cbn [app scanDetails prop]. rewrite IH.
  destruct (field "@type" fields) as [[| | |ty| |]|]; try reflexivity.
  destruct (String.eqb ty RETRY_INFO) eqn:Heq; [|reflexivity].
  apply String.eqb_eq in Heq. congruence.
Qed.

Lemma scanDetails_retryInfo (fields : list (string * JSON)) (rest : list JSON)
      (m : string) (N : Q) :
  field "@type" fields = Some (JString RETRY_INFO) ->
  field "retryDelay" fields = Some (JString (m +:+ "s")) ->
  SecondsLiteral m N ->
  scanDetails (JObject fields :: rest)
  = Some (JS.Fin (inject_Z (Qceiling (N * 1000) + 1000))).
Proof.
  intros Hty Hdelay Hlit. cbn [scanDetails prop]. rewrite Hty.
  rewrite String.eqb_refl, Hdelay, (matchSeconds_literal m N Hlit).
  destruct (parseFloat_literal m N Hlit) as (q & -> & Hq).
  simpl. rewrite Hq. reflexivity.
Qed.

End RetryFacts.

(** ** The retry loop *)

Section QueryFacts.

Context `{!Builtins, !Collaborators}.

(** The error a fetch outcome stands for, if any. *)
Definition errorOf (outcome : FetchOutcome) : option Thrown :=
  match outcome with
  | Rejects e => Some e
  | HttpError status errorText => Some (apiError status errorText)
  | HttpOk _ => None
  end.

(** The world right after a request has been issued. *)
Definition afterFetch (request : Request) (w : World) : World :=
  record (EvFetch (now w) request) w.

(** The delay awaited before the next attempt, and the world after it. *)
Definition retryDelay (geminiDelay : option JS.Num) (attempt baseDelayMs : Z) (w : World)
  : JS.Num :=
  match geminiDelay with
  | Some d => d
  | None => JS.Fin (Retry.calculateBackoffDelay attempt baseDelayMs
                                                (randoms w (randomCount w)))
  end.

Definition afterDelay (geminiDelay : option JS.Num) (attempt baseDelayMs : Z) (w : World)
  : World :=
  let d := retryDelay geminiDelay attempt baseDelayMs w in
  let w1 := match geminiDelay with Some _ => w | None => bumpRandom w end in
  record (EvTimer d) (setNow (now w1 + timerMs d) w1).

Lemma bind_run {A B : Type} (m : M A) (k : A -> M B) (w : World) :
  (m ≫= k) w = match m w with
               | (Ok a, w') => k a w'
               | (Throw e, w') => (Throw e, w')
               end.
Proof. reflexivity. Qed.

Lemma pause_run {A : Type} (geminiDelay : option JS.Num) (attempt baseDelayMs : Z)
      (k : M A) (w : World) :
  (delay ← chooseDelay geminiDelay attempt baseDelayMs; sleep delay;; k) w
  = k (afterDelay geminiDelay attempt baseDelayMs w).
Proof. destruct geminiDelay; reflexivity. Qed.

(** One iteration of the loop, case by case. *)
Lemma retryLoop_step (request : Request) (maxAttempts baseDelayMs : Z)
      (remaining : nat) (attempt : Z) (lastError : option Thrown) (w : World) :
  retryLoop request maxAttempts baseDelayMs (S remaining) attempt lastError w
  = let w1 := afterFetch request w in
    let caught error :=
      if Retry.isRateLimitError error && (attempt <? maxAttempts - 1)
      then retryLoop request maxAttempts baseDelayMs remaining (attempt + 1)
                     (Some (asError error)) (afterDelay None attempt baseDelayMs w1)
      else (Throw error, w1) in
    match network w (fetchCount w) with
    | HttpOk data => (Ok (parseGeminiResponse data (req_model request)), w1)
    | HttpError status errorText =>
        if (status =? 429) && (attempt <? maxAttempts - 1)
        then retryLoop request maxAttempts baseDelayMs remaining (attempt + 1) lastError
                       (afterDelay (Retry.extractGeminiRetryDelay errorText)
                                   attempt baseDelayMs w1)
        else caught (apiError status errorText)
    | Rejects error => caught error
    end.
Proof.
  cbn [retryLoop]. rewrite bind_run. unfold fetch at 1. cbv zeta.
  fold (afterFetch request w).
  destruct (network w (fetchCount w)) as [error | status errorText | data].
  - destruct (Retry.isRateLimitError error && (attempt <? maxAttempts - 1)).
    + apply pause_run.
    + reflexivity.
  - destruct ((status =? 429) && (attempt <? maxAttempts - 1)).
    + apply pause_run.
    + destruct (Retry.isRateLimitError _ && (attempt <? maxAttempts - 1)).
      * apply pause_run.
      * reflexivity.
  - reflexivity.
Qed.

(** The retry loop leaves everything but the clock, the random counter and
    the trace as it was. *)
Definition quiet (w w' : World) : Prop :=
  sessions w' = sessions w /\ settings w' = settings w /\ external w' = external w
  /\ network w' = network w /\ lastRequestTime w' = lastRequestTime w
  /\ GEMINI_API_KEY w' = GEMINI_API_KEY w /\ randoms w' = randoms w.

Lemma quiet_refl (w : World) : quiet w w.
Proof. unfold quiet. auto 10. Qed.

Lemma quiet_trans (w1 w2 w3 : World) : quiet w1 w2 -> quiet w2 w3 -> quiet w1 w3.
Proof. unfold quiet. intuition congruence. Qed.

Lemma quiet_afterFetch (request : Request) (w : World) : quiet w (afterFetch request w).
Proof. unfold quiet. auto 10. Qed.

Lemma quiet_afterDelay (geminiDelay : option JS.Num) (attempt baseDelayMs : Z) (w : World) :
  quiet w (afterDelay geminiDelay attempt baseDelayMs w).
Proof. unfold quiet. destruct geminiDelay; simpl; auto 10. Qed.

Lemma fetchCount_afterFetch (request : Request) (w : World) :
  fetchCount (afterFetch request w) = S (fetchCount w).
Proof. reflexivity. Qed.

Lemma fetchCount_afterDelay (geminiDelay : option JS.Num) (attempt baseDelayMs : Z)
      (w : World) :
  fetchCount (afterDelay geminiDelay attempt baseDelayMs w) = fetchCount w.
Proof. destruct geminiDelay; reflexivity. Qed.

Lemma toLowerCase_append (a b : string) :
  JS.toLowerCase (a +:+ b) = JS.toLowerCase a +:+ JS.toLowerCase b.
Proof.
  induction a as [|c a IH]; [reflexivity|].
  rewrite append_cons. simpl. rewrite IH, append_cons. reflexivity.
Qed.

(** An HTTP 429 is classified as a rate limit error by its message. *)
Lemma isRateLimitError_429 (errorText : string) :
  Retry.isRateLimitError (apiError 429 errorText) = true.
Proof.
  unfold apiError, Retry.isRateLimitError.
  change (pretty 429) with "429".
  change ("Gemini API error: " +:+ "429" +:+ " - " +:+ errorText)
    with ("Gemini API error: 429 - " +:+ errorText).
  rewrite toLowerCase_append, includes_append_l; reflexivity.
Qed.

(** How the request with index [k] of a call ends, [attempt] being its
    attempt number: a response is returned; an error that is not classified
    as a rate limit, or that comes on the last attempt, is thrown at once; any
    other error is followed by a further request. *)
Definition settles (maxAttempts : Z) (request : Request) (w : World) (attempt : Z)
           (k : nat) (res : Result QueryResult) (w' : World) : Prop :=
  match network w k with
  | HttpOk data =>
      res = Ok (parseGeminiResponse data (req_model request))
      /\ fetchCount w' = S k
  | outcome =>
      forall error, errorOf outcome = Some error ->
        if Retry.isRateLimitError error && (attempt <? maxAttempts - 1)
        then (S k < fetchCount w')%nat
        else res = Throw error /\ fetchCount w' = S k
  end.

Lemma retryLoop_requests (request : Request) (maxAttempts baseDelayMs : Z)
      (remaining : nat) :
  forall (attempt : Z) (lastError : option Thrown) (w : World),
  attempt + Z.of_nat remaining = maxAttempts ->
  let res := fst (retryLoop request maxAttempts baseDelayMs remaining attempt lastError w) in
  let w' := snd (retryLoop request maxAttempts baseDelayMs remaining attempt lastError w) in
  quiet w w'
  /\ (fetchCount w <= fetchCount w' <= fetchCount w + remaining)%nat
  /\ (remaining <> O -> (fetchCount w < fetchCount w')%nat)
  /\ forall k, (fetchCount w <= k < fetchCount w')%nat ->
       settles maxAttempts request w (attempt + Z.of_nat (k - fetchCount w)) k res w'.
Proof.
  induction remaining as [|n IH]; intros attempt lastError w Hsum.
  - simpl. split; [apply quiet_refl|]. split; [lia|]. split; [congruence|].
    intros k Hk. lia.
  - rewrite retryLoop_step. cbv zeta.
    set (w1 := afterFetch request w).
    assert (Hq1 : quiet w w1) by apply quiet_afterFetch.
    assert (Hc1 : fetchCount w1 = S (fetchCount w)) by reflexivity.
    (* what a retry gives, by the induction hypothesis *)
    assert (Hretry : forall gd le error,
               errorOf (network w (fetchCount w)) = Some error ->
               Retry.isRateLimitError error && (attempt <? maxAttempts - 1) = true ->
               let run := retryLoop request maxAttempts baseDelayMs n (attempt + 1) le
                                    (afterDelay gd attempt baseDelayMs w1) in
               quiet w (snd run)
               /\ (fetchCount w <= fetchCount (snd run) <= fetchCount w + S n)%nat
               /\ (S n <> O -> (fetchCount w < fetchCount (snd run))%nat)
               /\ forall k, (fetchCount w <= k < fetchCount (snd run))%nat ->
                    settles maxAttempts request w
                            (attempt + Z.of_nat (k - fetchCount w)) k (fst run) (snd run)).
    { intros gd le error Herr Hcls. cbv zeta.
      apply andb_prop in Hcls as [Hrl Hlt]. apply Z.ltb_lt in Hlt.
      set (w2 := afterDelay gd attempt baseDelayMs w1).
      assert (Hq2 : quiet w w2).
      { eapply quiet_trans; [exact Hq1 | apply quiet_afterDelay]. }
      assert (Hc2 : fetchCount w2 = S (fetchCount w)).
      { unfold w2. rewrite fetchCount_afterDelay. exact Hc1. }
      destruct (IH (attempt + 1) le w2 ltac:(lia)) as (Hq & Hcount & Hprog & Hsettle).
      assert (Hn : n <> O) by lia. specialize (Hprog Hn).
      split; [eapply quiet_trans; eassumption|].
      split; [lia|]. split; [lia|].
      intros k Hk.
      assert (Hnet : network w2 = network w) by apply Hq2.
      destruct (Nat.eq_dec k (fetchCount w)) as [-> | Hne].
      - rewrite Nat.sub_diag, Z.add_0_r. unfold settles.
        destruct (network w (fetchCount w)) as [e | st txt | data] eqn:Hout;
          try discriminate;
          intros e' He'; rewrite Herr in He'; injection He' as <-;
          rewrite Hrl; (replace (attempt <? maxAttempts - 1) with true
                         by (symmetry; apply Z.ltb_lt; lia)); simpl; lia.
      - specialize (Hsettle k ltac:(lia)). unfold settles in Hsettle |- *.
        rewrite Hnet in Hsettle.
        replace (attempt + Z.of_nat (k - fetchCount w))
          with (attempt + 1 + Z.of_nat (k - fetchCount w2)) by lia.
        exact Hsettle. }
    (* what stopping gives *)
    assert (Hstop : forall res,
               (forall k, k = fetchCount w ->
                          settles maxAttempts request w attempt k res w1) ->
               quiet w w1
               /\ (fetchCount w <= fetchCount w1 <= fetchCount w + S n)%nat
               /\ (S n <> O -> (fetchCount w < fetchCount w1)%nat)
               /\ forall k, (fetchCount w <= k < fetchCount w1)%nat ->
                    settles maxAttempts request w
                            (attempt + Z.of_nat (k - fetchCount w)) k res w1).
    { intros res Hres. split; [exact Hq1|]. split; [lia|]. split; [lia|].
      intros k Hk. assert (k = fetchCount w) as -> by lia.
      rewrite Nat.sub_diag, Z.add_0_r. apply Hres. reflexivity. }
    destruct (network w (fetchCount w)) as [error | status errorText | data] eqn:Hout.
    + destruct (Retry.isRateLimitError error && (attempt <? maxAttempts - 1)) eqn:Hcls.
      * apply (Hretry None _ error); [reflexivity | exact Hcls].
      * apply Hstop. intros k ->. unfold settles. rewrite Hout.
        intros e He. injection He as <-. rewrite Hcls. auto.
    + destruct ((status =? 429) && (attempt <? maxAttempts - 1)) eqn:H429.
      * apply andb_prop in H429 as [Hst Hlt]. apply Z.eqb_eq in Hst. subst status.
        apply (Hretry _ _ (apiError 429 errorText)); [reflexivity|].
        rewrite isRateLimitError_429, Hlt. reflexivity.
      * destruct (Retry.isRateLimitError (apiError status errorText)
                  && (attempt <? maxAttempts - 1)) eqn:Hcls.
        -- apply (Hretry None _ (apiError status errorText)); [reflexivity | exact Hcls].
        -- apply Hstop. intros k ->. unfold settles. rewrite Hout.
           intros e He. injection He as <-. rewrite Hcls. auto.
    + apply Hstop. intros k ->. unfold settles. rewrite Hout. auto.
Qed.

(** *** Rate limiting before the first attempt *)

(** The wait [enforceRateLimitForModel] performs, if any. *)
Definition remainingWait (model : string) (w : World) : option Z :=
  if now w - lastRequestTime w <? minimumDelayMs model
  then Some (minimumDelayMs model - (now w - lastRequestTime w))
  else None.

(** The world [enforceRateLimitForModel] leaves when rate limiting is on. *)
Definition afterEnforce (model : string) (w : World) : World :=
  match remainingWait model w with
  | Some wait =>
      let d := JS.Fin (inject_Z wait) in
      setLastRequestTime (now w + timerMs d)
                         (record (EvTimer d) (setNow (now w + timerMs d) w))
  | None => setLastRequestTime (now w) w
  end.

Lemma enforceRateLimitForModel_run (model : string) (rateLimitingEnabled : bool)
      (w : World) :
  enforceRateLimitForModel model rateLimitingEnabled w
  = (Ok tt, if rateLimitingEnabled then afterEnforce model w else w).
Proof.
  unfold enforceRateLimitForModel, afterEnforce, remainingWait.
  destruct rateLimitingEnabled; [|reflexivity]. simpl.
  rewrite bind_run. unfold get at 1. cbv zeta.
  destruct (now w - lastRequestTime w <? minimumDelayMs model); reflexivity.
Qed.

Lemma afterEnforce_frame (model : string) (w : World) :
  fetchCount (afterEnforce model w) = fetchCount w
  /\ network (afterEnforce model w) = network w
  /\ settings (afterEnforce model w) = settings w
  /\ sessions (afterEnforce model w) = sessions w
  /\ external (afterEnforce model w) = external w.
Proof. unfold afterEnforce. destruct (remainingWait model w); simpl; auto. Qed.

Definition requestFor (st : Settings) (history : list ConversationMessage)
           (apiKey model : string) : Request :=
  {| req_model := model;
     req_apiKey := apiKey;
     req_contents := conversationToGeminiContents (Truncation.truncatedContents st history);
     req_thinkingConfig := isThinkingModel model |}.

Lemma queryGeminiMultiTurn_run (history : list ConversationMessage)
      (apiKey model : string) (rateLimitingEnabled : bool) (w : World) :
  queryGeminiMultiTurn history apiKey model rateLimitingEnabled w
  = retryLoop (requestFor (settings w) history apiKey model)
              (maxAttemptsOf (settings w)) (baseDelayMsOf (settings w))
              (Z.to_nat (maxAttemptsOf (settings w))) 0 None
              (if rateLimitingEnabled then afterEnforce model w else w).
Proof.
  unfold queryGeminiMultiTurn. rewrite bind_run. unfold get at 1. cbv zeta.
  rewrite bind_run, enforceRateLimitForModel_run. rewrite bind_run. unfold get at 1.
  cbv zeta.
  assert (Hst : settings (if rateLimitingEnabled then afterEnforce model w else w)
                = settings w).
  { destruct rateLimitingEnabled; [apply afterEnforce_frame | reflexivity]. }
  rewrite Hst. reflexivity.
Qed.

(** C4. A call of [queryGeminiMultiTurn] issues at most [maxAttempts]
    requests (5 when the setting does not parse; none when it is negative).
    For every request [k] of the call, [attempt] being its number within the
    call: an error that is not classified as a rate limit is thrown to the
    caller and no further request follows; an error on the last attempt
    ([attempt = maxAttempts - 1]) is thrown and no further request follows; a
    rate limit error before the last attempt is followed by a further request;
    and whenever a further request follows, the outcome was a rate limit
    error, which every HTTP 429 is. *)
Theorem queryGeminiMultiTurn_retries_only_rate_limits
        (history : list ConversationMessage) (apiKey model : string)
        (rateLimitingEnabled : bool) (w : World) :
  let res := fst (queryGeminiMultiTurn history apiKey model rateLimitingEnabled w) in
  let w' := snd (queryGeminiMultiTurn history apiKey model rateLimitingEnabled w) in
  let maxAttempts := maxAttemptsOf (settings w) in
  (fetchCount w' <= fetchCount w + Z.to_nat maxAttempts)%nat
  /\ (JS.parseInt (CLAUDE_MEM_GEMINI_RETRY_MAX_ATTEMPTS (settings w)) = None ->
      maxAttempts = 5)
  /\ (forall errorText, Retry.isRateLimitError (apiError 429 errorText) = true)
  /\ forall k, (fetchCount w <= k < fetchCount w')%nat ->
       let attempt := Z.of_nat (k - fetchCount w) in
       (forall error, errorOf (network w k) = Some error ->
                      Retry.isRateLimitError error = false ->
                      res = Throw error /\ fetchCount w' = S k)
       /\ (forall error, errorOf (network w k) = Some error ->
                         attempt = maxAttempts - 1 ->
                         res = Throw error /\ fetchCount w' = S k)
       /\ (forall error, errorOf (network w k) = Some error ->
                         Retry.isRateLimitError error = true ->
                         attempt < maxAttempts - 1 ->
                         (S k < fetchCount w')%nat)
       /\ ((S k < fetchCount w')%nat ->
           exists error, errorOf (network w k) = Some error
                         /\ Retry.isRateLimitError error = true).
Proof.
  cbv zeta. rewrite queryGeminiMultiTurn_run.
  set (w0 := if rateLimitingEnabled then afterEnforce model w else w).
  assert (Hframe : fetchCount w0 = fetchCount w /\ network w0 = network w).
  { unfold w0. destruct rateLimitingEnabled; [|auto].
    pose proof (afterEnforce_frame model w). tauto. }
  destruct Hframe as [Hc0 Hn0].
  set (maxAttempts := maxAttemptsOf (settings w)).
  set (request := requestFor (settings w) history apiKey model).
  set (run := retryLoop request maxAttempts (baseDelayMsOf (settings w))
                        (Z.to_nat maxAttempts) 0 None w0).
  split; [|split; [|split; [apply isRateLimitError_429|]]].
  - destruct (Z_le_gt_dec 0 maxAttempts) as [Hpos | Hneg].
    + pose proof (retryLoop_requests request maxAttempts (baseDelayMsOf (settings w))
                    (Z.to_nat maxAttempts) 0 None w0 ltac:(lia)) as (_ & Hcount & _).
      fold run in Hcount. lia.
    + unfold run. replace (Z.to_nat maxAttempts) with O by lia. simpl. lia.
  - intros Hp. unfold maxAttempts, maxAttemptsOf, JS.parseIntOr. rewrite Hp. reflexivity.
  - intros k Hk.
    destruct (Z_le_gt_dec 0 maxAttempts) as [Hpos | Hneg].
    2:{ exfalso. revert Hk. unfold run.
        replace (Z.to_nat maxAttempts) with O by lia. simpl. lia. }
    pose proof (retryLoop_requests request maxAttempts (baseDelayMsOf (settings w))
                  (Z.to_nat maxAttempts) 0 None w0 ltac:(lia)) as (_ & _ & _ & Hsettle).
    fold run in Hsettle. specialize (Hsettle k ltac:(lia)).
    unfold settles in Hsettle. rewrite Hn0, Hc0, Z.add_0_l in Hsettle.
    destruct (network w k) as [e | status errorText | data] eqn:Hout; simpl.
    + specialize (Hsettle e eq_refl).
      split; [|split; [|split]].
      * intros error [= <-] Hcls. rewrite Hcls in Hsettle. exact Hsettle.
      * intros error [= <-] Hlast.
        replace (_ <? _) with false in Hsettle by (symmetry; apply Z.ltb_ge; lia).
        rewrite andb_false_r in Hsettle. exact Hsettle.
      * intros error [= <-] Hcls Hlt. rewrite Hcls in Hsettle.
        replace (_ <? _) with true in Hsettle by (symmetry; apply Z.ltb_lt; lia).
        exact Hsettle.
      * intros Hmore. exists e. split; [reflexivity|].
        destruct (Retry.isRateLimitError e); [reflexivity|].
        simpl in Hsettle. lia.
    + specialize (Hsettle _ eq_refl).
      split; [|split; [|split]].
      * intros error [= <-] Hcls. rewrite Hcls in Hsettle. exact Hsettle.
      * intros error [= <-] Hlast.
        replace (_ <? _) with false in Hsettle by (symmetry; apply Z.ltb_ge; lia).
        rewrite andb_false_r in Hsettle. exact Hsettle.
      * intros error [= <-] Hcls Hlt. rewrite Hcls in Hsettle.
        replace (_ <? _) with true in Hsettle by (symmetry; apply Z.ltb_lt; lia).
        exact Hsettle.
      * intros Hmore. eexists. split; [reflexivity|].
        destruct (Retry.isRateLimitError _); [reflexivity|].
        simpl in Hsettle. lia.
    + split; [|split; [|split]]; try (intros; discriminate).
      intros Hmore. lia.
Qed.

End QueryFacts.

(** ** A concrete configuration for the examples *)

(** The body of a 429 response that suggests a delay, named rather than
    spelled out, and what [JSON.parse] makes of it. *)
Definition retryInfoText : string := "429 body suggesting 32.5s".

Definition retryInfoJson : JSON :=
JObject [ ("error",
           JObject [ ("code", JNumber (inject_Z 429));
                     ("status", JString "RESOURCE_EXHAUSTED");
                     ("details",
                      JArray [ JObject [ ("@type", JString "type.googleapis.com/google.rpc.Help") ];
                               JObject [ ("@type", JString Retry.RETRY_INFO);
                                         ("retryDelay", JString "32.5s") ] ]) ]) ].

#[local] Instance demoBuiltins : Builtins :=
{| JSON_parse := fun s => if String.eqb s retryInfoText then Some retryInfoJson else None;
   JSON_stringify := fun _ => "{}" |}.

(** Collaborators that keep no state: an abort is an error named
    [AbortError], fallback is allowed for rate limit errors unless disabled,
    the session manager assigns a fixed id, the queue is empty. *)
#[local] Instance demoCollaborators : Collaborators :=
{| Ext := unit;
   Mode := unit;
   isAbortError := fun e =>
     match e with
     | ErrorObject name _ => String.eqb name "AbortError"
     | OtherValue _ => false
     end;
   shouldFallbackToClaude := fun e disabled => negb disabled && Retry.isRateLimitError e;
   getActiveMode := fun _ => tt;
   buildInitPrompt := fun project _ prompt _ => "init: " +:+ prompt;
   buildContinuationPrompt := fun prompt _ _ _ => "continue: " +:+ prompt;
   buildObservationPrompt := fun tool _ _ _ _ => "observed: " +:+ tool;
   buildSummaryPrompt := fun _ last _ => "summarize: " +:+ last;
   ensureMemorySessionId := fun r _ st =>
     (Ok tt,
      (fun r' =>
         if Nat.eqb r' r then
           match memorySessionId (fst st r) with
           | Some _ => fst st r
           | None =>
               {| sessionDbId := sessionDbId (fst st r);
                  contentSessionId := contentSessionId (fst st r);
                  memorySessionId := Some "mem-1";
                  project := project (fst st r);
                  userPrompt := userPrompt (fst st r);
                  lastPromptNumber := lastPromptNumber (fst st r);
                  conversationHistory := conversationHistory (fst st r);
                  cumulativeInputTokens := cumulativeInputTokens (fst st r);
                  cumulativeOutputTokens := cumulativeOutputTokens (fst st r);
                  earliestPendingTimestamp := earliestPendingTimestamp (fst st r);
                  startTime := startTime (fst st r) |}
           end
         else fst st r',
       snd st));
   processAgentResponse := fun _ _ _ _ _ st => (Ok tt, st);
   getMessageIterator := fun _ st => (([], None), st) |}.

Definition demoSession : ActiveSession :=
{| sessionDbId := 7;
   contentSessionId := "content-7";
   memorySessionId := None;
   project := "claude-mem";
   userPrompt := "fix the bug";
   lastPromptNumber := 1;
   conversationHistory := [];
   cumulativeInputTokens := 0;
   cumulativeOutputTokens := 0;
   earliestPendingTimestamp := None;
   startTime := 0 |}.

(** A world whose network answers every request with the given outcomes, in
    order, and then with the last one for ever. *)
Definition demoWorld (st : Settings) (outcomes : list FetchOutcome) (final : FetchOutcome)
  : World :=
{| now := 0;
   lastRequestTime := 0;
   settings := st;
   GEMINI_API_KEY := "";
   sessions := fun _ => demoSession;
   external := tt;
   network := fun n => nth n outcomes final;
   randoms := fun _ => 0%Q;
   randomCount := O;
   trace := [] |}.

Definition aResponse (reply : string) : GeminiResponse :=
{| candidates :=
     Some [ {| parts := Some [ {| text := Some "thinking"; thought := Some true |};
                               {| text := Some reply; thought := None |} ];
               finishReason := Some "STOP" |} ];
   totalTokenCount := Some 100 |}.

Definition busy : FetchOutcome := HttpError 429 "busy".

Example five_429_then_throw :
  let run := queryGeminiMultiTurn [ userTurn "hello" ] "key" "gemini-3-pro-preview" true
                                  (demoWorld smallWindowSettings [] busy) in
  fst run = Throw (apiError 429 "busy") /\ fetchCount (snd run) = 5%nat.
Proof. vm_compute. split; reflexivity. Qed.

Example three_429_then_answer :
  let run := queryGeminiMultiTurn [ userTurn "hello" ] "key" "gemini-3-pro-preview" true
               (demoWorld smallWindowSettings [ busy; busy; busy ]
                          (HttpOk (aResponse "<observation/>"))) in
  fst run = Ok {| qr_content := "<observation/>"; tokensUsed := Some 100 |}
  /\ fetchCount (snd run) = 4%nat.
Proof. vm_compute. split; reflexivity. Qed.

Lemma queryGeminiMultiTurn_retries_only_rate_limits_witness :
  let run := queryGeminiMultiTurn [ userTurn "hello" ] "key" "gemini-3-pro-preview" true
                                  (demoWorld smallWindowSettings [] busy) in
  (fetchCount (snd run) <= 5)%nat /\ fst run = Throw (apiError 429 "busy").
Proof.
  pose proof (queryGeminiMultiTurn_retries_only_rate_limits
                [ userTurn "hello" ] "key" "gemini-3-pro-preview" true
                (demoWorld smallWindowSettings [] busy)) as (Hcount & _ & _ & Hk).
  split; [exact Hcount|].
  destruct (Hk 4%nat) as (_ & Hlast & _).
  - vm_compute. lia.
  - destruct (Hlast (apiError 429 "busy")) as [Hres _]; [reflexivity | reflexivity |].
    exact Hres.
Defined.

Section RetryDelayFacts.

Context `{!Builtins, !Collaborators}.

Import Retry.

Lemma calculateBackoffDelay_shape (attempt baseDelayMs : Z) (r : Q) :
  (0 <= r)%Q -> (r < 1)%Q ->
  let exponentialDelay := inject_Z (baseDelayMs * 2 ^ attempt) in
  exists fraction : Q,
    ((1 # 10) <= fraction)%Q /\ (fraction < (2 # 10))%Q
    /\ (calculateBackoffDelay attempt baseDelayMs r
        == Qmin (exponentialDelay + exponentialDelay * fraction) (inject_Z 60000))%Q
    /\ (calculateBackoffDelay attempt baseDelayMs r <= inject_Z 60000)%Q.
Proof.
  intros Hr0 Hr1. cbv zeta. exists ((1 # 10) + r * (1 # 10))%Q.
  split; [lra|]. split; [lra|]. split.
  - unfold calculateBackoffDelay. reflexivity.
  - unfold calculateBackoffDelay. apply Q.le_min_r.
Qed.

Lemma extractGeminiRetryDelay_retryInfo
      (errorText : string) (errorJson : JSON) (before after : list JSON)
      (fields : list (string * JSON)) (m : string) (N : Q) :
  JSON_parse errorText = Some errorJson ->
  prop (prop (Some errorJson) "error") "details"
  = Some (JArray (before ++ JObject fields :: after)) ->
  Forall otherDetail before ->
  field "@type" fields = Some (JString RETRY_INFO) ->
  field "retryDelay" fields = Some (JString (m +:+ "s")) ->
  SecondsLiteral m N ->
  extractGeminiRetryDelay errorText
  = Some (JS.Fin (inject_Z (Qceiling (N * 1000) + 1000))).
Proof.
  intros Hparse Hdetails Hbefore Hty Hdelay Hlit.
  unfold extractGeminiRetryDelay. rewrite Hparse, Hdetails. simpl.
  rewrite scanDetails_skips by assumption.
  eapply scanDetails_retryInfo; eassumption.
Qed.


End RetryDelayFacts.

(** ** What a computation adds to the trace *)

Section TraceFacts.

Context `{!Builtins, !Collaborators}.

(** [adds P m]: running [m] only prepends events to the trace, all of them
    satisfying [P]. *)
Definition adds {A : Type} (P : Event -> Prop) (m : M A) : Prop :=
  forall w, exists later, trace (snd (m w)) = later ++ trace w /\ Forall P later.

Lemma adds_ret {A : Type} (P : Event -> Prop) (a : A) : adds P (mret a).
Proof. intros w. exists []. auto. Qed.

Lemma adds_throw {A : Type} (P : Event -> Prop) (e : Thrown) : adds P (mthrow e : M A).
Proof. intros w. exists []. auto. Qed.

Lemma adds_bind {A B : Type} (P : Event -> Prop) (m : M A) (k : A -> M B) :
  adds P m -> (forall a, adds P (k a)) -> adds P (m ≫= k).
Proof.
  intros Hm Hk w. rewrite bind_run.
  destruct (Hm w) as (l1 & H1 & HP1).
  destruct (m w) as [[a | e] w1]; simpl in *.
  - destruct (Hk a w1) as (l2 & H2 & HP2).
    exists (l2 ++ l1). rewrite H2, H1, app_assoc. split; [reflexivity|].
    apply Forall_app; auto.
  - exists l1. auto.
Qed.

Lemma adds_tryCatch {A : Type} (P : Event -> Prop) (m : M A) (h : Thrown -> M A) :
  adds P m -> (forall e, adds P (h e)) -> adds P (tryCatch m h).
Proof.
  intros Hm Hh w. unfold tryCatch.
  destruct (Hm w) as (l1 & H1 & HP1).
  destruct (m w) as [[a | e] w1]; simpl in *.
  - exists l1. auto.
  - destruct (Hh e w1) as (l2 & H2 & HP2).
    exists (l2 ++ l1). rewrite H2, H1, app_assoc. split; [reflexivity|].
    apply Forall_app; auto.
Qed.

Lemma adds_get (P : Event -> Prop) : adds P get.
Proof. intros w. exists []. auto. Qed.

Lemma adds_readSession (P : Event -> Prop) (r : SessionRef) : adds P (readSession r).
Proof. intros w. exists []. auto. Qed.

Lemma adds_updateSession (P : Event -> Prop) (r : SessionRef)
      (f : ActiveSession -> ActiveSession) : adds P (updateSession r f).
Proof. intros w. exists []. auto. Qed.

Lemma adds_call {A : Type} (P : Event -> Prop)
      (f : (SessionRef -> ActiveSession) * Ext ->
           Result A * ((SessionRef -> ActiveSession) * Ext)) : adds P (call f).
Proof.
  intros w. exists []. unfold call.
  destruct (f (sessions w, external w)) as [res [h x]]. auto.
Qed.

Lemma adds_emit (P : Event -> Prop) (e : Event) : P e -> adds P (emit e).
Proof. intros HP w. exists [e]. auto. Qed.

Lemma adds_sleep (P : Event -> Prop) (d : JS.Num) : P (EvTimer d) -> adds P (sleep d).
Proof. intros HP w. exists [EvTimer d]. auto. Qed.

Lemma adds_random (P : Event -> Prop) : adds P random.
Proof. intros w. exists []. auto. Qed.

Lemma adds_fetch (P : Event -> Prop) (request : Request) :
  (forall t, P (EvFetch t request)) -> adds P (fetch request).
Proof. intros HP w. exists [EvFetch (now w) request]. auto. Qed.

Lemma adds_setLastRequestTime (P : Event -> Prop) :
  adds P (modify (fun w => setLastRequestTime (now w) w)).
Proof. intros w. exists []. auto. Qed.

(** Events of the network layer: requests and timers. *)
Definition networkEvent (e : Event) : Prop :=
  match e with
  | EvFetch _ _ | EvTimer _ => True
  | _ => False
  end.

Definition passesNetwork (P : Event -> Prop) : Prop :=
  forall e, networkEvent e -> P e.

Lemma adds_chooseDelay (P : Event -> Prop) (gd : option JS.Num) (attempt base : Z) :
  adds P (chooseDelay gd attempt base).
Proof.
  destruct gd; simpl; [apply adds_ret|].
  apply adds_bind; [apply adds_random | intros; apply adds_ret].
Qed.

Lemma adds_retryLoop_request (P : Event -> Prop) (request : Request)
      (maxAttempts base : Z) (remaining : nat) :
  (forall t, P (EvFetch t request)) ->
  (forall d, P (EvTimer d)) ->
  forall attempt lastError,
    adds P (retryLoop request maxAttempts base remaining attempt lastError).
Proof.
  intros Hfetch Htimer. induction remaining as [|n IH]; intros attempt lastError.
  - apply adds_throw.
  - cbn [retryLoop].
    assert (Hpause : forall gd le,
               adds P (delay ← chooseDelay gd attempt base; sleep delay;;
                       retryLoop request maxAttempts base n (attempt + 1) le)).
    { intros gd le. apply adds_bind; [apply adds_chooseDelay|]. intros d.
      apply adds_bind; [apply adds_sleep, Htimer | intros; apply IH]. }
    apply adds_bind; [apply adds_fetch, Hfetch|].
    intros [error | status errorText | data].
    + destruct (_ && _); [apply Hpause | apply adds_throw].
    + destruct (_ && _); [apply Hpause|].
      destruct (_ && _); [apply Hpause | apply adds_throw].
    + apply adds_ret.
Qed.

Lemma adds_retryLoop (P : Event -> Prop) (request : Request) (maxAttempts base : Z)
      (remaining : nat) :
  passesNetwork P ->
  forall attempt lastError,
    adds P (retryLoop request maxAttempts base remaining attempt lastError).
Proof.
  intros HP. apply adds_retryLoop_request; intros; apply HP; exact I.
Qed.

Lemma adds_enforceRateLimitForModel (P : Event -> Prop) (model : string) (enabled : bool) :
  passesNetwork P -> adds P (enforceRateLimitForModel model enabled).
Proof.
  intros HP. unfold enforceRateLimitForModel.
  destruct enabled; simpl; [|apply adds_ret].
  apply adds_bind; [apply adds_get|]. intros w.
  apply adds_bind; [|intros; apply adds_setLastRequestTime].
  destruct (_ <? _); [apply adds_sleep, HP; exact I | apply adds_ret].
Qed.

Lemma adds_queryGeminiMultiTurn (P : Event -> Prop)
      (history : list ConversationMessage) (apiKey model : string) (enabled : bool) :
  passesNetwork P -> adds P (queryGeminiMultiTurn history apiKey model enabled).
Proof.
  intros HP. unfold queryGeminiMultiTurn.
  apply adds_bind; [apply adds_get|]. intros w.
  apply adds_bind; [apply adds_enforceRateLimitForModel; assumption|]. intros _.
  apply adds_bind; [apply adds_get|]. intros w'.
  apply adds_retryLoop. assumption.
Qed.

(** Every request of a call carries the truncated history, in Gemini's
    format, and nothing else is added to the trace but timers. *)
Definition sendsTruncated (st : Settings) (history : list ConversationMessage)
           (e : Event) : Prop :=
  match e with
  | EvFetch _ request =>
      req_contents request
      = conversationToGeminiContents (Truncation.truncatedContents st history)
  | EvTimer _ => True
  | _ => False
  end.

Lemma queryGeminiMultiTurn_sends_truncated_history
      (history : list ConversationMessage) (apiKey model : string) (enabled : bool)
      (w : World) :
  exists later,
    trace (snd (queryGeminiMultiTurn history apiKey model enabled w)) = later ++ trace w
    /\ Forall (sendsTruncated (settings w) history) later.
Proof.
  rewrite queryGeminiMultiTurn_run.
  set (w0 := if enabled then afterEnforce model w else w).
  assert (Hw0 : exists l0, trace w0 = l0 ++ trace w
                           /\ Forall (sendsTruncated (settings w) history) l0).
  { unfold w0, afterEnforce. destruct enabled; [|exists []; auto].
    destruct (remainingWait model w) as [wait|]; [|exists []; auto].
    eexists [_]. split; [reflexivity|]. repeat constructor. }
  destruct Hw0 as (l0 & Hl0 & HP0).
  destruct (adds_retryLoop_request (sendsTruncated (settings w) history)
              (requestFor (settings w) history apiKey model)
              (maxAttemptsOf (settings w)) (baseDelayMsOf (settings w))
              (Z.to_nat (maxAttemptsOf (settings w)))
              ltac:(intros; reflexivity) ltac:(intros; exact I) 0 None w0)
    as (l1 & Hl1 & HP1).
  exists (l1 ++ l0). rewrite Hl1, Hl0, app_assoc. split; [reflexivity|].
  apply Forall_app; auto.
Qed.

End TraceFacts.

(** ** Rate limiting *)

(** Times of the requests in a trace, most recent first. *)
Fixpoint requestTimes (t : list Event) : list Z :=
  match t with
  | [] => []
  | EvFetch at_time _ :: r => at_time :: requestTimes r
  | _ :: r => requestTimes r
  end.

(** Are consecutive times (most recent first) at least [gap] apart? *)
Fixpoint spaced (gap : Z) (times : list Z) : bool :=
  match times with
  | t2 :: rest =>
      match rest with
      | t1 :: _ => (gap <=? t2 - t1) && spaced gap rest
      | [] => true
      end
  | [] => true
  end.

Section RateLimitFacts.

Context `{!Builtins, !Collaborators}.

Lemma retryLoop_first_request (request : Request) (maxAttempts base : Z)
      (remaining : nat) (attempt : Z) (lastError : option Thrown) (w : World) :
  exists later,
    trace (snd (retryLoop request maxAttempts base (S remaining) attempt lastError w))
    = later ++ EvFetch (now w) request :: trace w.
Proof.
  assert (Hstop : forall res : Result QueryResult,
             exists later, trace (snd (res, afterFetch request w))
                           = later ++ EvFetch (now w) request :: trace w).
  { intros res. exists []. reflexivity. }
  assert (Hretry : forall gd le,
             exists later,
               trace (snd (retryLoop request maxAttempts base remaining (attempt + 1) le
                                     (afterDelay gd attempt base (afterFetch request w))))
               = later ++ EvFetch (now w) request :: trace w).
  { intros gd le.
    destruct (adds_retryLoop (fun _ => True) request maxAttempts base remaining
                             ltac:(intros e _; exact I) (attempt + 1) le
                             (afterDelay gd attempt base (afterFetch request w)))
      as (later & Hlater & _).
    rewrite Hlater.
    exists (later ++ [EvTimer (retryDelay gd attempt base (afterFetch request w))]).
    rewrite <- app_assoc. destruct gd; reflexivity. }
  rewrite retryLoop_step. cbv zeta.
  destruct (network w (fetchCount w)) as [error | status errorText | data].
  - destruct (_ && _); [apply Hretry | apply Hstop].
  - destruct (_ && _); [apply Hretry|].
    destruct (_ && _); [apply Hretry | apply Hstop].
  - apply Hstop.
Qed.

Lemma timerMs_whole (k : Z) : 1 <= k -> timerMs (JS.Fin (inject_Z k)) = k.
Proof. intros Hk. unfold timerMs. rewrite Qfloor_Z. lia. Qed.


End RateLimitFacts.



(** ** The session driver *)

Section SessionFacts.

Context `{!Builtins, !Collaborators}.

(** Events of the Gemini agent's own run: anything but a hand-over to the
    fallback agent. *)
Definition ownEvent (e : Event) : Prop :=
  match e with
  | EvFallback _ => False
  | _ => True
  end.

Lemma ownEvent_network : passesNetwork ownEvent.
Proof. intros [] Hn; try exact I; destruct Hn. Qed.

Ltac adds_own :=
  repeat first
         [ apply adds_ret | apply adds_throw | apply adds_get | apply adds_readSession
         | apply adds_updateSession | apply adds_call
         | apply adds_emit; exact I
         | apply adds_queryGeminiMultiTurn; exact ownEvent_network
         | apply adds_bind; [|intros]
         | match goal with
           | |- adds _ (if ?b then _ else _) => destruct b
           | |- adds _ (match ?x with _ => _ end) => destruct x
           end ].

Lemma adds_recordReply (session : SessionRef) (response : QueryResult) :
  adds ownEvent (recordReply session response).
Proof. unfold recordReply. adds_own. Qed.

Lemma adds_initTurn (session : SessionRef) (cfg : GeminiConfig) (mode : Mode) :
  adds ownEvent (initTurn session cfg mode).
Proof. unfold initTurn. adds_own; apply adds_recordReply. Qed.

Lemma adds_processMessage (session : SessionRef) (cfg : GeminiConfig) (mode : Mode)
      (message : PendingMessage) (lastCwd : option string) :
  adds ownEvent (processMessage session cfg mode message lastCwd).
Proof. unfold processMessage. adds_own; apply adds_recordReply. Qed.

Lemma adds_processMessages (session : SessionRef) (cfg : GeminiConfig) (mode : Mode)
      (messages : list PendingMessage) :
  forall lastCwd, adds ownEvent (processMessages session cfg mode messages lastCwd).
Proof.
  induction messages as [|message rest IH]; intros lastCwd; cbn [processMessages].
  - apply adds_ret.
  - apply adds_bind; [apply adds_emit; exact I | intros _].
    apply adds_bind; [apply adds_processMessage | intros _]. apply IH.
Qed.

Lemma adds_processPending (session : SessionRef) (cfg : GeminiConfig) (mode : Mode) :
  adds ownEvent (processPending session cfg mode).
Proof.
  unfold processPending.
  apply adds_bind; [apply adds_readSession | intros s].
  apply adds_bind; [apply adds_call | intros [messages ending]].
  apply adds_bind; [apply adds_processMessages | intros _].
  destruct ending; [apply adds_throw | apply adds_ret].
Qed.

Lemma adds_runSession (session : SessionRef) : adds ownEvent (runSession session).
Proof.
  unfold runSession, getGeminiConfig.
  apply adds_bind; [adds_own | intros cfg].
  destruct (negb _); [apply adds_throw|].
  apply adds_bind; [apply adds_get | intros w].
  apply adds_bind; [apply adds_initTurn | intros _; apply adds_processPending].
Qed.

(** What [getGeminiConfig] returns in a world. *)
Definition configOf (w : World) : GeminiConfig :=
  let st := settings w in
  {| apiKey := if nonEmpty (CLAUDE_MEM_GEMINI_API_KEY st)
               then CLAUDE_MEM_GEMINI_API_KEY st else GEMINI_API_KEY w;
     model := if existsb (String.eqb (if nonEmpty (CLAUDE_MEM_GEMINI_MODEL st)
                                      then CLAUDE_MEM_GEMINI_MODEL st else defaultModel))
                         validModels
              then (if nonEmpty (CLAUDE_MEM_GEMINI_MODEL st)
                    then CLAUDE_MEM_GEMINI_MODEL st else defaultModel)
              else defaultModel;
     rateLimitingEnabled :=
       negb (String.eqb (CLAUDE_MEM_GEMINI_RATE_LIMITING_ENABLED st) "false") |}.

Definition modeOf (w : World) : Mode := getActiveMode (external w).

Lemma runSession_run (session : SessionRef) (w : World) :
  runSession session w
  = if nonEmpty (apiKey (configOf w))
    then (initTurn session (configOf w) (modeOf w);;
          processPending session (configOf w) (modeOf w)) w
    else (Throw MISSING_API_KEY, w).
Proof.
  unfold runSession. rewrite bind_run.
  change (getGeminiConfig w) with (Ok (configOf w), w). cbv iota beta.
  destruct (nonEmpty (apiKey (configOf w))); reflexivity.
Qed.

(** C3. Whatever the fallback configuration, when the [try] block of
    [startSession] throws an error that [isAbortError] recognises,
    [startSession] throws that same error from the world the block left
    behind, and no hand-over to a fallback agent has taken place: the trace
    holds no [EvFallback] event of this run, and the outcome does not depend
    on the agent's fallback. *)
Theorem startSession_rethrows_abort
        (this : GeminiAgent) (session : SessionRef) (w w' : World) (error : Thrown) :
  runSession session w = (Throw error, w') ->
  isAbortError error = true ->
  startSession this session w = (Throw error, w')
  /\ (exists later, trace w' = later ++ trace w /\ Forall ownEvent later)
  /\ (forall other : GeminiAgent,
         startSession other session w = startSession this session w).
Proof.
  intros Hrun Habort.
  assert (Hany : forall agent, startSession agent session w = (Throw error, w')).
  { intros agent. unfold startSession, tryCatch. rewrite Hrun.
    unfold onError. rewrite Habort. reflexivity. }
  split; [apply Hany|]. split.
  - destruct (adds_runSession session w) as (later & Hlater & Hown).
    rewrite Hrun in Hlater. exists later. auto.
  - intros other. rewrite !Hany. reflexivity.
Qed.

(** The prompt of the init turn and the world after it is pushed. *)
Definition initPromptOf (mode : Mode) (s : ActiveSession) : string :=
  if lastPromptNumber s =? 1
  then buildInitPrompt (project s) (contentSessionId s) (userPrompt s) mode
  else buildContinuationPrompt (userPrompt s) (lastPromptNumber s)
                               (contentSessionId s) mode.

Definition afterInitPush (session : SessionRef) (mode : Mode) (w : World) : World :=
  setSession session
             (pushMessage (userTurn (initPromptOf mode (sessions w session)))
                          (sessions w session)) w.

(** The init query of a run started in [w]. *)
Definition initQuery (session : SessionRef) (w : World) : Result QueryResult * World :=
  let w1 := afterInitPush session (modeOf w) w in
  queryGeminiMultiTurn (conversationHistory (sessions w1 session))
                       (apiKey (configOf w)) (model (configOf w))
                       (rateLimitingEnabled (configOf w)) w1.

(** What follows the init query once it has returned [initResponse]. *)
Definition afterInitQuery (session : SessionRef) (initResponse : QueryResult) : M unit :=
  emit (EvEnsureMemorySessionId session);;
  call (ensureMemorySessionId session "gemini");;
  if nonEmpty (qr_content initResponse) then
    used ← recordReply session initResponse;
    emit (EvProcessAgentResponse session (qr_content initResponse));;
    call (processAgentResponse (qr_content initResponse) session used None None)
  else
    updateSession session (pushMessage (assistantTurn "<acknowledged>")).

Lemma initTurn_run (session : SessionRef) (w : World) :
  initTurn session (configOf w) (modeOf w) w
  = match initQuery session w with
    | (Ok initResponse, w2) => afterInitQuery session initResponse w2
    | (Throw e, w2) => (Throw e, w2)
    end.
Proof.
  unfold initTurn, initQuery, afterInitQuery.
  rewrite bind_run. unfold readSession at 1. cbv iota beta zeta.
  rewrite bind_run. unfold updateSession at 1, modify at 1. cbv iota beta.
  rewrite bind_run. unfold readSession at 1. cbv iota beta.
  rewrite bind_run. reflexivity.
Qed.

Lemma sessions_setSession (r : SessionRef) (s : ActiveSession) (w : World) :
  sessions (setSession r s w) r = s.
Proof. simpl. rewrite Nat.eqb_refl. reflexivity. Qed.

Lemma runSession_after_init (session : SessionRef) (w w1 : World) :
  nonEmpty (apiKey (configOf w)) = true ->
  initTurn session (configOf w) (modeOf w) w = (Ok tt, w1) ->
  runSession session w = processPending session (configOf w) (modeOf w) w1.
Proof.
  intros Hkey Hinit. rewrite runSession_run, Hkey, bind_run, Hinit. reflexivity.
Qed.

Lemma runSession_init_throws (session : SessionRef) (w w1 : World) (e : Thrown) :
  nonEmpty (apiKey (configOf w)) = true ->
  initTurn session (configOf w) (modeOf w) w = (Throw e, w1) ->
  runSession session w = (Throw e, w1).
Proof.
  intros Hkey Hinit. rewrite runSession_run, Hkey, bind_run, Hinit. reflexivity.
Qed.

(** *** Parsing a response *)

Lemma join_cons (x : string) (xs : list string) : join (x :: xs) = x +:+ join xs.
Proof. reflexivity. Qed.

Lemma textOf_no_text (p : Part) : hasText p = false -> textOf p = EmptyString.
Proof.
  unfold hasText, textOf. destruct (text p) as [[|c t]|]; [reflexivity | discriminate | reflexivity].
Qed.

Lemma join_skips_empty (ps : list Part) :
  join (map textOf (List.filter (fun p => negb (isThought p) && hasText p) ps))
  = join (map textOf (List.filter (fun p => negb (isThought p)) ps)).
Proof.
  induction ps as [|p ps IH]; [reflexivity|].
  cbn [List.filter]. destruct (isThought p); cbn [negb andb]; [exact IH|].
  destruct (hasText p) eqn:Ht; cbn [map]; rewrite !join_cons, IH; [reflexivity|].
  rewrite (textOf_no_text p Ht). reflexivity.
Qed.

Lemma length_zero_empty (s : string) : (0 <? String.length s)%nat = false -> s = EmptyString.
Proof. destruct s; [reflexivity | discriminate]. Qed.


(** *** Assignment of the memory session id *)

Lemma queryGeminiMultiTurn_frame (history : list ConversationMessage)
      (apiKey model : string) (enabled : bool) (w : World) :
  let w' := snd (queryGeminiMultiTurn history apiKey model enabled w) in
  sessions w' = sessions w /\ external w' = external w
  /\ settings w' = settings w /\ network w' = network w.
Proof.
  cbv zeta. rewrite queryGeminiMultiTurn_run.
  set (w0 := if enabled then afterEnforce model w else w).
  assert (Hw0 : sessions w0 = sessions w /\ external w0 = external w
               /\ settings w0 = settings w /\ network w0 = network w).
  { unfold w0. destruct enabled; [|auto].
    pose proof (afterEnforce_frame model w). tauto. }
  destruct (Z_le_gt_dec 0 (maxAttemptsOf (settings w))) as [Hpos | Hneg].
  - pose proof (retryLoop_requests (requestFor (settings w) history apiKey model)
                  (maxAttemptsOf (settings w)) (baseDelayMsOf (settings w))
                  (Z.to_nat (maxAttemptsOf (settings w))) 0 None w0 ltac:(lia))
      as (Hq & _).
    unfold quiet in Hq. intuition congruence.
  - replace (Z.to_nat (maxAttemptsOf (settings w))) with O by lia. exact Hw0.
Qed.

Lemma recordReply_keeps_memory (session : SessionRef) (response : QueryResult) (w : World) :
  exists used w',
    recordReply session response w = (Ok used, w')
    /\ memorySessionId (sessions w' session) = memorySessionId (sessions w session).
Proof.
  unfold recordReply. destruct (nonEmpty (qr_content response)).
  - eexists _, _. split; [reflexivity|]. simpl. rewrite !Nat.eqb_refl. reflexivity.
  - eexists _, _. split; reflexivity.
Qed.

(** C8. In a run of the [try] block with an API key configured: if the init
    query throws, the block throws that error, the session's
    [memorySessionId] is what it was and only requests and timers have been
    traced, so [ensureMemorySessionId] has not run.  If the init query
    returns, with or without content, [ensureMemorySessionId] is invoked next:
    in the final trace only requests and timers lie before its event, so every
    queued message comes after it.  And when the session manager's
    [ensureMemorySessionId] leaves an id on the session and the response
    processor keeps it, every run that reaches the message loop enters it with
    a [memorySessionId]. *)
Theorem memorySessionId_assigned_before_messages (session : SessionRef) (w : World) :
  nonEmpty (apiKey (configOf w)) = true ->
  (forall r provider st st',
      ensureMemorySessionId r provider st = (Ok tt, st') ->
      is_Some (memorySessionId (fst st' r))) ->
  (forall text r used ts dir st st',
      processAgentResponse text r used ts dir st = (Ok tt, st') ->
      is_Some (memorySessionId (fst st r)) ->
      is_Some (memorySessionId (fst st' r))) ->
  match initQuery session w with
  | (Throw error, w2) =>
      runSession session w = (Throw error, w2)
      /\ memorySessionId (sessions w2 session) = memorySessionId (sessions w session)
      /\ exists later, trace w2 = later ++ trace w /\ Forall networkEvent later
  | (Ok initResponse, w2) =>
      (exists later earlier,
          trace (snd (runSession session w))
          = later ++ EvEnsureMemorySessionId session :: earlier ++ trace w
          /\ Forall networkEvent earlier)
      /\ (forall w3,
             initTurn session (configOf w) (modeOf w) w = (Ok tt, w3) ->
             is_Some (memorySessionId (sessions w3 session))
             /\ runSession session w = processPending session (configOf w) (modeOf w) w3)
      /\ (forall error w3,
             initTurn session (configOf w) (modeOf w) w = (Throw error, w3) ->
             runSession session w = (Throw error, w3))
  end.
Proof.
  intros Hkey Hensure Hkeep.
  pose proof (adds_queryGeminiMultiTurn networkEvent
                (conversationHistory (sessions (afterInitPush session (modeOf w) w) session))
                (apiKey (configOf w)) (model (configOf w))
                (rateLimitingEnabled (configOf w)) ltac:(intros e He; exact He)
                (afterInitPush session (modeOf w) w)) as (earlier & Hearlier & Hnet).
  pose proof (queryGeminiMultiTurn_frame
                (conversationHistory (sessions (afterInitPush session (modeOf w) w) session))
                (apiKey (configOf w)) (model (configOf w))
                (rateLimitingEnabled (configOf w))
                (afterInitPush session (modeOf w) w)) as (Hsess & _).
  fold (initQuery session w) in Hearlier, Hsess.
  pose proof (initTurn_run session w) as Hinit.
  destruct (initQuery session w) as [[initResponse | error] w2] eqn:Hquery;
    simpl in Hearlier, Hsess.
  - (* the init query returned *)
    split; [|split].
    + rewrite runSession_run, Hkey, bind_run, Hinit.
      assert (Hrest : adds (fun _ => True)
                           (call (ensureMemorySessionId session "gemini");;
                            (if nonEmpty (qr_content initResponse) then
                               used ← recordReply session initResponse;
                               emit (EvProcessAgentResponse session (qr_content initResponse));;
                               call (processAgentResponse (qr_content initResponse)
                                                          session used None None)
                             else
                               updateSession session
                                 (pushMessage (assistantTurn "<acknowledged>"))))).
      { apply adds_bind; [apply adds_call | intros _].
        destruct (nonEmpty (qr_content initResponse)) eqn:Hcontent;
          [|apply adds_updateSession].
        apply adds_bind; [|intros used].
        - unfold recordReply. rewrite Hcontent.
          apply adds_bind; [apply adds_updateSession | intros _].
          apply adds_bind; [apply adds_updateSession | intros _; apply adds_ret].
        - apply adds_bind; [apply adds_emit; exact I | intros _; apply adds_call]. }
      unfold afterInitQuery. rewrite bind_run. unfold emit at 1, modify at 1.
      cbv iota beta.
      destruct (Hrest (record (EvEnsureMemorySessionId session) w2)) as (l1 & Hl1 & _).
      match type of Hl1 with
      | trace (snd ?run) = _ => destruct run as [[[]| e] w3] eqn:Hrun
      end; simpl in Hl1.
      * destruct (adds_processPending session (configOf w) (modeOf w) w3)
          as (l2 & Hl2 & _).
        exists (l2 ++ l1), earlier. rewrite Hl2, Hl1. simpl. rewrite Hearlier.
        rewrite <- app_assoc. split; [reflexivity | exact Hnet].
      * exists l1, earlier. simpl. rewrite Hl1. simpl. rewrite Hearlier.
        split; [reflexivity | exact Hnet].
    + intros w3 Hok. split; [|apply runSession_after_init; assumption].
      rewrite Hinit in Hok. unfold afterInitQuery in Hok.
      rewrite bind_run in Hok. unfold emit at 1, modify at 1 in Hok.
      cbv iota beta in Hok. rewrite bind_run in Hok.
      unfold call at 1 in Hok.
      destruct (ensureMemorySessionId session "gemini"
                  (sessions (record (EvEnsureMemorySessionId session) w2),
                   external (record (EvEnsureMemorySessionId session) w2)))
        as [[[]| e] [h x]] eqn:Hcall; [|discriminate].
      pose proof (Hensure _ _ _ _ Hcall) as Hid. simpl in Hid.
      destruct (nonEmpty (qr_content initResponse)).
      * rewrite bind_run in Hok.
        destruct (recordReply_keeps_memory session initResponse
                    (setObjects h x (record (EvEnsureMemorySessionId session) w2)))
          as (used & w4 & Hreply & Hmem).
        rewrite Hreply in Hok. rewrite bind_run in Hok.
        unfold emit at 1, modify at 1 in Hok. cbv iota beta in Hok.
        unfold call in Hok.
        destruct (processAgentResponse _ _ _ _ _ _) as [[[]| e] [h' x']] eqn:Hproc;
          [|discriminate].
        injection Hok as <-. simpl.
        apply (Hkeep _ _ _ _ _ _ _ Hproc). simpl. rewrite Hmem. exact Hid.
      * unfold updateSession, modify in Hok. injection Hok as <-.
        rewrite sessions_setSession. simpl. exact Hid.
    + intros error w3 Hthrow. apply runSession_init_throws; assumption.
  - (* the init query threw *)
    split; [|split].
    + apply runSession_init_throws; [exact Hkey | exact Hinit].
    + rewrite Hsess. simpl. rewrite Nat.eqb_refl. reflexivity.
    + exists earlier. split; [exact Hearlier | exact Hnet].
Qed.

(** *** Fallback *)

(** When every attempt is answered with a 429, the loop uses up its
    attempts and throws the error of the last one. *)
Lemma retryLoop_exhausts (request : Request) (maxAttempts base : Z) (remaining : nat) :
  forall (attempt : Z) (lastError : option Thrown) (w : World),
  attempt + Z.of_nat (S remaining) = maxAttempts ->
  (forall k, (k <= remaining)%nat ->
             exists errorText, network w (fetchCount w + k)%nat = HttpError 429 errorText) ->
  exists errorText w',
    retryLoop request maxAttempts base (S remaining) attempt lastError w
    = (Throw (apiError 429 errorText), w')
    /\ network w (fetchCount w + remaining)%nat = HttpError 429 errorText
    /\ fetchCount w' = (fetchCount w + S remaining)%nat
    /\ quiet w w'.
Proof.
  induction remaining as [|n IH]; intros attempt lastError w Hsum Hall;
    rewrite retryLoop_step; cbv zeta;
    destruct (Hall O ltac:(lia)) as (text0 & Hout0);
    rewrite Nat.add_0_r in Hout0; rewrite Hout0.
  - replace (attempt <? maxAttempts - 1) with false by (symmetry; apply Z.ltb_ge; lia).
    rewrite !andb_false_r.
    exists text0, (afterFetch request w).
    rewrite Nat.add_0_r. split; [reflexivity|]. split; [exact Hout0|].
    split; [rewrite fetchCount_afterFetch; lia | apply quiet_afterFetch].
  - replace (attempt <? maxAttempts - 1) with true by (symmetry; apply Z.ltb_lt; lia).
    rewrite Z.eqb_refl. cbn [andb].
    set (w2 := afterDelay (Retry.extractGeminiRetryDelay text0) attempt base
                          (afterFetch request w)).
    assert (Hq2 : quiet w w2).
    { eapply quiet_trans; [apply quiet_afterFetch | apply quiet_afterDelay]. }
    assert (Hc2 : fetchCount w2 = S (fetchCount w)).
    { unfold w2. rewrite fetchCount_afterDelay. reflexivity. }
    assert (Hnet : network w2 = network w) by apply Hq2.
    destruct (IH (attempt + 1) lastError w2 ltac:(lia)) as (text & w' & Hrun & Hlast & Hc & Hq).
    { intros k Hk. rewrite Hnet, Hc2.
      replace (S (fetchCount w) + k)%nat with (fetchCount w + S k)%nat by lia.
      apply Hall. lia. }
    exists text, w'. split; [exact Hrun|]. split.
    + rewrite Hnet, Hc2 in Hlast.
      replace (fetchCount w + S n)%nat with (S (fetchCount w) + n)%nat by lia.
      exact Hlast.
    + split; [lia | eapply quiet_trans; eassumption].
Qed.

Lemma runSession_exhausts (session : SessionRef) (w : World) :
  nonEmpty (apiKey (configOf w)) = true ->
  0 < maxAttemptsOf (settings w) ->
  (forall k, (k < Z.to_nat (maxAttemptsOf (settings w)))%nat ->
             exists errorText, network w (fetchCount w + k)%nat = HttpError 429 errorText) ->
  exists errorText w',
    runSession session w = (Throw (apiError 429 errorText), w')
    /\ fetchCount w' = (fetchCount w + Z.to_nat (maxAttemptsOf (settings w)))%nat
    /\ sessions w' = sessions (afterInitPush session (modeOf w) w)
    /\ settings w' = settings w.
Proof.
  intros Hkey Hmax Hall.
  set (w1 := afterInitPush session (modeOf w) w).
  pose proof (initTurn_run session w) as Hinit.
  unfold initQuery in Hinit. fold w1 in Hinit.
  rewrite queryGeminiMultiTurn_run in Hinit.
  change (settings w1) with (settings w) in Hinit.
  set (w0 := if rateLimitingEnabled (configOf w)
             then afterEnforce (model (configOf w)) w1 else w1) in Hinit.
  assert (Hw0 : fetchCount w0 = fetchCount w /\ network w0 = network w
                /\ sessions w0 = sessions w1 /\ settings w0 = settings w).
  { unfold w0. destruct (rateLimitingEnabled (configOf w)).
    - pose proof (afterEnforce_frame (model (configOf w)) w1) as (? & ? & ? & ? & ?).
      repeat split; assumption.
    - repeat split. }
  destruct Hw0 as (Hc0 & Hn0 & Hs0 & Hst0).
  destruct (Z.to_nat (maxAttemptsOf (settings w))) as [|n] eqn:Hn; [lia|].
  destruct (retryLoop_exhausts
              (requestFor (settings w)
                          (conversationHistory (sessions w1 session))
                          (apiKey (configOf w)) (model (configOf w)))
              (maxAttemptsOf (settings w)) (baseDelayMsOf (settings w)) n 0 None w0)
    as (text & w' & Hrun & _ & Hc & Hq).
  { lia. }
  { intros k Hk. rewrite Hn0, Hc0. apply Hall. lia. }
  rewrite Hrun in Hinit.
  exists text, w'. split; [apply runSession_init_throws; assumption|].
  destruct Hq as (Hs & Hst & _).
  split; [lia|]. split; congruence.
Qed.

(** C2. With a fallback agent set: whenever the [try] block of
    [startSession] throws an error that is not an abort and that
    [shouldFallbackToClaude] accepts under the current setting,
    [startSession] is the fallback agent's [startSession] on the same session
    reference, started in the world the block left behind, the session objects
    untouched in between.  In particular, with an API key configured and
    every one of the [maxAttempts] (5 when the setting does not parse)
    attempts of the init query answered with a 429, the block throws that 429
    after exactly [maxAttempts] requests, and the fallback agent is handed the
    session with its history as accumulated: the history before the run
    followed by the init prompt. *)
Theorem startSession_falls_back_with_same_session
        (this : GeminiAgent) (agent : FallbackAgent) (session : SessionRef) (w : World) :
  fallbackAgent this = Some agent ->
  (forall (error : Thrown) (w' : World),
      runSession session w = (Throw error, w') ->
      isAbortError error = false ->
      shouldFallbackToClaude error (disableFallback w') = true ->
      startSession this session w
      = fa_startSession agent session (record (EvFallback session) w')
      /\ sessions (record (EvFallback session) w') = sessions w')
  /\ (nonEmpty (apiKey (configOf w)) = true ->
      0 < maxAttemptsOf (settings w) ->
      (forall k, (k < Z.to_nat (maxAttemptsOf (settings w)))%nat ->
                 exists errorText,
                   network w (fetchCount w + k)%nat = HttpError 429 errorText) ->
      exists errorText w',
        runSession session w = (Throw (apiError 429 errorText), w')
        /\ fetchCount w' = (fetchCount w + Z.to_nat (maxAttemptsOf (settings w)))%nat
        /\ conversationHistory (sessions w' session)
           = conversationHistory (sessions w session)
             ++ [ userTurn (initPromptOf (modeOf w) (sessions w session)) ]
        /\ (isAbortError (apiError 429 errorText) = false ->
            shouldFallbackToClaude (apiError 429 errorText) (disableFallback w) = true ->
            startSession this session w
            = fa_startSession agent session (record (EvFallback session) w')))
  /\ (JS.parseInt (CLAUDE_MEM_GEMINI_RETRY_MAX_ATTEMPTS (settings w)) = None ->
      maxAttemptsOf (settings w) = 5).
Proof.
  intros Hagent.
  assert (Hgeneral : forall error w',
             runSession session w = (Throw error, w') ->
             isAbortError error = false ->
             shouldFallbackToClaude error (disableFallback w') = true ->
             startSession this session w
             = fa_startSession agent session (record (EvFallback session) w')).
  { intros error w' Hrun Habort Hfall.
    unfold startSession, tryCatch. rewrite Hrun. unfold onError.
    rewrite Habort, bind_run. unfold get at 1. cbv iota beta.
    rewrite Hfall, Hagent. reflexivity. }
  split; [|split].
  - intros error w' Hrun Habort Hfall. split; [apply (Hgeneral error w'); assumption | reflexivity].
  - intros Hkey Hmax Hall.
    destruct (runSession_exhausts session w Hkey Hmax Hall)
      as (text & w' & Hrun & Hc & Hs & Hst).
    exists text, w'. split; [exact Hrun|]. split; [exact Hc|]. split.
    + rewrite Hs. unfold afterInitPush. rewrite sessions_setSession. reflexivity.
    + intros Habort Hfall. apply (Hgeneral _ _ Hrun Habort).
      unfold disableFallback in *. rewrite Hst. exact Hfall.
  - intros Hp. unfold maxAttemptsOf, JS.parseIntOr. rewrite Hp. reflexivity.
Qed.

End SessionFacts.

(** ** Project filter *)

Section ProjectFilterFacts.

Import WorkerUtils.

Lemma includes_In (name : string) (l : list string) :
  includes name l = true <-> In name l.
Proof.
  unfold includes. rewrite existsb_exists. split.
  - intros (x & Hin & Heq). apply String.eqb_eq in Heq. subst. exact Hin.
  - intros Hin. exists name. split; [exact Hin | apply String.eqb_refl].
Qed.

Lemma some_included (names l : list string) :
  existsb (fun name => includes name l) names = true
  <-> exists name, In name names /\ In name l.
Proof.
  rewrite existsb_exists. split; intros (name & Hin & Hl); exists name;
    (split; [exact Hin | apply includes_In; exact Hl]).
Qed.

Lemma nonempty_length (l : list string) : (0 <? length l)%nat = true <-> l <> [].
Proof.
  destruct l; simpl; split; intros Hl; try discriminate; try reflexivity.
  exfalso. apply Hl. reflexivity.
Qed.

(** C9. With [allowedOnly] and [ignored] the lists the two getters return:
    when the whitelist is not empty the projects are ignored exactly when none
    of their names is in the whitelist, whatever the blacklist holds; when the
    whitelist is empty and the blacklist is not, exactly when one of their
    names is in the blacklist; when both are empty, never. *)
Theorem isProjectIgnored_whitelist_over_blacklist
        (projectNames : list string) (st : Settings) (c : Cache) :
  let allowedOnly := fst (getAllowedProjectsOnly st c) in
  let ignored := fst (getIgnoredProjects st c) in
  let result := fst (isProjectIgnored projectNames st c) in
  (allowedOnly <> [] ->
   (result = true <-> forall name, In name projectNames -> ~ In name allowedOnly))
  /\ (allowedOnly = [] -> ignored <> [] ->
      (result = true <-> exists name, In name projectNames /\ In name ignored))
  /\ (allowedOnly = [] -> ignored = [] -> result = false).
Proof.
  cbv zeta. unfold isProjectIgnored.
  destruct (getAllowedProjectsOnly st c) as [allowedOnly c1] eqn:Hallowed.
  assert (Hsame : fst (getIgnoredProjects st c1) = fst (getIgnoredProjects st c)).
  { unfold getAllowedProjectsOnly in Hallowed. unfold getIgnoredProjects.
    destruct (cachedAllowedProjectsOnly c); injection Hallowed as _ <-;
      simpl; destruct (cachedIgnoredProjects c); reflexivity. }
  destruct (getIgnoredProjects st c1) as [ignored c2]. simpl in Hsame. subst ignored.
  simpl fst.
  destruct (0 <? length allowedOnly)%nat eqn:Hwhite.
  - apply nonempty_length in Hwhite. simpl.
    split; [|split; intros; congruence].
    intros _. rewrite negb_true_iff, <- not_true_iff_false, some_included.
    split.
    + intros Hnone name Hin Hal. apply Hnone. exists name. auto.
    + intros Hall (name & Hin & Hal). exact (Hall name Hin Hal).
  - assert (Hempty : allowedOnly = []).
    { destruct allowedOnly; [reflexivity | discriminate]. }
    destruct (0 <? length (getIgnoredProjects st c).1)%nat eqn:Hblack; simpl.
    + apply nonempty_length in Hblack.
      split; [intros; congruence|]. split; [|intros; congruence].
      intros _ _. apply some_included.
    + assert (Hnone : (getIgnoredProjects st c).1 = []).
      { destruct (getIgnoredProjects st c).1; [reflexivity | discriminate]. }
      split; [intros; congruence|]. split; [intros; congruence | reflexivity].
Qed.

End ProjectFilterFacts.

Definition whitelistSettings : Settings :=
{| CLAUDE_MEM_GEMINI_API_KEY := "";
   CLAUDE_MEM_GEMINI_MODEL := "";
   CLAUDE_MEM_GEMINI_RATE_LIMITING_ENABLED := "true";
   CLAUDE_MEM_GEMINI_MAX_CONTEXT_MESSAGES := "20";
   CLAUDE_MEM_GEMINI_MAX_TOKENS := "100000";
   CLAUDE_MEM_GEMINI_RETRY_MAX_ATTEMPTS := "5";
   CLAUDE_MEM_GEMINI_RETRY_BASE_DELAY_MS := "5000";
   CLAUDE_MEM_DISABLE_CLAUDE_FALLBACK := "true";
   CLAUDE_MEM_ALLOWED_PROJECTS_ONLY := "alpha, beta ,,";
   CLAUDE_MEM_IGNORED_PROJECTS := "beta,gamma" |}.

Definition emptyCache : WorkerUtils.Cache :=
{| WorkerUtils.cachedAllowedProjectsOnly := None;
   WorkerUtils.cachedIgnoredProjects := None |}.

Example projectList_trims_and_drops_empty :
  WorkerUtils.projectList "alpha, beta ,," = [ "alpha"; "beta" ].
Proof. vm_compute. reflexivity. Qed.

Example whitelisted_project_in_blacklist_is_kept :
  fst (WorkerUtils.isProjectIgnored [ "beta" ] whitelistSettings emptyCache) = false.
Proof. vm_compute. reflexivity. Qed.

Example project_outside_whitelist_is_ignored :
  fst (WorkerUtils.isProjectIgnored [ "delta"; "gamma" ] whitelistSettings emptyCache) = true.
Proof. vm_compute. reflexivity. Qed.

Lemma isProjectIgnored_whitelist_over_blacklist_witness :
  fst (WorkerUtils.isProjectIgnored [ "delta" ] whitelistSettings emptyCache) = true.
Proof.
  destruct (isProjectIgnored_whitelist_over_blacklist [ "delta" ] whitelistSettings emptyCache)
    as (Hwhite & _).
  apply Hwhite.
  - vm_compute. discriminate.
  - vm_compute. intros name [<- | []] [H | [H | []]]; discriminate.
Defined.

(** ** Spawn lock *)

Section SpawnLockFacts.

Import SpawnLock.


End SpawnLockFacts.

(** A host where process 41 holds a lock taken 2 seconds ago. *)
Definition heldHost : SpawnLock.Host :=
{| SpawnLock.lockFile :=
     Some (SpawnLock.Lock {| SpawnLock.pid := 41; SpawnLock.timestamp := 98000 |});
   SpawnLock.clock := 100000;
   SpawnLock.ownPid := 42;
   SpawnLock.running := fun p => p =? 41;
   SpawnLock.meanwhile := fun f => f |}.

(** The same lock file after process 41 has died. *)
Definition orphanedHost : SpawnLock.Host :=
{| SpawnLock.lockFile :=
     Some (SpawnLock.Lock {| SpawnLock.pid := 41; SpawnLock.timestamp := 98000 |});
   SpawnLock.clock := 100000;
   SpawnLock.ownPid := 42;
   SpawnLock.running := fun _ => false;
   SpawnLock.meanwhile := fun f => f |}.

(** A stale lock is removed, but another process creates its lock first. *)
Definition racedHost : SpawnLock.Host :=
{| SpawnLock.lockFile :=
     Some (SpawnLock.Lock {| SpawnLock.pid := 41; SpawnLock.timestamp := 98000 |});
   SpawnLock.clock := 100000;
   SpawnLock.ownPid := 42;
   SpawnLock.running := fun _ => false;
   SpawnLock.meanwhile := fun _ =>
     Some (SpawnLock.Lock {| SpawnLock.pid := 43; SpawnLock.timestamp := 100000 |}) |}.

Example acquire_takes_orphaned_lock :
  fst (SpawnLock.acquireSpawnLock orphanedHost) = true
  /\ SpawnLock.lockFile (snd (SpawnLock.acquireSpawnLock orphanedHost))
     = Some (SpawnLock.Lock {| SpawnLock.pid := 42; SpawnLock.timestamp := 100000 |}).
Proof. vm_compute. split; reflexivity. Qed.

Example acquire_loses_race :
  fst (SpawnLock.acquireSpawnLock racedHost) = false
  /\ SpawnLock.lockFile (snd (SpawnLock.acquireSpawnLock racedHost))
     = Some (SpawnLock.Lock {| SpawnLock.pid := 43; SpawnLock.timestamp := 100000 |}).
Proof. vm_compute. split; reflexivity. Qed.

Example release_leaves_foreign_lock :
  SpawnLock.releaseSpawnLock heldHost = heldHost.
Proof. reflexivity. Qed.


(** ** The theorems at work on the concrete configuration *)

Example retry_delay_whole_seconds :
  Retry.scanDetails [ JObject [ ("@type", JString Retry.RETRY_INFO);
                                ("retryDelay", JString "32s") ] ]
  = Some (JS.Fin (inject_Z 33000)).
Proof. vm_compute. reflexivity. Qed.

Example retry_delay_not_a_literal :
  Retry.scanDetails [ JObject [ ("@type", JString Retry.RETRY_INFO);
                                ("retryDelay", JString ".s") ] ]
  = Some JS.NaN.
Proof. vm_compute. reflexivity. Qed.

Example retry_delay_null_detail :
  Retry.scanDetails [ JNull;
                      JObject [ ("@type", JString Retry.RETRY_INFO);
                                ("retryDelay", JString "32s") ] ]
  = None.
Proof. vm_compute. reflexivity. Qed.


(** A fallback agent that answers with one assistant turn. *)
Definition demoFallback : FallbackAgent :=
{| fa_startSession := fun r => updateSession r (pushMessage (assistantTurn "<claude/>")) |}.

Definition demoAgent : GeminiAgent :=
setFallbackAgent demoFallback {| fallbackAgent := None |}.

Definition abortError : Thrown := ErrorObject "AbortError" "The operation was aborted".

Definition thinkingOnly : GeminiResponse :=
{| candidates :=
     Some [ {| parts := Some [ {| text := Some "setting up"; thought := Some true |} ];
               finishReason := Some "STOP" |} ];
   totalTokenCount := Some 40 |}.

Example fallback_continues_the_history :
  conversationHistory
    (sessions (snd (startSession demoAgent 0%nat (demoWorld smallWindowSettings [] busy)))
              0%nat)
  = [ userTurn "init: fix the bug"; assistantTurn "<claude/>" ].
Proof. vm_compute. reflexivity. Qed.

Example abort_is_not_handed_over :
  let run := startSession demoAgent 0%nat
                          (demoWorld smallWindowSettings [] (Rejects abortError)) in
  fst run = Throw abortError
  /\ conversationHistory (sessions (snd run) 0%nat) = [ userTurn "init: fix the bug" ].
Proof. vm_compute. split; reflexivity. Qed.

Lemma startSession_falls_back_with_same_session_witness :
  let w := demoWorld smallWindowSettings [] busy in
  startSession demoAgent 0%nat w
  = fa_startSession demoFallback 0%nat
                    (record (EvFallback 0%nat) (snd (runSession 0%nat w))).
Proof.
  destruct (startSession_falls_back_with_same_session
              demoAgent demoFallback 0%nat (demoWorld smallWindowSettings [] busy) eq_refl)
    as (Hgeneral & _).
  destruct (Hgeneral (apiError 429 "busy")
                     (snd (runSession 0%nat (demoWorld smallWindowSettings [] busy))))
    as [Hrun _].
  - vm_compute. reflexivity.
  - reflexivity.
  - vm_compute. reflexivity.
  - exact Hrun.
Defined.

Lemma startSession_rethrows_abort_witness :
  let w := demoWorld smallWindowSettings [] (Rejects abortError) in
  startSession demoAgent 0%nat w = (Throw abortError, snd (runSession 0%nat w)).
Proof.
  destruct (startSession_rethrows_abort
              demoAgent 0%nat (demoWorld smallWindowSettings [] (Rejects abortError))
              (snd (runSession 0%nat (demoWorld smallWindowSettings [] (Rejects abortError))))
              abortError) as [Hthrow _].
  - vm_compute. reflexivity.
  - reflexivity.
  - exact Hthrow.
Defined.


Lemma demo_ensure_assigns (r : SessionRef) (provider : string)
      (st st' : (SessionRef -> ActiveSession) * unit) :
  @ensureMemorySessionId demoCollaborators r provider st = (Ok tt, st') ->
  is_Some (memorySessionId (fst st' r)).
Proof.
  intros Hrun. injection Hrun as <-. simpl. rewrite Nat.eqb_refl.
  destruct (memorySessionId (fst st r)) eqn:Hid; simpl; [rewrite Hid|]; eauto.
Qed.

Lemma demo_process_keeps (text : string) (r : SessionRef) (used : Z) (ts : option Z)
      (dir : option string) (st st' : (SessionRef -> ActiveSession) * unit) :
  @processAgentResponse demoCollaborators text r used ts dir st = (Ok tt, st') ->
  is_Some (memorySessionId (fst st r)) ->
  is_Some (memorySessionId (fst st' r)).
Proof. intros Hrun. injection Hrun as <-. auto. Qed.

Example memorySessionId_assigned_in_run :
  memorySessionId
    (sessions (snd (runSession 0%nat (demoWorld smallWindowSettings []
                                                (HttpOk (aResponse "<observation/>")))))
              0%nat)
  = Some "mem-1".
Proof. vm_compute. reflexivity. Qed.

Lemma memorySessionId_assigned_before_messages_witness :
  let w := demoWorld smallWindowSettings [] (HttpOk (aResponse "<observation/>")) in
  is_Some (memorySessionId
             (sessions (snd (initTurn 0%nat (configOf w) (modeOf w) w)) 0%nat)).
Proof.
  pose proof (memorySessionId_assigned_before_messages
                0%nat (demoWorld smallWindowSettings [] (HttpOk (aResponse "<observation/>")))
                eq_refl demo_ensure_assigns demo_process_keeps) as Hthm.
  change (initQuery 0%nat (demoWorld smallWindowSettings []
                                     (HttpOk (aResponse "<observation/>"))))
    with (Ok {| qr_content := "<observation/>"; tokensUsed := Some 100 |},
          snd (initQuery 0%nat (demoWorld smallWindowSettings []
                                          (HttpOk (aResponse "<observation/>"))))) in Hthm.
  destruct Hthm as (_ & Hloop & _).
  intros w. apply (Hloop (snd (initTurn 0%nat (configOf w) (modeOf w) w))).
  vm_compute. reflexivity.
Defined.

Example parseInt_samples :
  JS.parseInt "  42px" = Some 42 /\ JS.parseInt "-7" = Some (-7)
  /\ JS.parseInt "0x1F" = Some 31 /\ JS.parseInt "abc" = None
  /\ JS.parseInt "" = None /\ JS.parseIntOr "0" 20 = 20 /\ JS.parseIntOr "" 20 = 20.
Proof. vm_compute. repeat split; reflexivity. Qed.

(** A negative configured limit is kept by [parseInt(...) || default] and
    makes the window admit nothing. *)
Definition negativeLimitSettings : Settings :=
{| CLAUDE_MEM_GEMINI_API_KEY := "key";
   CLAUDE_MEM_GEMINI_MODEL := "";
   CLAUDE_MEM_GEMINI_RATE_LIMITING_ENABLED := "true";
   CLAUDE_MEM_GEMINI_MAX_CONTEXT_MESSAGES := "-1";
   CLAUDE_MEM_GEMINI_MAX_TOKENS := "";
   CLAUDE_MEM_GEMINI_RETRY_MAX_ATTEMPTS := "";
   CLAUDE_MEM_GEMINI_RETRY_BASE_DELAY_MS := "";
   CLAUDE_MEM_DISABLE_CLAUDE_FALLBACK := "true";
   CLAUDE_MEM_ALLOWED_PROJECTS_ONLY := "";
   CLAUDE_MEM_IGNORED_PROJECTS := "" |}.

Example negative_limit_admits_nothing :
  Truncation.MAX_CONTEXT_MESSAGES negativeLimitSettings = -1
  /\ Truncation.MAX_ESTIMATED_TOKENS negativeLimitSettings = 100000
  /\ Truncation.truncatedContents negativeLimitSettings threeTurns = [].
Proof. vm_compute. repeat split; reflexivity. Qed.

(** A lock older than the stale threshold is removed even though its process
    is running, as the threshold is meant to. *)
Definition overdueHost : SpawnLock.Host :=
{| SpawnLock.lockFile :=
     Some (SpawnLock.Lock {| SpawnLock.pid := 41; SpawnLock.timestamp := 30000 |});
   SpawnLock.clock := 100000;
   SpawnLock.ownPid := 42;
   SpawnLock.running := fun p => p =? 41;
   SpawnLock.meanwhile := fun f => f |}.

Example acquire_takes_overdue_lock :
  fst (SpawnLock.acquireSpawnLock overdueHost) = true.
Proof. vm_compute. reflexivity. Qed.

(** * Further properties of the modelled code *)

(** ** Truncation: exactness and idempotence *)

Section TruncationMore.

Import Truncation.

(** Where the sliding window stops: at the start of the history, or in
    front of a message that no longer fits. *)
Lemma slidingWindow_stops (maxMessages maxTokens : Z)
      (history : list ConversationMessage) (k : nat) :
  (k <= length history)%nat ->
  exists j, (j <= k)%nat
    /\ slidingWindow maxMessages maxTokens history k
                     (drop k history) (totalTokens (drop k history))
       = drop j history
    /\ (forall i, (j <= i < k)%nat ->
          exists msg, history !! i = Some msg
            /\ windowFull maxMessages maxTokens (length (drop (S i) history))
                          (totalTokens (drop (S i) history))
                          (estimateTokens (content msg)) = false)
    /\ (j = O \/ exists msg, history !! (j - 1)%nat = Some msg
                  /\ windowFull maxMessages maxTokens (length (drop j history))
                                (totalTokens (drop j history))
                                (estimateTokens (content msg)) = true).
Proof.
  induction k as [|i IH]; intros Hk.
  - exists O. simpl. split; [lia|]. split; [reflexivity|]. split; [intros; lia | auto].
  - destruct (lookup_lt_is_Some_2 history i ltac:(lia)) as [msg Hmsg].
    cbn [slidingWindow]. rewrite Hmsg.
    destruct (windowFull maxMessages maxTokens (length (drop (S i) history))
                         (totalTokens (drop (S i) history))
                         (estimateTokens (content msg))) eqn:Hfull.
    + exists (S i). split; [lia|]. split; [reflexivity|]. split; [intros; lia|].
      right. exists msg. replace (S i - 1)%nat with i by lia. auto.
    + destruct (IH ltac:(lia)) as (j & Hj & Hrun & Hkept & Hstop).
      pose proof (drop_S history msg i Hmsg) as Hdrop.
      rewrite Hdrop, totalTokens_cons in Hrun.
      replace (totalTokens (drop (S i) history) + estimateTokens (content msg))
        with (estimateTokens (content msg) + totalTokens (drop (S i) history)) by lia.
      exists j. split; [lia|]. split; [exact Hrun|]. split; [|exact Hstop].
      intros i' Hi'. destruct (Nat.eq_dec i' i) as [-> | Hne].
      * exists msg. auto.
      * apply Hkept. lia.
Qed.

Lemma totalTokens_nonneg (l : list ConversationMessage) : 0 <= totalTokens l.
Proof.
  induction l as [|m l IH]; [reflexivity|].
  rewrite totalTokens_cons. pose proof (estimateTokens_nonneg (content m)). lia.
Qed.

Lemma drop_eq_self {A : Type} (l : list A) (j : nat) : drop j l = l -> j = O \/ l = [].
Proof.
  intros H. destruct l as [|x l]; [auto|]. left.
  assert (Hlen : length (drop j (x :: l)) = length (x :: l)) by (rewrite H; reflexivity).
  rewrite length_drop in Hlen. simpl in Hlen. lia.
Qed.

(** X1. [truncateHistory] gives back the whole history exactly when it is
    within both limits (or empty); otherwise it drops no more than it must: the
    message just before the kept window does not fit, because the window
    already holds [MAX_CONTEXT_MESSAGES] messages or the message would take it
    over [MAX_ESTIMATED_TOKENS]. *)
Theorem truncatedContents_drops_no_more_than_needed
        (st : Settings) (history : list ConversationMessage) :
  (truncatedContents st history = history
   <-> withinLimits st history = true \/ history = [])
  /\ (forall older msg,
         history = older ++ msg :: truncatedContents st history ->
         MAX_CONTEXT_MESSAGES st <= Z.of_nat (length (truncatedContents st history))
         \/ MAX_ESTIMATED_TOKENS st
            < totalTokens (truncatedContents st history) + estimateTokens (content msg)).
Proof.
  unfold truncatedContents.
  destruct (withinLimits st history) eqn:Hw.
  - split; [tauto|]. intros older msg Heq. exfalso.
    apply (f_equal (@length _)) in Heq. rewrite length_app in Heq. simpl in Heq. lia.
  - destruct (slidingWindow_stops (MAX_CONTEXT_MESSAGES st) (MAX_ESTIMATED_TOKENS st)
                history (length history) ltac:(lia)) as (j & Hj & Hrun & Hkept & Hstop).
    rewrite drop_all in Hrun. change (totalTokens []) with 0 in Hrun. rewrite Hrun.
    split.
    + split.
      * intros Hall. right. destruct (drop_eq_self _ _ Hall) as [-> | Hnil]; [|exact Hnil].
        destruct history as [|m rest]; [reflexivity|]. exfalso.
        destruct (Hkept O ltac:(simpl; lia)) as (msg & Hmsg & Hfit).
        simpl in Hmsg. injection Hmsg as <-.
        unfold windowFull in Hfit. apply orb_false_elim in Hfit as [Hc Ht].
        apply Z.leb_gt in Hc. apply Z.ltb_ge in Ht.
        change (drop 1 (m :: rest)) with (drop 0 rest) in Hc, Ht.
        rewrite drop_0 in Hc, Ht.
        unfold withinLimits in Hw. apply andb_false_iff in Hw as [Hw | Hw].
        -- apply Z.leb_gt in Hw. cbn [length] in Hw. lia.
        -- apply Z.leb_gt in Hw. rewrite totalTokens_cons in Hw. lia.
      * intros [Hc | ->]; [discriminate | apply drop_nil].
    + intros older msg Heq.
      assert (Hlen : length older = (j - 1)%nat /\ (0 < j)%nat).
      { apply (f_equal (@length _)) in Heq. rewrite length_app in Heq. simpl in Heq.
        rewrite length_drop in Heq. lia. }
      destruct Hlen as [Hlen Hpos].
      destruct Hstop as [-> | (msg' & Hmsg' & Hfull)]; [lia|].
      assert (msg' = msg) as ->.
      { rewrite Heq in Hmsg'. rewrite lookup_app_r in Hmsg' by lia.
        rewrite Hlen in Hmsg'. replace (j - 1 - (j - 1))%nat with O in Hmsg' by lia.
        simpl in Hmsg'. congruence. }
      unfold windowFull in Hfull. apply orb_prop in Hfull as [Hc | Ht].
      * left. apply Z.leb_le in Hc. exact Hc.
      * right. apply Z.ltb_lt in Ht. exact Ht.
Qed.

Lemma truncatedContents_negative_budget (st : Settings)
      (history : list ConversationMessage) :
  MAX_ESTIMATED_TOKENS st < 0 -> truncatedContents st history = [].
Proof.
  intros Hneg. unfold truncatedContents.
  destruct (withinLimits st history) eqn:Hw.
  - unfold withinLimits in Hw. apply andb_prop in Hw as [_ Hw]. apply Z.leb_le in Hw.
    pose proof (totalTokens_nonneg history). lia.
  - destruct history as [|m rest] using rev_ind; [reflexivity|].
    rewrite length_app. simpl. replace (length rest + 1)%nat with (S (length rest)) by lia.
    cbn [slidingWindow]. rewrite lookup_app_r by lia.
    rewrite Nat.sub_diag. simpl. unfold windowFull.
    replace (MAX_ESTIMATED_TOKENS st <? 0 + estimateTokens (content m)) with true.
    + rewrite orb_true_r. reflexivity.
    + symmetry. apply Z.ltb_lt. pose proof (estimateTokens_nonneg (content m)). lia.
Qed.

(** X2. Truncating an already truncated history changes nothing. *)
Theorem truncatedContents_idempotent (st : Settings) (history : list ConversationMessage) :
  truncatedContents st (truncatedContents st history) = truncatedContents st history.
Proof.
  destruct (truncatedContents_bounds st history) as (_ & Hlen & Htok).
  set (kept := truncatedContents st history) in *.
  unfold truncatedContents at 1.
  destruct (withinLimits st kept) eqn:Hw; [reflexivity|].
  assert (Hnil : kept = []).
  { unfold withinLimits in Hw. apply andb_false_iff in Hw as [Hw | Hw];
      apply Z.leb_gt in Hw.
    - destruct kept; [reflexivity | simpl in *; lia].
    - apply truncatedContents_negative_budget. lia. }
  rewrite Hnil. reflexivity.
Qed.

End TruncationMore.

(** ** The Gemini agent: requests, configuration, classification *)

Section AgentMore.

Context `{!Builtins, !Collaborators}.

(** Events a call may add: requests that are exactly [request], and timers. *)
Definition onlySends (request : Request) (e : Event) : Prop :=
  match e with
  | EvFetch _ sent => sent = request
  | EvTimer _ => True
  | _ => False
  end.

Lemma queryGeminiMultiTurn_sends (history : list ConversationMessage)
      (apiKey model : string) (enabled : bool) (w : World) :
  exists later,
    trace (snd (queryGeminiMultiTurn history apiKey model enabled w)) = later ++ trace w
    /\ Forall (onlySends (requestFor (settings w) history apiKey model)) later.
Proof.
  rewrite queryGeminiMultiTurn_run.
  set (request := requestFor (settings w) history apiKey model).
  set (w0 := if enabled then afterEnforce model w else w).
  assert (Hw0 : exists l0, trace w0 = l0 ++ trace w /\ Forall (onlySends request) l0).
  { unfold w0, afterEnforce. destruct enabled; [|exists []; auto].
    destruct (remainingWait model w) as [wait|]; [|exists []; auto].
    eexists [_]. split; [reflexivity|]. repeat constructor. }
  destruct Hw0 as (l0 & Hl0 & HP0).
  destruct (adds_retryLoop_request (onlySends request) request
              (maxAttemptsOf (settings w)) (baseDelayMsOf (settings w))
              (Z.to_nat (maxAttemptsOf (settings w)))
              ltac:(intros; reflexivity) ltac:(intros; exact I) 0 None w0)
    as (l1 & Hl1 & HP1).
  exists (l1 ++ l0). rewrite Hl1, Hl0, app_assoc. split; [reflexivity|].
  apply Forall_app; auto.
Qed.

Definition geminiRole (r : Role) : GeminiRole :=
  match r with assistant => role_model | user => role_user end.

Lemma conversationToGeminiContents_texts (l : list ConversationMessage) :
  map gc_text (conversationToGeminiContents l) = map content l
  /\ map gc_role (conversationToGeminiContents l) = map (fun m => geminiRole (role m)) l.
Proof.
  unfold conversationToGeminiContents. rewrite !map_map. split; apply map_ext.
  - reflexivity.
  - intros m. simpl. destruct (role m); reflexivity.
Qed.

(** X3. Every request a call of [queryGeminiMultiTurn] issues, retries
    included, is for the given model and key and carries the most recent turns
    only: a suffix of the history within both truncation limits, each turn with
    its text unchanged and with role [assistant] sent as [model]. *)
Theorem queryGeminiMultiTurn_requests_carry_recent_turns
        (history : list ConversationMessage) (apiKey model : string) (enabled : bool)
        (w : World) :
  exists later,
    trace (snd (queryGeminiMultiTurn history apiKey model enabled w)) = later ++ trace w
    /\ forall t request,
         In (EvFetch t request) later ->
         req_model request = model /\ req_apiKey request = apiKey
         /\ exists kept,
              kept `suffix_of` history
              /\ Z.of_nat (length kept) <= Z.max 0 (Truncation.MAX_CONTEXT_MESSAGES (settings w))
              /\ Truncation.totalTokens kept
                 <= Z.max 0 (Truncation.MAX_ESTIMATED_TOKENS (settings w))
              /\ map gc_text (req_contents request) = map content kept
              /\ map gc_role (req_contents request)
                 = map (fun m => geminiRole (role m)) kept.
Proof.
  destruct (queryGeminiMultiTurn_sends history apiKey model enabled w)
    as (later & Hlater & Hsends).
  exists later. split; [exact Hlater|].
  intros t request Hin.
  rewrite Forall_forall in Hsends. specialize (Hsends _ (proj2 (list_elem_of_In _ _) Hin)).
  simpl in Hsends. subst request.
  split; [reflexivity|]. split; [reflexivity|].
  exists (Truncation.truncatedContents (settings w) history).
  destruct (truncatedContents_bounds (settings w) history) as (Hsuf & Hlen & Htok).
  split; [exact Hsuf|]. split; [exact Hlen|]. split; [exact Htok|].
  apply conversationToGeminiContents_texts.
Qed.

(** X4. [getGeminiConfig] never fails and leaves the world alone; the
    model it returns is always one of the eight valid models: the configured
    one when valid, [gemini-2.5-flash] when the setting is empty or invalid.
    The key of the settings file wins over the environment variable, and rate
    limiting is on unless the setting is exactly [false]. *)
Theorem getGeminiConfig_valid_model (w : World) :
  exists cfg,
    getGeminiConfig w = (Ok cfg, w)
    /\ In (model cfg) validModels
    /\ (In (CLAUDE_MEM_GEMINI_MODEL (settings w)) validModels ->
        model cfg = CLAUDE_MEM_GEMINI_MODEL (settings w))
    /\ (~ In (CLAUDE_MEM_GEMINI_MODEL (settings w)) validModels ->
        model cfg = "gemini-2.5-flash")
    /\ (CLAUDE_MEM_GEMINI_API_KEY (settings w) <> EmptyString ->
        apiKey cfg = CLAUDE_MEM_GEMINI_API_KEY (settings w))
    /\ (CLAUDE_MEM_GEMINI_API_KEY (settings w) = EmptyString ->
        apiKey cfg = GEMINI_API_KEY w)
    /\ (rateLimitingEnabled cfg = false
        <-> CLAUDE_MEM_GEMINI_RATE_LIMITING_ENABLED (settings w) = "false").
Proof.
  exists (configOf w). split; [reflexivity|].
  assert (Hmem : forall m, existsb (String.eqb m) validModels = true <-> In m validModels).
  { intros m. rewrite existsb_exists. split.
    - intros (x & Hin & Heq). apply String.eqb_eq in Heq. subst. exact Hin.
    - intros Hin. exists m. split; [exact Hin | apply String.eqb_refl]. }
  assert (Hdefault : In defaultModel validModels) by (simpl; auto).
  unfold configOf. cbn [model apiKey rateLimitingEnabled].
  set (configured := CLAUDE_MEM_GEMINI_MODEL (settings w)).
  split; [|split; [|split; [|split; [|split]]]].
  - destruct (nonEmpty configured).
    + destruct (existsb _ validModels) eqn:Hv; [apply Hmem; exact Hv | exact Hdefault].
    + destruct (existsb _ validModels); exact Hdefault.
  - intros Hin. destruct configured as [|c s] eqn:Hc; [simpl in Hin; intuition discriminate|].
    simpl nonEmpty. cbv iota. rewrite (proj2 (Hmem _) Hin). reflexivity.
  - intros Hnot. destruct (nonEmpty configured); [|destruct (existsb _ _); reflexivity].
    destruct (existsb _ validModels) eqn:Hv; [|reflexivity].
    exfalso. apply Hnot, Hmem. exact Hv.
  - intros Hkey. destruct (CLAUDE_MEM_GEMINI_API_KEY (settings w)); [congruence | reflexivity].
  - intros ->. reflexivity.
  - rewrite negb_false_iff. apply String.eqb_eq.
Qed.

(** X5. Without a key in the settings file and in the environment the
    [try] block of [startSession] throws the configuration error at once: the
    world is unchanged, so no request is issued and no turn is pushed. *)
Theorem runSession_without_api_key (session : SessionRef) (w : World) :
  CLAUDE_MEM_GEMINI_API_KEY (settings w) = EmptyString ->
  GEMINI_API_KEY w = EmptyString ->
  runSession session w = (Throw MISSING_API_KEY, w).
Proof.
  intros Hkey Henv. rewrite runSession_run. unfold configOf. cbn [apiKey].
  rewrite Hkey. simpl. rewrite Henv. reflexivity.
Qed.

(** The four marks of a rate limit error. *)
Definition rateLimitMarks : list string :=
  [ "429"; "rate limit"; "resource_exhausted"; "quota exceeded" ].

Lemma isRateLimitError_marks (name message : string) :
  Retry.isRateLimitError (ErrorObject name message) = true
  <-> exists mark, In mark rateLimitMarks
                   /\ JS.includes mark (JS.toLowerCase message) = true.
Proof.
  unfold Retry.isRateLimitError, rateLimitMarks. split.
  - intros Hm. repeat (apply orb_prop in Hm as [Hm | Hm]);
      eexists; (split; [|exact Hm]); simpl; auto.
  - intros (mark & Hin & Hinc). simpl in Hin.
    destruct Hin as [<- | [<- | [<- | [<- | []]]]]; rewrite Hinc;
      rewrite ?orb_true_r; reflexivity.
Qed.

(** X6. The classification looks at the message only, in any letter case:
    an HTTP error of any status whose body mentions one of the four marks is a
    rate limit error, and a thrown value that is not an [Error] never is.  So
    a 5xx answer whose body mentions a quota is retried like a 429: when it
    comes before the last attempt, a further request follows. *)
Theorem isRateLimitError_reads_body_of_any_status :
  (forall (status : Z) (errorText mark : string),
      In mark rateLimitMarks ->
      JS.includes mark (JS.toLowerCase errorText) = true ->
      Retry.isRateLimitError (apiError status errorText) = true)
  /\ (forall shown, Retry.isRateLimitError (OtherValue shown) = false)
  /\ (forall (history : list ConversationMessage) (apiKey model : string) (enabled : bool)
             (w : World) (status : Z) (errorText mark : string),
         network w (fetchCount w) = HttpError status errorText ->
         In mark rateLimitMarks ->
         JS.includes mark (JS.toLowerCase errorText) = true ->
         1 < maxAttemptsOf (settings w) ->
         (fetchCount w + 2
          <= fetchCount (snd (queryGeminiMultiTurn history apiKey model enabled w)))%nat).
Proof.
  assert (Hclass : forall (status : Z) (errorText mark : string),
             In mark rateLimitMarks ->
             JS.includes mark (JS.toLowerCase errorText) = true ->
             Retry.isRateLimitError (apiError status errorText) = true).
  { intros status errorText mark Hin Hinc. unfold apiError.
    apply isRateLimitError_marks. exists mark. split; [exact Hin|].
    rewrite !toLowerCase_append. do 3 apply includes_append_r. exact Hinc. }
  split; [exact Hclass|]. split; [reflexivity|].
  intros history apiKey model enabled w status errorText mark Hout Hin Hinc Hmax.
  rewrite queryGeminiMultiTurn_run.
  set (w0 := if enabled then afterEnforce model w else w).
  assert (Hframe : fetchCount w0 = fetchCount w /\ network w0 = network w).
  { unfold w0. destruct enabled; [|auto].
    pose proof (afterEnforce_frame model w). tauto. }
  destruct Hframe as [Hc0 Hn0].
  pose proof (retryLoop_requests (requestFor (settings w) history apiKey model)
                (maxAttemptsOf (settings w)) (baseDelayMsOf (settings w))
                (Z.to_nat (maxAttemptsOf (settings w))) 0 None w0 ltac:(lia))
    as (_ & _ & Hprog & Hsettle).
  cbv zeta in Hprog, Hsettle.
  specialize (Hprog ltac:(lia)).
  specialize (Hsettle (fetchCount w0) ltac:(lia)).
  unfold settles in Hsettle. rewrite Hn0, Hc0, Hout in Hsettle.
  specialize (Hsettle _ eq_refl).
  rewrite (Hclass status errorText mark Hin Hinc) in Hsettle.
  rewrite Nat.sub_diag, Z.add_0_r in Hsettle.
  replace (0 <? maxAttemptsOf (settings w) - 1) with true in Hsettle
    by (symmetry; apply Z.ltb_lt; lia).
  simpl in Hsettle. lia.
Qed.

End AgentMore.

Lemma runSession_without_api_key_witness :
  runSession 0%nat (demoWorld whitelistSettings [] busy)
  = (Throw MISSING_API_KEY, demoWorld whitelistSettings [] busy).
Proof.
  apply (@runSession_without_api_key demoBuiltins demoCollaborators); reflexivity.
Defined.

(** ** Suggested retry delays are at least a second *)

Section SuggestedDelayMore.

Import Retry.

Lemma digitValue_nonneg (c : ascii) : JS.isDigit c = true -> 0 <= JS.digitValue c.
Proof.
  unfold JS.isDigit, JS.digitValue. intros Hd. apply andb_prop in Hd as [Hlo _].
  apply Nat.leb_le in Hlo. lia.
Qed.

Lemma readDigits_nonneg (s : string) :
  forall acc seen n rest,
    0 <= acc -> JS.readDigits acc seen s = Some (n, rest) -> 0 <= n.
Proof.
  induction s as [|c s IH]; intros acc seen n rest Hacc Hrun; simpl in Hrun.
  - destruct seen; [injection Hrun as <- _; exact Hacc | discriminate].
  - destruct (JS.isDigit c) eqn:Hd.
    + eapply IH; [|exact Hrun]. pose proof (digitValue_nonneg c Hd). lia.
    + destruct seen; [injection Hrun as <- _; exact Hacc | discriminate].
Qed.

Lemma readFraction_nonneg (s : string) :
  forall num den, 0 <= num -> 0 < den ->
    0 <= fst (readFraction num den s) /\ 0 < snd (readFraction num den s).
Proof.
  induction s as [|c s IH]; intros num den Hnum Hden; simpl; [auto|].
  destruct (JS.isDigit c) eqn:Hd; [|auto].
  apply IH; [pose proof (digitValue_nonneg c Hd); lia | lia].
Qed.

Lemma fractionValue_nonneg (s : string) : (0 <= fractionValue s)%Q.
Proof.
  unfold fractionValue.
  pose proof (readFraction_nonneg s 0 1 ltac:(lia) ltac:(lia)) as [Hn Hd].
  destruct (readFraction 0 1 s) as [num den]. simpl in Hn, Hd.
  apply Qle_shift_div_l.
  - replace 0%Q with (inject_Z 0) by reflexivity. rewrite <- Zlt_Qlt. exact Hd.
  - rewrite Qmult_0_l. replace 0%Q with (inject_Z 0) by reflexivity.
    rewrite <- Zle_Qle. exact Hn.
Qed.

Lemma parseFloat_nonneg (s : string) (q : Q) : parseFloat s = JS.Fin q -> (0 <= q)%Q.
Proof.
  unfold parseFloat. intros Hp.
  assert (Hz : forall n : Z, 0 <= n -> (0 <= inject_Z n)%Q).
  { intros n Hn. replace 0%Q with (inject_Z 0) by reflexivity. rewrite <- Zle_Qle. exact Hn. }
  destruct (JS.readDigits 0 false s) as [[n rest]|] eqn:Hread.
  - assert (Hn : 0 <= n) by (eapply readDigits_nonneg; [|exact Hread]; lia).
    destruct rest as [|c r].
    + injection Hp as <-. auto.
    + destruct (Ascii.eqb c "."); injection Hp as <-; [|auto].
      pose proof (fractionValue_nonneg r). pose proof (Hz n Hn). lra.
  - destruct s as [|c [|d r]]; try discriminate.
    destruct (Ascii.eqb c "." && JS.isDigit d); [|discriminate].
    injection Hp as <-. apply fractionValue_nonneg.
Qed.

Lemma scanDetails_at_least_a_second (details : list JSON) (q : Q) :
  scanDetails details = Some (JS.Fin q) ->
  exists ms : Z, q = inject_Z ms /\ 1000 <= ms.
Proof.
  induction details as [|detail rest IH]; [discriminate|].
  cbn [scanDetails].
  assert (Hhit : forall m, Some (JS.ceilMsPlusSecond (parseFloat m)) = Some (JS.Fin q) ->
                           exists ms : Z, q = inject_Z ms /\ 1000 <= ms).
  { intros m Hm. destruct (parseFloat m) as [|p] eqn:Hp; [discriminate|].
    simpl in Hm. injection Hm as <-. eexists. split; [reflexivity|].
    pose proof (parseFloat_nonneg _ _ Hp) as Hpos.
    assert (0 <= Qceiling (p * 1000)); [|lia].
    pose proof (Qle_ceiling (p * 1000)) as Hc.
    assert (Hlt : (inject_Z (-1) < inject_Z (Qceiling (p * 1000)))%Q).
    { eapply Qlt_le_trans; [|exact Hc].
      apply Qlt_le_trans with (y := 0%Q); [reflexivity|].
      replace 0%Q with (0 * 1000)%Q by reflexivity.
      apply Qmult_le_compat_r; [exact Hpos | discriminate]. }
    rewrite <- Zlt_Qlt in Hlt. lia. }
  destruct detail; try exact IH; try discriminate.
  destruct (prop (Some (JObject fields)) "@type") as [[| | |ty| |]|]; try exact IH.
  destruct (String.eqb ty RETRY_INFO); [|exact IH].
  destruct (prop (Some (JObject fields)) "retryDelay") as [[| | |rd| |]|]; try exact IH.
  destruct (matchSeconds rd); [apply Hhit | exact IH].
Qed.


End SuggestedDelayMore.


(** ** Spacing of successive calls and the request budget of a session *)

Section BudgetMore.

Context `{!Builtins, !Collaborators}.

Lemma minimumDelayMs_range (model : string) :
  2100 <= minimumDelayMs model <= 30100.
Proof.
  unfold minimumDelayMs, rpmOf, GEMINI_RPM_LIMITS. cbn [lookupRpm].
  repeat (destruct (String.eqb model _); [vm_compute; split; discriminate|]).
  vm_compute. split; discriminate.
Qed.

(** The first request of a call with rate limiting on. *)
Lemma queryGeminiMultiTurn_first_request (history : list ConversationMessage)
      (apiKey model : string) (w : World) :
  0 < maxAttemptsOf (settings w) ->
  let w' := snd (queryGeminiMultiTurn history apiKey model true w) in
  lastRequestTime w + minimumDelayMs model <= lastRequestTime w'
  /\ now w <= lastRequestTime w'
  /\ settings w' = settings w
  /\ exists request later earlier,
       trace w' = later ++ EvFetch (lastRequestTime w') request :: earlier ++ trace w
       /\ fetchesIn earlier = O.
Proof.
  intros Hmax. cbv zeta. rewrite queryGeminiMultiTurn_run.
  set (w0 := afterEnforce model w).
  assert (Hw0 : lastRequestTime w0 = now w0
                /\ lastRequestTime w + minimumDelayMs model <= now w0
                /\ now w <= now w0
                /\ settings w0 = settings w
                /\ exists earlier, trace w0 = earlier ++ trace w /\ fetchesIn earlier = O).
  { unfold w0, afterEnforce, remainingWait.
    destruct (now w - lastRequestTime w <? minimumDelayMs model) eqn:Hsoon.
    - apply Z.ltb_lt in Hsoon. cbv zeta.
      rewrite (timerMs_whole (minimumDelayMs model - (now w - lastRequestTime w))) by lia.
      simpl. split; [reflexivity|]. split; [lia|]. split; [lia|]. split; [reflexivity|].
      eexists [_]. split; reflexivity.
    - apply Z.ltb_ge in Hsoon. simpl.
      split; [reflexivity|]. split; [lia|]. split; [lia|]. split; [reflexivity|].
      exists []. split; reflexivity. }
  destruct Hw0 as (Hrec & Hmin & Hnow & Hst & earlier & Hearlier & Hnone).
  destruct (Z.to_nat (maxAttemptsOf (settings w))) as [|n] eqn:Hn; [lia|].
  set (request := requestFor (settings w) history apiKey model).
  destruct (retryLoop_first_request request (maxAttemptsOf (settings w))
              (baseDelayMsOf (settings w)) n 0 None w0) as (later & Hlater).
  pose proof (retryLoop_requests request (maxAttemptsOf (settings w))
                (baseDelayMsOf (settings w)) (S n) 0 None w0 ltac:(lia)) as (Hq & _).
  destruct Hq as (_ & Hset & _ & _ & Hlast & _).
  rewrite Hlast, Hrec, Hset.
  split; [exact Hmin|]. split; [exact Hnow|]. split; [exact Hst|].
  exists request, later, earlier. rewrite Hlater, Hearlier. auto.
Qed.


(** [spends st n m]: started with settings [st], [m] keeps them and issues
    at most [n] requests. *)
Definition spends {A : Type} (st : Settings) (n : nat) (m : M A) : Prop :=
  forall w, settings w = st ->
            settings (snd (m w)) = st
            /\ (fetchCount (snd (m w)) <= fetchCount w + n)%nat.

Lemma spends_bind {A B : Type} (st : Settings) (n1 n2 : nat) (m : M A) (k : A -> M B) :
  spends st n1 m -> (forall a, spends st n2 (k a)) -> spends st (n1 + n2) (m ≫= k).
Proof.
  intros Hm Hk w Hw. rewrite bind_run. destruct (Hm w Hw) as [Hs1 Hc1].
  destruct (m w) as [[a | e] w1]; simpl in *.
  - destruct (Hk a w1 Hs1) as [Hs2 Hc2]. split; [exact Hs2 | lia].
  - split; [exact Hs1 | lia].
Qed.

Lemma spends_free_bind {A B : Type} (st : Settings) (n : nat) (m : M A) (k : A -> M B) :
  spends st O m -> (forall a, spends st n (k a)) -> spends st n (m ≫= k).
Proof. intros Hm Hk. apply (spends_bind st O n); assumption. Qed.

Lemma spends_more {A : Type} (st : Settings) (n n' : nat) (m : M A) :
  (n <= n')%nat -> spends st n m -> spends st n' m.
Proof. intros Hn Hm w Hw. destruct (Hm w Hw). split; [assumption | lia]. Qed.

Lemma spends_ret {A : Type} (st : Settings) (a : A) : spends st O (mret a).
Proof. intros w Hw. simpl. split; [exact Hw | lia]. Qed.

Lemma spends_throw {A : Type} (st : Settings) (e : Thrown) : spends st O (mthrow e : M A).
Proof. intros w Hw. simpl. split; [exact Hw | lia]. Qed.

Lemma spends_get (st : Settings) : spends st O get.
Proof. intros w Hw. simpl. split; [exact Hw | lia]. Qed.

Lemma spends_readSession (st : Settings) (r : SessionRef) : spends st O (readSession r).
Proof. intros w Hw. simpl. split; [exact Hw | lia]. Qed.

Lemma spends_updateSession (st : Settings) (r : SessionRef)
      (f : ActiveSession -> ActiveSession) : spends st O (updateSession r f).
Proof. intros w Hw. simpl. split; [exact Hw | unfold fetchCount; simpl; lia]. Qed.

Lemma spends_call {A : Type} (st : Settings)
      (f : (SessionRef -> ActiveSession) * Ext ->
           Result A * ((SessionRef -> ActiveSession) * Ext)) : spends st O (call f).
Proof.
  intros w Hw. unfold call.
  destruct (f (sessions w, external w)) as [res [h x]]. simpl.
  split; [exact Hw | unfold fetchCount; simpl; lia].
Qed.

Lemma spends_emit (st : Settings) (e : Event) :
  match e with EvFetch _ _ => False | _ => True end -> spends st O (emit e).
Proof.
  intros He w Hw. simpl. split; [exact Hw|].
  unfold fetchCount. simpl. destruct e; first [lia | destruct He].
Qed.

Lemma spends_queryGeminiMultiTurn (st : Settings) (history : list ConversationMessage)
      (apiKey model : string) (enabled : bool) :
  spends st (Z.to_nat (maxAttemptsOf st))
         (queryGeminiMultiTurn history apiKey model enabled).
Proof.
  intros w Hw.
  pose proof (queryGeminiMultiTurn_frame history apiKey model enabled w)
    as (_ & _ & Hst & _).
  split; [congruence|]. subst st.
  rewrite queryGeminiMultiTurn_run.
  set (w0 := if enabled then afterEnforce model w else w).
  assert (Hc0 : fetchCount w0 = fetchCount w).
  { unfold w0. destruct enabled; [apply afterEnforce_frame | reflexivity]. }
  destruct (Z_le_gt_dec 0 (maxAttemptsOf (settings w))) as [Hpos | Hneg].
  - pose proof (retryLoop_requests (requestFor (settings w) history apiKey model)
                  (maxAttemptsOf (settings w)) (baseDelayMsOf (settings w))
                  (Z.to_nat (maxAttemptsOf (settings w))) 0 None w0 ltac:(lia))
      as (_ & Hcount & _).
    cbv zeta in Hcount. lia.
  - replace (Z.to_nat (maxAttemptsOf (settings w))) with O by lia. simpl. lia.
Qed.

Lemma spends_recordReply (st : Settings) (session : SessionRef) (response : QueryResult) :
  spends st O (recordReply session response).
Proof.
  unfold recordReply. destruct (nonEmpty (qr_content response)); [|apply spends_ret].
  apply spends_free_bind; [apply spends_updateSession | intros _].
  apply spends_free_bind; [apply spends_updateSession | intros _; apply spends_ret].
Qed.

(** Does a queued message lead to a query? *)
Definition queries (message : PendingMessage) : bool :=
  match type message with
  | observation | summarize => true
  | other_type => false
  end.

Lemma spends_processMessage (st : Settings) (session : SessionRef) (cfg : GeminiConfig)
      (mode : Mode) (message : PendingMessage) (lastCwd : option string) :
  spends st (if queries message then Z.to_nat (maxAttemptsOf st) else O)
         (processMessage session cfg mode message lastCwd).
Proof.
  unfold processMessage, queries.
  apply spends_free_bind; [apply spends_readSession | intros s].
  destruct (type message).
  - apply spends_free_bind.
    { destruct (prompt_number message); [apply spends_updateSession | apply spends_ret]. }
    intros _. apply spends_free_bind; [apply spends_get | intros w].
    apply spends_free_bind; [apply spends_updateSession | intros _].
    apply spends_free_bind; [apply spends_readSession | intros s'].
    replace (Z.to_nat (maxAttemptsOf st)) with (Z.to_nat (maxAttemptsOf st) + O)%nat by lia.
    apply spends_bind; [apply spends_queryGeminiMultiTurn | intros response].
    apply spends_free_bind; [apply spends_recordReply | intros used].
    apply spends_free_bind; [apply spends_emit; exact I | intros _; apply spends_call].
  - apply spends_free_bind; [apply spends_readSession | intros s'].
    apply spends_free_bind; [apply spends_updateSession | intros _].
    apply spends_free_bind; [apply spends_readSession | intros s''].
    replace (Z.to_nat (maxAttemptsOf st)) with (Z.to_nat (maxAttemptsOf st) + O)%nat by lia.
    apply spends_bind; [apply spends_queryGeminiMultiTurn | intros response].
    apply spends_free_bind; [apply spends_recordReply | intros used].
    apply spends_free_bind; [apply spends_emit; exact I | intros _; apply spends_call].
  - apply spends_ret.
Qed.

Lemma spends_processMessages (st : Settings) (session : SessionRef) (cfg : GeminiConfig)
      (mode : Mode) (messages : list PendingMessage) :
  forall lastCwd,
    spends st (length (List.filter queries messages) * Z.to_nat (maxAttemptsOf st))
           (processMessages session cfg mode messages lastCwd).
Proof.
  induction messages as [|message rest IH]; intros lastCwd; cbn [processMessages].
  - apply spends_ret.
  - apply spends_free_bind; [apply spends_emit; exact I | intros _].
    eapply spends_more; [|apply spends_bind; [apply spends_processMessage | intros _; apply IH]].
    cbn [List.filter]. destruct (queries message); simpl; lia.
Qed.

Lemma spends_initTurn (st : Settings) (session : SessionRef) (cfg : GeminiConfig)
      (mode : Mode) :
  spends st (Z.to_nat (maxAttemptsOf st)) (initTurn session cfg mode).
Proof.
  unfold initTurn.
  apply spends_free_bind; [apply spends_readSession | intros s].
  apply spends_free_bind; [apply spends_updateSession | intros _].
  apply spends_free_bind; [apply spends_readSession | intros s'].
  replace (Z.to_nat (maxAttemptsOf st)) with (Z.to_nat (maxAttemptsOf st) + O)%nat by lia.
  apply spends_bind; [apply spends_queryGeminiMultiTurn | intros response].
  apply spends_free_bind; [apply spends_emit; exact I | intros _].
  apply spends_free_bind; [apply spends_call | intros _].
  destruct (nonEmpty (qr_content response)); [|apply spends_updateSession].
  apply spends_free_bind; [apply spends_recordReply | intros used].
  apply spends_free_bind; [apply spends_emit; exact I | intros _; apply spends_call].
Qed.

(** X9. The request budget of a session: the init turn issues at most
    [maxAttempts] requests, and draining a list of queued messages issues at
    most [maxAttempts] requests for each observation or summarize message and
    none for a message of any other type; the settings in force stay the
    same throughout. *)
Theorem session_request_budget
        (session : SessionRef) (cfg : GeminiConfig) (mode : Mode)
        (messages : list PendingMessage) (lastCwd : option string) (w : World) :
  let attempts := Z.to_nat (maxAttemptsOf (settings w)) in
  (fetchCount (snd (initTurn session cfg mode w)) <= fetchCount w + attempts)%nat
  /\ (fetchCount (snd (processMessages session cfg mode messages lastCwd w))
      <= fetchCount w + length (List.filter queries messages) * attempts)%nat
  /\ settings (snd (processMessages session cfg mode messages lastCwd w)) = settings w.
Proof.
  cbv zeta.
  destruct (spends_initTurn (settings w) session cfg mode w eq_refl) as [_ Hinit].
  destruct (spends_processMessages (settings w) session cfg mode messages lastCwd w eq_refl)
    as [Hst Hloop].
  auto.
Qed.

End BudgetMore.


(** ** The history of a session only grows *)

Section HistoryMore.

Context `{!Builtins, !Collaborators}.

(** A collaborator that drops no turn of any session. *)
Definition keepsHistories {A : Type}
           (f : (SessionRef -> ActiveSession) * Ext ->
                Result A * ((SessionRef -> ActiveSession) * Ext)) : Prop :=
  forall st r,
    conversationHistory (fst st r)
    `prefix_of` conversationHistory (fst (snd (f st)) r).

(** A computation that drops no turn of any session. *)
Definition appendsOnly {A : Type} (m : M A) : Prop :=
  forall w r,
    conversationHistory (sessions w r)
    `prefix_of` conversationHistory (sessions (snd (m w)) r).

Lemma appendsOnly_bind {A B : Type} (m : M A) (k : A -> M B) :
  appendsOnly m -> (forall a, appendsOnly (k a)) -> appendsOnly (m ≫= k).
Proof.
  intros Hm Hk w r. rewrite bind_run. specialize (Hm w r).
  destruct (m w) as [[a | e] w1]; simpl in *; [|exact Hm].
  etransitivity; [exact Hm | apply Hk].
Qed.

Lemma appendsOnly_still {A : Type} (m : M A) :
  (forall w, sessions (snd (m w)) = sessions w) -> appendsOnly m.
Proof. intros Hm w r. rewrite Hm. reflexivity. Qed.

Lemma appendsOnly_updateSession (session : SessionRef)
      (f : ActiveSession -> ActiveSession) :
  (forall s, conversationHistory s `prefix_of` conversationHistory (f s)) ->
  appendsOnly (updateSession session f).
Proof.
  intros Hf w r. simpl. destruct (Nat.eqb r session) eqn:Heq; [|reflexivity].
  apply Nat.eqb_eq in Heq. subst r. apply Hf.
Qed.

Lemma appendsOnly_push (session : SessionRef) (m : ConversationMessage) :
  appendsOnly (updateSession session (pushMessage m)).
Proof. apply appendsOnly_updateSession. intros s. simpl. apply prefix_app_r. reflexivity. Qed.

Lemma appendsOnly_call {A : Type}
      (f : (SessionRef -> ActiveSession) * Ext ->
           Result A * ((SessionRef -> ActiveSession) * Ext)) :
  keepsHistories f -> appendsOnly (call f).
Proof.
  intros Hf w r. unfold call. specialize (Hf (sessions w, external w) r).
  destruct (f (sessions w, external w)) as [res [h x]]. exact Hf.
Qed.

Lemma appendsOnly_queryGeminiMultiTurn (history : list ConversationMessage)
      (apiKey model : string) (enabled : bool) :
  appendsOnly (queryGeminiMultiTurn history apiKey model enabled).
Proof.
  apply appendsOnly_still. intros w.
  apply (queryGeminiMultiTurn_frame history apiKey model enabled w).
Qed.

Lemma appendsOnly_recordReply (session : SessionRef) (response : QueryResult) :
  appendsOnly (recordReply session response).
Proof.
  unfold recordReply. destruct (nonEmpty (qr_content response)).
  - apply appendsOnly_bind; [apply appendsOnly_push | intros _].
    apply appendsOnly_bind; [|intros _; apply appendsOnly_still; reflexivity].
    apply appendsOnly_updateSession. reflexivity.
  - apply appendsOnly_still. reflexivity.
Qed.

Section WithCarefulCollaborators.

Hypothesis ensure_keeps : forall r provider, keepsHistories (ensureMemorySessionId r provider).
Hypothesis process_keeps :
  forall text r used ts dir, keepsHistories (processAgentResponse text r used ts dir).
Hypothesis iterator_keeps :
  forall id, keepsHistories (fun st => let '(it, st') := getMessageIterator id st
                                       in (Ok it, st')).

Lemma appendsOnly_initTurn (session : SessionRef) (cfg : GeminiConfig) (mode : Mode) :
  appendsOnly (initTurn session cfg mode).
Proof.
  unfold initTurn.
  apply appendsOnly_bind; [apply appendsOnly_still; reflexivity | intros s].
  apply appendsOnly_bind; [apply appendsOnly_push | intros _].
  apply appendsOnly_bind; [apply appendsOnly_still; reflexivity | intros s'].
  apply appendsOnly_bind; [apply appendsOnly_queryGeminiMultiTurn | intros response].
  apply appendsOnly_bind; [apply appendsOnly_still; reflexivity | intros _].
  apply appendsOnly_bind; [apply appendsOnly_call, ensure_keeps | intros _].
  destruct (nonEmpty (qr_content response)); [|apply appendsOnly_push].
  apply appendsOnly_bind; [apply appendsOnly_recordReply | intros used].
  apply appendsOnly_bind; [apply appendsOnly_still; reflexivity | intros _].
  apply appendsOnly_call, process_keeps.
Qed.

Lemma appendsOnly_processMessage (session : SessionRef) (cfg : GeminiConfig) (mode : Mode)
      (message : PendingMessage) (lastCwd : option string) :
  appendsOnly (processMessage session cfg mode message lastCwd).
Proof.
  unfold processMessage.
  apply appendsOnly_bind; [apply appendsOnly_still; reflexivity | intros s].
  destruct (type message).
  - apply appendsOnly_bind.
    { destruct (prompt_number message); [|apply appendsOnly_still; reflexivity].
      apply appendsOnly_updateSession. reflexivity. }
    intros _. apply appendsOnly_bind; [apply appendsOnly_still; reflexivity | intros w].
    apply appendsOnly_bind; [apply appendsOnly_push | intros _].
    apply appendsOnly_bind; [apply appendsOnly_still; reflexivity | intros s'].
    apply appendsOnly_bind; [apply appendsOnly_queryGeminiMultiTurn | intros response].
    apply appendsOnly_bind; [apply appendsOnly_recordReply | intros used].
    apply appendsOnly_bind; [apply appendsOnly_still; reflexivity | intros _].
    apply appendsOnly_call, process_keeps.
  - apply appendsOnly_bind; [apply appendsOnly_still; reflexivity | intros s'].
    apply appendsOnly_bind; [apply appendsOnly_push | intros _].
    apply appendsOnly_bind; [apply appendsOnly_still; reflexivity | intros s''].
    apply appendsOnly_bind; [apply appendsOnly_queryGeminiMultiTurn | intros response].
    apply appendsOnly_bind; [apply appendsOnly_recordReply | intros used].
    apply appendsOnly_bind; [apply appendsOnly_still; reflexivity | intros _].
    apply appendsOnly_call, process_keeps.
  - apply appendsOnly_still. reflexivity.
Qed.

Lemma appendsOnly_processMessages (session : SessionRef) (cfg : GeminiConfig) (mode : Mode)
      (messages : list PendingMessage) :
  forall lastCwd, appendsOnly (processMessages session cfg mode messages lastCwd).
Proof.
  induction messages as [|message rest IH]; intros lastCwd; cbn [processMessages].
  - apply appendsOnly_still. reflexivity.
  - apply appendsOnly_bind; [apply appendsOnly_still; reflexivity | intros _].
    apply appendsOnly_bind; [apply appendsOnly_processMessage | intros _; apply IH].
Qed.

Lemma appendsOnly_runSession (session : SessionRef) : appendsOnly (runSession session).
Proof.
  unfold runSession.
  apply appendsOnly_bind; [apply appendsOnly_still; reflexivity | intros cfg].
  destruct (negb _); [apply appendsOnly_still; reflexivity|].
  apply appendsOnly_bind; [apply appendsOnly_still; reflexivity | intros w].
  apply appendsOnly_bind; [apply appendsOnly_initTurn | intros _].
  unfold processPending.
  apply appendsOnly_bind; [apply appendsOnly_still; reflexivity | intros s].
  apply appendsOnly_bind; [apply appendsOnly_call, iterator_keeps | intros [messages ending]].
  apply appendsOnly_bind; [apply appendsOnly_processMessages | intros _].
  destruct ending; apply appendsOnly_still; reflexivity.
Qed.

End WithCarefulCollaborators.

(** X10. When the session manager and the response processor drop no turn,
    neither does the Gemini agent: whether the [try] block of [startSession]
    returns or throws, every session's history from before the run is a prefix
    of its history afterwards, so a fallback agent finds all earlier turns in
    place. *)
Theorem runSession_only_appends_turns (session : SessionRef) (w : World) (r : SessionRef) :
  (forall r' provider, keepsHistories (ensureMemorySessionId r' provider)) ->
  (forall text r' used ts dir, keepsHistories (processAgentResponse text r' used ts dir)) ->
  (forall id, keepsHistories (fun st => let '(it, st') := getMessageIterator id st
                                        in (Ok it, st'))) ->
  conversationHistory (sessions w r)
  `prefix_of` conversationHistory (sessions (snd (runSession session w)) r).
Proof. intros He Hp Hi. apply appendsOnly_runSession; assumption. Qed.

End HistoryMore.

Lemma runSession_only_appends_turns_witness :
  let w := demoWorld smallWindowSettings [] (HttpOk (aResponse "<observation/>")) in
  conversationHistory (sessions w 0%nat)
  `prefix_of` conversationHistory (sessions (snd (runSession 0%nat w)) 0%nat).
Proof.
  apply (@runSession_only_appends_turns demoBuiltins demoCollaborators).
  - intros r' provider [h x] r. simpl. destruct (Nat.eqb r r') eqn:Heq; [|reflexivity].
    apply Nat.eqb_eq in Heq. subst r'.
    destruct (memorySessionId (h r)); reflexivity.
  - intros text r' used ts dir st r. reflexivity.
  - intros id st r. reflexivity.
Defined.

(** ** Content and token count of a parsed response *)

Lemma join_empty_iff (l : list string) :
  join l = EmptyString <-> Forall (fun s => s = EmptyString) l.
Proof.
  induction l as [|x l IH]; [split; auto|].
  rewrite join_cons. split.
  - intros Hj. destruct x; [|discriminate]. constructor; [reflexivity|].
    apply IH. exact Hj.
  - intros Hall. inversion Hall as [|? ? Hx Hl]; subst. apply IH. exact Hl.
Qed.

(** X11. The content [parseGeminiResponse] returns is non-empty exactly
    when some part of the first candidate is not a thought and has non-empty
    text; the token count of the response is reported exactly then, and never
    with empty content. *)
Theorem parseGeminiResponse_content_and_tokens (data : GeminiResponse) (m : string) :
  let result := parseGeminiResponse data m in
  (qr_content result <> EmptyString
   <-> exists p, In p (firstParts data) /\ isThought p = false /\ hasText p = true)
  /\ (qr_content result <> EmptyString -> tokensUsed result = totalTokenCount data)
  /\ (qr_content result = EmptyString -> tokensUsed result = None).
Proof.
  cbv zeta. unfold parseGeminiResponse, contentParts.
  set (kept := List.filter (fun p => negb (isThought p) && hasText p) (firstParts data)).
  assert (Hiff : join (map textOf kept) <> EmptyString
                 <-> exists p, In p (firstParts data)
                               /\ isThought p = false /\ hasText p = true).
  { split.
    - intros Hne. destruct kept as [|p rest] eqn:Hk; [exfalso; apply Hne; reflexivity|].
      assert (Hin : In p kept) by (rewrite Hk; left; reflexivity).
      unfold kept in Hin. apply filter_In in Hin as [Hin Hp].
      apply andb_prop in Hp as [Ht Hx]. apply negb_true_iff in Ht. eauto.
    - intros (p & Hin & Ht & Hx) Hempty.
      apply join_empty_iff in Hempty. rewrite Forall_forall in Hempty.
      assert (Hk : In p kept).
      { unfold kept. apply filter_In. split; [exact Hin|]. rewrite Ht, Hx. reflexivity. }
      specialize (Hempty (textOf p)
                         (proj2 (list_elem_of_In _ _) (in_map textOf _ _ Hk))).
      unfold hasText in Hx. unfold textOf in Hempty.
      destruct (text p) as [t|]; [|discriminate]. subst t. discriminate. }
  destruct (0 <? String.length (join (map textOf kept)))%nat eqn:Hlen; simpl.
  - assert (Hne : join (map textOf kept) <> EmptyString).
    { intros Heq. rewrite Heq in Hlen. discriminate. }
    split; [exact Hiff|]. split; [reflexivity | intros Heq; contradiction].
  - apply length_zero_empty in Hlen. split; [|split; [congruence | reflexivity]].
    rewrite <- Hiff, Hlen. reflexivity.
Qed.

(** ** Spawn lock: who gets the lock, and what a failed attempt leaves *)

Section SpawnLockMore.

Import SpawnLock.

(** The lock file holds a record that [acquireSpawnLock] respects: at most
    60 seconds old, of a running process. *)
Definition heldByLiveOwner (h : Host) : bool :=
  match lockFile h with
  | Some (Lock info) => (clock h - timestamp info <=? 60000) && running h (pid info)
  | _ => false
  end.

Lemma checkExisting_held (h : Host) :
  checkExisting h = if heldByLiveOwner h then None else Some (setLockFile None h).
Proof.
  unfold checkExisting, heldByLiveOwner, isProcessRunning, unlinkSync, LOCK_STALE_THRESHOLD_MS.
  destruct h as [[[info|]|] c p r m]; cbn [lockFile clock running]; try reflexivity.
  rewrite Z.ltb_antisym. rewrite <- negb_andb.
  destruct ((c - timestamp info <=? 60000) && r (pid info)); reflexivity.
Qed.

Lemma acquireSpawnLock_run (h : Host) :
  acquireSpawnLock h =
  if heldByLiveOwner h then (false, h)
  else match meanwhile h None with
       | Some other => (false, setLockFile (Some other) h)
       | None => (true, setLockFile
                          (Some (Lock {| pid := ownPid h; timestamp := clock h |})) h)
       end.
Proof.
  unfold acquireSpawnLock. rewrite checkExisting_held.
  destruct (heldByLiveOwner h); [reflexivity|].
  unfold exclusiveCreate. cbn [setLockFile lockFile meanwhile ownPid clock running].
  destruct (meanwhile h None); reflexivity.
Qed.


(** The host as another process sees it: the same lock file, its own clock,
    process id, view of the running processes and competitors. *)
Definition seenBy (other : Host) (h : Host) : Host :=
  {| lockFile := lockFile h; clock := clock other; ownPid := ownPid other;
     running := running other; meanwhile := meanwhile other |}.


End SpawnLockMore.

(** Process 43 looks at the lock 30 seconds later, while process 42 runs. *)
Definition laterHost : SpawnLock.Host :=
{| SpawnLock.lockFile := None;
   SpawnLock.clock := 130000;
   SpawnLock.ownPid := 43;
   SpawnLock.running := fun p => p =? 42;
   SpawnLock.meanwhile := fun f => f |}.


(** ** Project lists hold clean names only *)

Section ProjectListMore.

Import WorkerUtils.

(** A string that does not begin with white space. *)
Definition startsClean (s : string) : Prop :=
  match s with
  | String c _ => JS.isWhiteSpace c = false
  | EmptyString => True
  end.

Lemma skipWhiteSpace_startsClean (s : string) : startsClean (JS.skipWhiteSpace s).
Proof.
  induction s as [|c r IH]; [exact I|]. cbn [JS.skipWhiteSpace].
  destruct (JS.isWhiteSpace c) eqn:Hc; [exact IH | exact Hc].
Qed.

Lemma skipWhiteSpace_clean (s : string) : startsClean s -> JS.skipWhiteSpace s = s.
Proof.
  destruct s as [|c r]; [reflexivity|]. intros Hc. cbn in Hc |- *.
  cbn [JS.skipWhiteSpace]. rewrite Hc. reflexivity.
Qed.

Lemma trimEnd_cons (c : ascii) (r : string) :
  trimEnd (String c r)
  = match trimEnd r with
    | EmptyString => if JS.isWhiteSpace c then EmptyString else String c EmptyString
    | r' => String c r'
    end.
Proof. reflexivity. Qed.

Lemma trimEnd_startsClean (s : string) : startsClean s -> startsClean (trimEnd s).
Proof.
  destruct s as [|c r]; [intros _; exact I|]. intros Hc. cbn in Hc.
  rewrite trimEnd_cons. destruct (trimEnd r); [rewrite Hc|]; exact Hc.
Qed.

Lemma trimEnd_idempotent (s : string) : trimEnd (trimEnd s) = trimEnd s.
Proof.
  induction s as [|c r IH]; [reflexivity|]. rewrite trimEnd_cons.
  destruct (trimEnd r) as [|d r'] eqn:Hr.
  - destruct (JS.isWhiteSpace c) eqn:Hc; [reflexivity|].
    rewrite trimEnd_cons. cbn [trimEnd]. rewrite Hc. reflexivity.
  - rewrite trimEnd_cons, IH. reflexivity.
Qed.

Lemma trim_idempotent (s : string) : trim (trim s) = trim s.
Proof.
  unfold trim.
  rewrite (skipWhiteSpace_clean (trimEnd (JS.skipWhiteSpace s))).
  - apply trimEnd_idempotent.
  - apply trimEnd_startsClean, skipWhiteSpace_startsClean.
Qed.

(** [s.includes(c)] for a single character, one step. *)
Lemma includes_char_cons (c a : ascii) (r : string) :
  JS.includes (String c EmptyString) (String a r)
  = Ascii.eqb c a || JS.includes (String c EmptyString) r.
Proof.
  rewrite includes_cons. f_equal. cbn [String.prefix].
  destruct (Ascii.eqb_spec c a) as [->|Hne].
  - destruct (ascii_dec a a); [|contradiction]. destruct r; reflexivity.
  - destruct (ascii_dec c a); [contradiction | reflexivity].
Qed.

Lemma split_pieces_lack_sep (sep : ascii) (s piece : string) :
  In piece (split sep s) -> JS.includes (String sep EmptyString) piece = false.
Proof.
  revert piece. induction s as [|c r IH]; intros piece Hin.
  - destruct Hin as [<- | []]. reflexivity.
  - cbn [split] in Hin. destruct (Ascii.eqb c sep) eqn:Hc.
    + destruct Hin as [<- | Hin]; [reflexivity | apply IH; exact Hin].
    + destruct (split sep r) as [|x xs].
      * destruct Hin as [<- | []]. rewrite includes_char_cons.
        rewrite Ascii.eqb_sym, Hc. reflexivity.
      * destruct Hin as [<- | Hin].
        -- rewrite includes_char_cons, Ascii.eqb_sym, Hc. apply IH. left. reflexivity.
        -- apply IH. right. exact Hin.
Qed.

Lemma skipWhiteSpace_lacks (n s : string) :
  JS.includes n s = false -> JS.includes n (JS.skipWhiteSpace s) = false.
Proof.
  induction s as [|c r IH]; intros Hs; [exact Hs|]. cbn [JS.skipWhiteSpace].
  destruct (JS.isWhiteSpace c); [|exact Hs].
  apply IH. rewrite includes_cons in Hs. apply orb_false_elim in Hs as [_ Hs]. exact Hs.
Qed.

Lemma trimEnd_lacks (c : ascii) (s : string) :
  JS.includes (String c EmptyString) s = false ->
  JS.includes (String c EmptyString) (trimEnd s) = false.
Proof.
  induction s as [|a r IH]; intros Hs; [exact Hs|].
  rewrite includes_char_cons in Hs. apply orb_false_elim in Hs as [Ha Hr].
  rewrite trimEnd_cons. specialize (IH Hr).
  destruct (trimEnd r) as [|d r'].
  - destruct (JS.isWhiteSpace a); [reflexivity|].
    rewrite includes_char_cons, Ha. reflexivity.
  - rewrite includes_char_cons, Ha. exact IH.
Qed.

Lemma projectList_clean (setting p : string) :
  In p (projectList setting) ->
  p <> EmptyString /\ trim p = p /\ JS.includes "," p = false.
Proof.
  unfold projectList. intros Hin. apply filter_In in Hin as [Hin Hlen].
  apply in_map_iff in Hin as (piece & <- & Hpiece).
  split; [|split].
  - intros Hempty. rewrite Hempty in Hlen. discriminate.
  - apply trim_idempotent.
  - unfold trim. apply trimEnd_lacks, skipWhiteSpace_lacks.
    apply (split_pieces_lack_sep "," setting). exact Hpiece.
Qed.


End ProjectListMore.


(** ** Worker address, caches and the readiness poll *)

Module Worker.

(** The settings file as [worker-utils] reads it: the settings above and the
    two of the worker's address. *)
Record SettingsFile : Type := {
  agentSettings : Settings;
  CLAUDE_MEM_WORKER_PORT : string;
  CLAUDE_MEM_WORKER_HOST : string
}.

(** The four module level caches; [Some None] is a cached [NaN]. *)
Record Caches : Type := {
  cachedPort : option (option Z);
  cachedHost : option string;
  projectCaches : WorkerUtils.Cache
}.

(** [parseInt(s, 10)]: no hexadecimal prefix. *)
Definition parseInt10 (s : string) : option Z :=
  match JS.skipWhiteSpace s with
  | String c r =>
      if Ascii.eqb c "-" then option_map (fun p => Z.opp (fst p)) (JS.readDigits 0 false r)
      else if Ascii.eqb c "+" then option_map fst (JS.readDigits 0 false r)
      else option_map fst (JS.readDigits 0 false (String c r))
  | EmptyString => None
  end.

Definition getWorkerPort (file : SettingsFile) (c : Caches) : option Z * Caches :=
  match cachedPort c with
  | Some port => (port, c)
  | None =>
      let port := parseInt10 (CLAUDE_MEM_WORKER_PORT file) in
      (port, {| cachedPort := Some port; cachedHost := cachedHost c;
                projectCaches := projectCaches c |})
  end.

Definition getWorkerHost (file : SettingsFile) (c : Caches) : string * Caches :=
  match cachedHost c with
  | Some host => (host, c)
  | None =>
      let host := CLAUDE_MEM_WORKER_HOST file in
      (host, {| cachedPort := cachedPort c; cachedHost := Some host;
                projectCaches := projectCaches c |})
  end.

Definition clearPortCache (c : Caches) : Caches :=
  {| cachedPort := None; cachedHost := None;
     projectCaches := {| WorkerUtils.cachedAllowedProjectsOnly := None;
                         WorkerUtils.cachedIgnoredProjects := None |} |}.

(** [isProjectIgnored] on the caches of the module. *)
Definition isProjectIgnored (projectNames : list string) (file : SettingsFile) (c : Caches)
  : bool * Caches :=
  let '(ignored, p) :=
    WorkerUtils.isProjectIgnored projectNames (agentSettings file) (projectCaches c) in
  (ignored, {| cachedPort := cachedPort c; cachedHost := cachedHost c;
               projectCaches := p |}).

(** What a request meets: the promise of [fetch] rejects, or a response
    arrives; [json] is what [response.json()] gives: the value it throws, or
    the [version] field of the data, [None] when that is undefined. *)
Inductive Response : Type :=
| Refused (reason : Thrown)
| Responded (ok : bool) (status : Z) (json : Thrown + option string).

(** The surroundings of one run of [ensureWorkerRunning]: the settings file,
    the answers the requests of poll [i] meet, and what reading the [version]
    of [package.json] gives in poll [i] (the value thrown, or the field). *)
Record Env : Type := {
  settingsFile : SettingsFile;
  readiness : nat -> Response;
  versionReply : nat -> Response;
  packageJson : nat -> Thrown + option string
}.

Inductive LogLine : Type :=
| VersionCheck (pluginVersion workerVersion : option string)
| HealthCheckFailed (attempt : nat) (message : string).

(** A request: the port put into the URL, and the path. *)
Record Get : Type := { port : option Z; path : string }.

Record State : Type := {
  caches : Caches;
  slept : Z;                   (* milliseconds spent in [setTimeout] *)
  gets : list Get;             (* requests, newest first *)
  debug : list LogLine         (* [logger.debug] lines, newest first *)
}.

Definition setCaches (c : Caches) (st : State) : State :=
  {| caches := c; slept := slept st; gets := gets st; debug := debug st |}.

(** [fetch] of a path of the worker, up to the answer. *)
Definition request (env : Env) (p : string) (st : State) : State :=
  let '(n, c) := getWorkerPort (settingsFile env) (caches st) in
  {| caches := c; slept := slept st; gets := {| port := n; path := p |} :: gets st;
     debug := debug st |}.

Definition logDebug (line : LogLine) (st : State) : State :=
  {| caches := caches st; slept := slept st; gets := gets st; debug := line :: debug st |}.

Definition sleep (ms : Z) (st : State) : State :=
  {| caches := caches st; slept := slept st + ms; gets := gets st; debug := debug st |}.

(** A function that throws returns the thrown value on the left. *)
Definition isWorkerHealthy (env : Env) (i : nat) (st : State) : (Thrown + bool) * State :=
  let st1 := request env "/api/readiness" st in
  match readiness env i with
  | Refused reason => (inl reason, st1)
  | Responded ok _ _ => (inr ok, st1)
  end.

Definition getPluginVersion (env : Env) (i : nat) : Thrown + option string :=
  packageJson env i.

Definition getWorkerVersion (env : Env) (i : nat) (st : State)
  : (Thrown + option string) * State :=
  let st1 := request env "/api/version" st in
  match versionReply env i with
  | Refused reason => (inl reason, st1)
  | Responded false status _ =>
      (inl (ErrorObject "Error" ("Failed to get worker version: " +:+ pretty status)), st1)
  | Responded true _ json => (json, st1)
  end.

(** [a === b] on values that are strings or undefined. *)
Definition sameVersion (a b : option string) : bool :=
  match a, b with
  | Some x, Some y => String.eqb x y
  | None, None => true
  | _, _ => false
  end.

Definition checkWorkerVersion (env : Env) (i : nat) (st : State) : (Thrown + unit) * State :=
  match getPluginVersion env i with
  | inl e => (inl e, st)
  | inr pluginVersion =>
      match getWorkerVersion env i st with
      | (inl e, st1) => (inl e, st1)
      | (inr workerVersion, st1) =>
          if sameVersion pluginVersion workerVersion then (inr tt, st1)
          else (inr tt, logDebug (VersionCheck pluginVersion workerVersion) st1)
      end
  end.

(** The body of the [try] in the loop: [inr true] is its [return]. *)
Definition tryReady (env : Env) (i : nat) (st : State) : (Thrown + bool) * State :=
  match isWorkerHealthy env i st with
  | (inl e, st1) => (inl e, st1)
  | (inr false, st1) => (inr false, st1)
  | (inr true, st1) =>
      match checkWorkerVersion env i st1 with
      | (inl e, st2) => (inl e, st2)
      | (inr _, st2) => (inr true, st2)
      end
  end.

Definition maxRetries : nat := 150.
Definition pollInterval : Z := 200.

(** [e instanceof Error ? e.message : String(e)] *)
Definition messageOf (e : Thrown) : string :=
  match e with
  | ErrorObject _ message => message
  | OtherValue shown => shown
  end.

(** The [for] loop from poll [i] on, with [left] polls still to go; [true]
    is the [return] inside the loop. *)
Fixpoint pollFrom (env : Env) (left : nat) (i : nat) (st : State) : bool * State :=
  match left with
  | O => (false, st)
  | S left' =>
      match tryReady env i st with
      | (inr true, st1) => (true, st1)
      | (inr false, st1) => pollFrom env left' (S i) (sleep pollInterval st1)
      | (inl e, st1) =>
          pollFrom env left' (S i)
                   (sleep pollInterval (logDebug (HealthCheckFailed (S i) (messageOf e)) st1))
      end
  end.

Definition NOT_READY : Thrown :=
  ErrorObject "Error" "Worker did not become ready within 30 seconds.".

(** The text of [getWorkerRestartInstructions] is outside the modelled
    files; the error carries its prefix. *)
Definition ensureWorkerRunning (env : Env) (st : State) : Result unit * State :=
  match pollFrom env maxRetries 0 st with
  | (true, st1) => (Ok tt, st1)
  | (false, st1) =>
      (Throw NOT_READY, setCaches (snd (getWorkerPort (settingsFile env) (caches st1))) st1)
  end.

(** *** The summarize handler of the Stop hook *)

Record NormalizedHookInput : Type := {
  sessionId : string;
  cwd : option string;
  transcriptPath : option string
}.

Record HookResult : Type := {
  continue : bool;
  suppressOutput : bool
}.

(** The body of the summary request. *)
Record Post : Type := {
  postPort : option Z;
  postPath : string;
  contentSessionId : string;
  last_assistant_message : string
}.

(** What the handler meets besides the worker: the working directory of the
    process, the projects [getProjectContext] finds for a directory, what
    [extractLastMessage] reads from a transcript (or throws), and the answer
    to the summary request. *)
Record Hook : Type := {
  env : Env;
  processCwd : string;
  allProjects : string -> list string;
  extractLastMessage : string -> Thrown + string;
  summarizeReply : Response
}.

(** [x || d] on a string that may be undefined. *)
Definition orElse (x : option string) (d : string) : string :=
  match x with
  | Some (String c r) => String c r
  | _ => d
  end.

Definition missingTranscript (session : string) : Thrown :=
  ErrorObject "Error" ("Missing transcriptPath in Stop hook input for session " +:+ session).

Definition execute (hook : Hook) (input : NormalizedHookInput) (st : State)
  : Result HookResult * (State * list Post) :=
  match ensureWorkerRunning (env hook) st with
  | (Throw e, st1) => (Throw e, (st1, []))
  | (Ok _, st1) =>
      let projects := allProjects hook (orElse (cwd input) (processCwd hook)) in
      let '(ignored, c2) :=
        isProjectIgnored projects (settingsFile (env hook)) (caches st1) in
      let st2 := setCaches c2 st1 in
      if ignored then (Ok {| continue := true; suppressOutput := true |}, (st2, []))
      else
        let '(workerPort, c3) := getWorkerPort (settingsFile (env hook)) (caches st2) in
        let st3 := setCaches c3 st2 in
        match transcriptPath input with
        | Some (String c r) =>
            match extractLastMessage hook (String c r) with
            | inl e => (Throw e, (st3, []))
            | inr lastAssistantMessage =>
                let post := {| postPort := workerPort;
                               postPath := "/api/sessions/summarize";
                               contentSessionId := sessionId input;
                               last_assistant_message := lastAssistantMessage |} in
                match summarizeReply hook with
                | Refused reason => (Throw reason, (st3, [post]))
                | Responded false _ _ =>
                    (Ok {| continue := true; suppressOutput := true |}, (st3, [post]))
                | Responded true _ _ =>
                    (Ok {| continue := true; suppressOutput := true |}, (st3, [post]))
                end
            end
        | _ => (Throw (missingTranscript (sessionId input)), (st3, []))
        end
  end.

End Worker.

(** ** The caches answer from the first reading *)

Section CacheFacts.

Import Worker.

(** The lists a call works with: the cached ones, or those of the file. *)
Definition allowedOf (st : Settings) (c : WorkerUtils.Cache) : list string :=
  fst (WorkerUtils.getAllowedProjectsOnly st c).

Definition ignoredOf (st : Settings) (c : WorkerUtils.Cache) : list string :=
  fst (WorkerUtils.getIgnoredProjects st c).

Definition verdict (names allowed ignored : list string) : bool :=
  if (0 <? length allowed)%nat
  then negb (existsb (fun name => WorkerUtils.includes name allowed) names)
  else if (0 <? length ignored)%nat
       then existsb (fun name => WorkerUtils.includes name ignored) names
       else false.

Lemma isProjectIgnored_run (names : list string) (st : Settings) (c : WorkerUtils.Cache) :
  WorkerUtils.isProjectIgnored names st c
  = (verdict names (allowedOf st c) (ignoredOf st c),
     {| WorkerUtils.cachedAllowedProjectsOnly := Some (allowedOf st c);
        WorkerUtils.cachedIgnoredProjects := Some (ignoredOf st c) |}).
Proof.
  unfold WorkerUtils.isProjectIgnored, verdict, allowedOf, ignoredOf,
    WorkerUtils.getAllowedProjectsOnly, WorkerUtils.getIgnoredProjects.
  destruct c as [[allowed|] [ignored|]];
    cbn [WorkerUtils.cachedAllowedProjectsOnly WorkerUtils.cachedIgnoredProjects fst snd].
  - destruct (0 <? length allowed)%nat; [reflexivity|].
    destruct (0 <? length ignored)%nat; reflexivity.
  - destruct (0 <? length allowed)%nat; [reflexivity|].
    destruct (0 <? length _)%nat; reflexivity.
  - destruct (0 <? length _)%nat; [reflexivity|].
    destruct (0 <? length ignored)%nat; reflexivity.
  - destruct (0 <? length _)%nat; [reflexivity|].
    destruct (0 <? length _)%nat; reflexivity.
Qed.

Lemma isProjectIgnored_warm (names0 names : list string) (first later : Settings)
      (c : WorkerUtils.Cache) :
  WorkerUtils.isProjectIgnored names later
    (snd (WorkerUtils.isProjectIgnored names0 first c))
  = (fst (WorkerUtils.isProjectIgnored names first c),
     snd (WorkerUtils.isProjectIgnored names0 first c)).
Proof. rewrite !isProjectIgnored_run. reflexivity. Qed.

(** X15. Each of the four getters answers, on every call after its first,
    what the first call read, whatever the settings file says by then, and so
    does [isProjectIgnored]; the later call leaves the caches as they are.
    After [clearPortCache] all of them read the file again. *)
Theorem caches_answer_from_first_reading (first later : SettingsFile) (c : Caches)
        (names0 names : list string) :
  getWorkerPort later (snd (getWorkerPort first c)) = getWorkerPort first c
  /\ getWorkerHost later (snd (getWorkerHost first c)) = getWorkerHost first c
  /\ isProjectIgnored names later (snd (isProjectIgnored names0 first c))
     = (fst (isProjectIgnored names first c), snd (isProjectIgnored names0 first c))
  /\ fst (getWorkerPort later (clearPortCache c)) = parseInt10 (CLAUDE_MEM_WORKER_PORT later)
  /\ fst (getWorkerHost later (clearPortCache c)) = CLAUDE_MEM_WORKER_HOST later
  /\ fst (isProjectIgnored names later (clearPortCache c))
     = fst (WorkerUtils.isProjectIgnored names (agentSettings later)
              {| WorkerUtils.cachedAllowedProjectsOnly := None;
                 WorkerUtils.cachedIgnoredProjects := None |}).
Proof.
  split; [|split; [|split; [|split; [|split]]]].
  - unfold getWorkerPort. destruct (cachedPort c) as [port|] eqn:Hc; cbn.
    + rewrite Hc. reflexivity.
    + reflexivity.
  - unfold getWorkerHost. destruct (cachedHost c) as [host|] eqn:Hc; cbn.
    + rewrite Hc. reflexivity.
    + reflexivity.
  - unfold isProjectIgnored.
    pose proof (isProjectIgnored_warm names0 names (agentSettings first)
                  (agentSettings later) (projectCaches c)) as Hwarm.
    destruct (WorkerUtils.isProjectIgnored names0 (agentSettings first) (projectCaches c))
      as [i0 p0].
    destruct (WorkerUtils.isProjectIgnored names (agentSettings first) (projectCaches c))
      as [i1 p1].
    cbn in Hwarm |- *. rewrite Hwarm. reflexivity.
  - reflexivity.
  - reflexivity.
  - unfold isProjectIgnored, clearPortCache. cbn [projectCaches].
    destruct (WorkerUtils.isProjectIgnored names (agentSettings later) _). reflexivity.
Qed.

End CacheFacts.

(** ** The readiness poll *)

Section PollFacts.

Import Worker.

(** Poll [i] finds the worker ready: the readiness request is answered with
    an ok status, [package.json] can be read, and the version request is
    answered with an ok status and a body that parses. *)
Definition readyAt (env : Env) (i : nat) : bool :=
  match readiness env i, packageJson env i, versionReply env i with
  | Responded true _ _, inr _, Responded true _ (inr _) => true
  | _, _, _ => false
  end.

(** The readiness requests among the requests made. *)
Definition readinessGets (st : State) : nat :=
  length (List.filter (fun g => String.eqb (path g) "/api/readiness") (gets st)).

Lemma request_readiness (env : Env) (st : State) :
  slept (request env "/api/readiness" st) = slept st
  /\ readinessGets (request env "/api/readiness" st) = S (readinessGets st).
Proof.
  unfold request. destruct (getWorkerPort _ _). split; reflexivity.
Qed.

Lemma request_version (env : Env) (st : State) :
  slept (request env "/api/version" st) = slept st
  /\ readinessGets (request env "/api/version" st) = readinessGets st.
Proof.
  unfold request. destruct (getWorkerPort _ _). split; reflexivity.
Qed.

Lemma checkWorkerVersion_frame (env : Env) (i : nat) (st : State) :
  slept (snd (checkWorkerVersion env i st)) = slept st
  /\ readinessGets (snd (checkWorkerVersion env i st)) = readinessGets st.
Proof.
  unfold checkWorkerVersion, getPluginVersion, getWorkerVersion.
  destruct (request_version env st) as [Hs Hg].
  destruct (packageJson env i) as [e | pluginVersion]; [split; reflexivity|].
  destruct (versionReply env i) as [reason | [|] status [e | workerVersion]];
    try (split; assumption).
  destruct (sameVersion pluginVersion workerVersion); split; assumption.
Qed.

Lemma tryReady_frame (env : Env) (i : nat) (st : State) :
  slept (snd (tryReady env i st)) = slept st
  /\ readinessGets (snd (tryReady env i st)) = S (readinessGets st).
Proof.
  unfold tryReady, isWorkerHealthy.
  destruct (request_readiness env st) as [Hs Hg].
  destruct (readiness env i) as [reason | [|] status json]; try (split; assumption).
  pose proof (checkWorkerVersion_frame env i (request env "/api/readiness" st)) as [Hs' Hg'].
  destruct (checkWorkerVersion env i _) as [[e | u] st2]; cbn in *; split; congruence.
Qed.

Lemma tryReady_result (env : Env) (i : nat) (st : State) :
  fst (tryReady env i st) = inr true <-> readyAt env i = true.
Proof.
  unfold tryReady, isWorkerHealthy, checkWorkerVersion, getPluginVersion, getWorkerVersion,
    readyAt.
  destruct (readiness env i) as [reason | [|] status json]; cbn;
    try (split; discriminate).
  destruct (packageJson env i) as [e | pluginVersion]; cbn; [split; discriminate|].
  destruct (versionReply env i) as [reason | [|] status' [e | workerVersion]]; cbn;
    try (split; discriminate).
  destruct (sameVersion pluginVersion workerVersion); cbn; split; reflexivity.
Qed.

Lemma sleep_frame (ms : Z) (st : State) :
  slept (sleep ms st) = slept st + ms /\ readinessGets (sleep ms st) = readinessGets st.
Proof. split; reflexivity. Qed.

(** The loop over polls that are not ready. *)
Lemma pollFrom_not_ready (env : Env) (k : nat) :
  forall left i st,
    (forall j, (i <= j < i + k)%nat -> readyAt env j = false) ->
    exists st',
      pollFrom env (k + left) i st = pollFrom env left (i + k)%nat st'
      /\ slept st' = slept st + 200 * Z.of_nat k
      /\ readinessGets st' = (readinessGets st + k)%nat.
Proof.
  induction k as [|k IH]; intros left i st Hnot.
  - exists st. rewrite Nat.add_0_r, Z.mul_0_r, Z.add_0_r, Nat.add_0_r. auto.
  - cbn [Nat.add pollFrom].
    pose proof (tryReady_frame env i st) as [Hs Hg].
    pose proof (tryReady_result env i st) as Hres.
    rewrite (Hnot i) in Hres by lia.
    destruct (tryReady env i st) as [[e | [|]] st1]; cbn in Hs, Hg, Hres.
    + edestruct (IH left (S i)
                    (sleep pollInterval (logDebug (HealthCheckFailed (S i) (messageOf e)) st1)))
        as (st' & Hrun & Hslept & Hgets).
      { intros j Hj. apply Hnot. lia. }
      exists st'. rewrite Hrun. split; [f_equal; lia|].
      rewrite Hslept, Hgets. cbn. unfold pollInterval. rewrite Hs.
      unfold readinessGets in Hg |- *. cbn. rewrite Hg. split; lia.
    + exfalso. destruct Hres as [Hres _]. specialize (Hres eq_refl). discriminate.
    + edestruct (IH left (S i) (sleep pollInterval st1)) as (st' & Hrun & Hslept & Hgets).
      { intros j Hj. apply Hnot. lia. }
      exists st'. rewrite Hrun. split; [f_equal; lia|].
      rewrite Hslept, Hgets. cbn. unfold pollInterval. rewrite Hs.
      unfold readinessGets in Hg |- *. cbn. rewrite Hg. split; lia.
Qed.

(** X16. [ensureWorkerRunning] returns at the first of its 150 polls that
    finds the worker ready, having slept 200 ms after each earlier poll; a
    ready worker whose version cannot be fetched, or a [package.json] that
    cannot be read, counts as not ready, while a version that differs does
    not.  When no poll finds the worker ready it throws after 150 readiness
    requests and 30 seconds of sleep. *)
Theorem ensureWorkerRunning_returns_at_first_ready_poll (env : Env) (st : State) :
  (forall i,
      (i < 150)%nat ->
      readyAt env i = true ->
      (forall j, (j < i)%nat -> readyAt env j = false) ->
      fst (ensureWorkerRunning env st) = Ok tt
      /\ slept (snd (ensureWorkerRunning env st)) = slept st + 200 * Z.of_nat i
      /\ readinessGets (snd (ensureWorkerRunning env st)) = (readinessGets st + i + 1)%nat)
  /\ ((forall i, (i < 150)%nat -> readyAt env i = false) ->
      fst (ensureWorkerRunning env st) = Throw NOT_READY
      /\ slept (snd (ensureWorkerRunning env st)) = slept st + 30000
      /\ readinessGets (snd (ensureWorkerRunning env st)) = (readinessGets st + 150)%nat).
Proof.
  split.
  - intros i Hi Hready Hfirst. unfold ensureWorkerRunning, maxRetries.
    destruct (pollFrom_not_ready env i (150 - i) 0 st) as (st' & Hrun & Hslept & Hgets).
    { intros j Hj. apply Hfirst. lia. }
    replace (i + (150 - i))%nat with 150%nat in Hrun by lia. rewrite Hrun.
    destruct (150 - i)%nat as [|left] eqn:Hleft; [lia|]. cbn [pollFrom Nat.add].
    pose proof (tryReady_frame env i st') as [Hs Hg].
    pose proof (tryReady_result env i st') as [_ Hres]. specialize (Hres Hready).
    destruct (tryReady env i st') as [[e | [|]] st1]; cbn in Hs, Hg, Hres;
      try discriminate.
    cbn. rewrite Hs, Hg, Hslept, Hgets. split; [reflexivity|]. split; lia.
  - intros Hnever. unfold ensureWorkerRunning, maxRetries.
    destruct (pollFrom_not_ready env 150 0 0 st) as (st' & Hrun & Hslept & Hgets).
    { intros j Hj. apply Hnever. lia. }
    change (150 + 0)%nat with 150%nat in Hrun. rewrite Hrun. cbn [pollFrom].
    cbn. split; [reflexivity|]. unfold readinessGets in Hgets |- *. cbn.
    rewrite Hslept, Hgets. split; [lia | reflexivity].
Qed.

End PollFacts.

Definition demoFile : Worker.SettingsFile :=
{| Worker.agentSettings := whitelistSettings;
   Worker.CLAUDE_MEM_WORKER_PORT := "37777";
   Worker.CLAUDE_MEM_WORKER_HOST := "127.0.0.1" |}.

(** A worker that refuses the first connection, answers 503 to the second
    poll and is ready from the third on, with a version other than the
    plugin's. *)
Definition startingWorker : Worker.Env :=
{| Worker.settingsFile := demoFile;
   Worker.readiness := fun i =>
     match i with
     | O => Worker.Refused (ErrorObject "TypeError" "fetch failed")
     | S O => Worker.Responded false 503 (inr None)
     | _ => Worker.Responded true 200 (inr None)
     end;
   Worker.versionReply := fun _ => Worker.Responded true 200 (inr (Some "9.0.1"));
   Worker.packageJson := fun _ => inr (Some "9.0.2") |}.

Definition coldState : Worker.State :=
{| Worker.caches := {| Worker.cachedPort := None; Worker.cachedHost := None;
                       Worker.projectCaches := emptyCache |};
   Worker.slept := 0;
   Worker.gets := [];
   Worker.debug := [] |}.

Lemma ensureWorkerRunning_returns_at_first_ready_poll_witness :
  fst (Worker.ensureWorkerRunning startingWorker coldState) = Ok tt
  /\ Worker.slept (snd (Worker.ensureWorkerRunning startingWorker coldState)) = 400
  /\ readinessGets (snd (Worker.ensureWorkerRunning startingWorker coldState)) = 3%nat.
Proof.
  destruct (ensureWorkerRunning_returns_at_first_ready_poll startingWorker coldState)
    as (Hfirst & _).
  apply (Hfirst 2%nat).
  - lia.
  - reflexivity.
  - intros [|[|j]] Hj; [reflexivity | reflexivity | lia].
Defined.

Example version_mismatch_is_only_logged :
  Worker.debug (snd (Worker.ensureWorkerRunning startingWorker coldState))
  = [ Worker.VersionCheck (Some "9.0.2") (Some "9.0.1");
      Worker.HealthCheckFailed 1 "fetch failed" ].
Proof. vm_compute. reflexivity. Qed.

(** ** The summarize handler *)

Section SummarizeFacts.

Import Worker.

Definition standardResult : HookResult := {| continue := true; suppressOutput := true |}.

(** X17. The summarize handler sends at most one summary request, for the
    session of its input, and only after the worker was found ready and the
    project found not ignored; for an ignored project it returns the standard
    result without a request, also when the input has no transcript path.
    An answer with an error status gives the standard result like any other
    answer; the handler never returns anything else. *)
Theorem summarize_posts_once_after_checks (hook : Hook) (input : NormalizedHookInput)
        (st : State) :
  let out := execute hook input st in
  let ready := ensureWorkerRunning (env hook) st in
  let ignored :=
    fst (isProjectIgnored (allProjects hook (orElse (cwd input) (processCwd hook)))
           (settingsFile (env hook)) (caches (snd ready))) in
  (forall result, fst out = Ok result -> result = standardResult)
  /\ (snd (snd out) = []
      \/ exists post,
           snd (snd out) = [post]
           /\ contentSessionId post = sessionId input
           /\ postPath post = "/api/sessions/summarize"
           /\ fst ready = Ok tt /\ ignored = false)
  /\ (fst ready = Ok tt -> ignored = true ->
      fst out = Ok standardResult /\ snd (snd out) = [])
  /\ (forall ok status json p message,
         fst ready = Ok tt -> ignored = false ->
         transcriptPath input = Some p -> p <> EmptyString ->
         extractLastMessage hook p = inr message ->
         summarizeReply hook = Responded ok status json ->
         fst out = Ok standardResult
         /\ exists post, snd (snd out) = [post] /\ last_assistant_message post = message).
Proof.
  cbv zeta. unfold execute.
  destruct (ensureWorkerRunning (env hook) st) as [[[] | e] st1]; cbn [fst snd].
  2:{ split; [discriminate|]. split; [left; reflexivity|].
      split; [discriminate|]. intros; discriminate. }
  destruct (isProjectIgnored _ _ (caches st1)) as [[|] c2]; cbn [fst snd].
  { split; [intros result [= <-]; reflexivity|]. split; [left; reflexivity|].
    split; [auto|]. intros; discriminate. }
  destruct (getWorkerPort _ _) as [workerPort c3].
  destruct (transcriptPath input) as [[|c r]|] eqn:Hpath; cbn [fst snd].
  - split; [discriminate|]. split; [left; reflexivity|]. split; [discriminate|].
    intros ok status json p message _ _ [= <-] Hp. contradiction.
  - destruct (extractLastMessage hook (String c r)) as [e | m] eqn:Hextract; cbn [fst snd].
    + split; [discriminate|]. split; [left; reflexivity|]. split; [discriminate|].
      intros ok status json p message _ _ [= <-] _ Hm. congruence.
    + destruct (summarizeReply hook) as [reason | [|] status json] eqn:Hreply; cbn [fst snd].
      * split; [discriminate|].
        split; [right; eexists; repeat split|]. split; [discriminate|]. intros; discriminate.
      * split; [intros result [= <-]; reflexivity|].
        split; [right; eexists; repeat split|]. split; [discriminate|].
        intros ok status' json' p message _ _ [= <-] _ Hm _.
        split; [reflexivity|]. eexists. split; [reflexivity|]. cbn. congruence.
      * split; [intros result [= <-]; reflexivity|].
        split; [right; eexists; repeat split|]. split; [discriminate|].
        intros ok status' json' p message _ _ [= <-] _ Hm _.
        split; [reflexivity|]. eexists. split; [reflexivity|]. cbn. congruence.
  - split; [discriminate|]. split; [left; reflexivity|]. split; [discriminate|].
    intros; discriminate.
Qed.

End SummarizeFacts.

(** A Stop hook in an ignored project whose input has no transcript path. *)
Definition ignoredProjectHook : Worker.Hook :=
{| Worker.env := startingWorker;
   Worker.processCwd := "/home/dev/delta";
   Worker.allProjects := fun _ => [ "delta" ];
   Worker.extractLastMessage := fun _ => inr "done";
   Worker.summarizeReply := Worker.Responded false 500 (inr None) |}.

Definition bareInput : Worker.NormalizedHookInput :=
{| Worker.sessionId := "s-1"; Worker.cwd := None; Worker.transcriptPath := None |}.

Lemma summarize_posts_once_after_checks_witness :
  fst (Worker.execute ignoredProjectHook bareInput coldState) = Ok standardResult
  /\ snd (snd (Worker.execute ignoredProjectHook bareInput coldState)) = [].
Proof.
  destruct (summarize_posts_once_after_checks ignoredProjectHook bareInput coldState)
    as (_ & _ & Hignored & _).
  apply Hignored; reflexivity.
Defined.

(** ** Smart install: dependencies, version marker and shell alias *)

Module SmartInstall.

(** What the script finds on the machine it runs on. *)
Record Platform : Type := {
  IS_WINDOWS : bool;                                (* [process.platform === 'win32'] *)
  homedir : string;
  CLAUDE_MEM_MARKETPLACE_VENDOR : option string;    (* environment variables *)
  USERPROFILE : option string;
  join : list string -> string                      (* [path.join] *)
}.

(** Lines the script prints with [console.error]. *)
Inductive Line : Type :=
| FallingBackToNpm
| CouldNotAddAlias (message : string)
| UseDirectly (bunPath cli : string).

Record Machine : Type := {
  files : gmap string string;          (* files by path; a directory has an entry too *)
  versions : string -> option string;  (* stdout of [<command> --version] when it
                                          exits with status 0 *)
  denied : string -> option Thrown;    (* what [writeFileSync] to a path throws *)
  isoTime : string;                    (* [new Date().toISOString()] *)
  ran : list string;                   (* commands run by [execSync], newest first *)
  stderr : list Line                   (* newest first *)
}.

Definition setFiles (f : gmap string string) (m : Machine) : Machine :=
  {| files := f; versions := versions m; denied := denied m; isoTime := isoTime m;
     ran := ran m; stderr := stderr m |}.

Definition print (line : Line) (m : Machine) : Machine :=
  {| files := files m; versions := versions m; denied := denied m; isoTime := isoTime m;
     ran := ran m; stderr := line :: stderr m |}.

(** [x || d] on a string that may be undefined. *)
Definition orDefault (x : option string) (d : string) : string :=
  match x with
  | Some (String c r) => String c r
  | _ => d
  end.

Definition dquote : string := String (ascii_of_nat 34) EmptyString.
Definition newline : string := String (ascii_of_nat 10) EmptyString.

(** [e instanceof Error ? e.message : String(e)] *)
Definition messageOf (e : Thrown) : string :=
  match e with
  | ErrorObject _ message => message
  | OtherValue shown => shown
  end.

(** [a === b] on values that [JSON.parse] made, or [undefined]; two objects
    or arrays of different parses are never the same. *)
Definition strictEq (a b : option JSON) : bool :=
  match a, b with
  | None, None => true
  | Some JNull, Some JNull => true
  | Some (JBool x), Some (JBool y) => Bool.eqb x y
  | Some (JNumber x), Some (JNumber y) => Qeq_bool x y
  | Some (JString x), Some (JString y) => String.eqb x y
  | _, _ => false
  end.

(** [v.k]: [None] is the [TypeError] of reading a property of [null]. *)
Definition member (v : JSON) (k : string) : option (option JSON) :=
  match v with
  | JNull => None
  | JObject fields => Some (Retry.field k fields)
  | _ => Some None
  end.

(** A string or [null] as a JSON value. *)
Definition nullable (x : option string) : JSON :=
  match x with
  | Some s => JString s
  | None => JNull
  end.

Section Script.

Context `{!Builtins}.

Variable pf : Platform.

(** [execSync]: what running a command throws, if anything, and the machine
    it leaves. *)
Variable execSync : string -> Machine -> option Thrown * Machine.

Definition MARKETPLACE_VENDOR : string :=
  orDefault (CLAUDE_MEM_MARKETPLACE_VENDOR pf) "enzo-claude-mem".

Definition ROOT : string :=
  join pf [homedir pf; ".claude"; "plugins"; "marketplaces"; MARKETPLACE_VENDOR].

Definition MARKER : string := join pf [ROOT; ".install-version"].

Definition BUN_COMMON_PATHS : list string :=
  if IS_WINDOWS pf then [join pf [homedir pf; ".bun"; "bin"; "bun.exe"]]
  else [join pf [homedir pf; ".bun"; "bin"; "bun"]; "/usr/local/bin/bun";
        "/opt/homebrew/bin/bun"].

Definition UV_COMMON_PATHS : list string :=
  if IS_WINDOWS pf
  then [join pf [homedir pf; ".local"; "bin"; "uv.exe"];
        join pf [homedir pf; ".cargo"; "bin"; "uv.exe"]]
  else [join pf [homedir pf; ".local"; "bin"; "uv"];
        join pf [homedir pf; ".cargo"; "bin"; "uv"];
        "/usr/local/bin/uv"; "/opt/homebrew/bin/uv"].

Definition existsSync (m : Machine) (p : string) : bool :=
  match files m !! p with
  | Some _ => true
  | None => false
  end.

(** [paths.find(existsSync) || null] *)
Definition findExisting (m : Machine) (paths : list string) : option string :=
  match List.find (existsSync m) paths with
  | Some (String c r) => Some (String c r)
  | _ => None
  end.

Definition getBunPath (m : Machine) : option string :=
  match versions m "bun" with
  | Some _ => Some "bun"
  | None => findExisting m BUN_COMMON_PATHS
  end.

Definition isBunInstalled (m : Machine) : bool :=
  match getBunPath m with
  | Some _ => true
  | None => false
  end.

Definition getBunVersion (m : Machine) : option string :=
  match getBunPath m with
  | None | Some EmptyString => None
  | Some bunPath => option_map WorkerUtils.trim (versions m bunPath)
  end.

Definition getUvPath (m : Machine) : option string :=
  match versions m "uv" with
  | Some _ => Some "uv"
  | None => findExisting m UV_COMMON_PATHS
  end.

Definition isUvInstalled (m : Machine) : bool :=
  match getUvPath m with
  | Some _ => true
  | None => false
  end.

Definition getUvVersion (m : Machine) : option string :=
  match getUvPath m with
  | None | Some EmptyString => None
  | Some uvPath => option_map WorkerUtils.trim (versions m uvPath)
  end.

(** [execSync] with the command noted; with [stdio] set to ['pipe'] or
    ['ignore'] the command prints nothing of its own. *)
Definition run (command : string) (m : Machine) : option Thrown * Machine :=
  let '(thrown, m') := execSync command m in
  (thrown, {| files := files m'; versions := versions m'; denied := denied m';
              isoTime := isoTime m'; ran := command :: ran m; stderr := stderr m |}).

(** Reading a file that exists is taken to succeed; writing throws what the
    machine says. *)
Definition writeFileSync (p text : string) (m : Machine) : option Thrown * Machine :=
  match denied m p with
  | Some e => (Some e, m)
  | None => (None, setFiles (<[p := text]> (files m)) m)
  end.

(** The errors of the runtime; their texts are the runtime's own. *)
Definition ENOENT (p : string) : Thrown :=
  ErrorObject "Error" ("ENOENT: no such file or directory, open '" +:+ p +:+ "'").
Definition SYNTAX_ERROR : Thrown := ErrorObject "SyntaxError" "JSON.parse".
Definition TYPE_ERROR : Thrown := ErrorObject "TypeError" "property of null".

(** [JSON.parse(readFileSync(p, 'utf-8'))] *)
Definition readJson (m : Machine) (p : string) : Thrown + JSON :=
  match files m !! p with
  | None => inl (ENOENT p)
  | Some text =>
      match JSON_parse text with
      | Some v => inr v
      | None => inl SYNTAX_ERROR
      end
  end.

Definition needsInstall (m : Machine) : bool :=
  if negb (existsSync m (join pf [ROOT; "node_modules"])) then true
  else
    match readJson m (join pf [ROOT; "package.json"]) with
    | inl _ => true
    | inr pkg =>
        match readJson m MARKER with
        | inl _ => true
        | inr marker =>
            match member pkg "version" with
            | None => true
            | Some pkgVersion =>
                match member marker "version" with
                | None => true
                | Some markerVersion =>
                    if negb (strictEq pkgVersion markerVersion) then true
                    else
                      match member marker "bun" with
                      | None => true
                      | Some markerBun =>
                          negb (strictEq (Some (nullable (getBunVersion m))) markerBun)
                      end
                end
            end
        end
    end.

(** The object of the version marker; [JSON.stringify] leaves out a
    [version] that is undefined. *)
Definition markerObject (version : option JSON) (bun uv : option string)
           (installedAt : string) : JSON :=
  JObject ((match version with
            | Some v => [("version", v)]
            | None => []
            end)
           ++ [("bun", nullable bun); ("uv", nullable uv);
               ("installedAt", JString installedAt)]).

(** The part of [installDeps] after the installs: the version marker. *)
Definition writeMarker (m : Machine) : Result unit * Machine :=
  match readJson m (join pf [ROOT; "package.json"]) with
  | inl e => (Throw e, m)
  | inr pkg =>
      match member pkg "version" with
      | None => (Throw TYPE_ERROR, m)
      | Some version =>
          let text := JSON_stringify
                        (markerObject version (getBunVersion m) (getUvVersion m)
                                      (isoTime m)) in
          match writeFileSync MARKER text m with
          | (Some e, m') => (Throw e, m')
          | (None, m') => (Ok tt, m')
          end
      end
  end.

Definition installDeps (m : Machine) : Result unit * Machine :=
  match getBunPath m with
  | None | Some EmptyString => (Throw (ErrorObject "Error" "Bun executable not found"), m)
  | Some bunPath =>
      let bunCmd := if IS_WINDOWS pf && JS.includes " " bunPath
                    then dquote +:+ bunPath +:+ dquote else bunPath in
      let '(bunSucceeded, m2) :=
        match run (bunCmd +:+ " install") m with
        | (None, m1) => (true, m1)
        | (Some _, m1) =>
            match run (bunCmd +:+ " install --force") m1 with
            | (None, m2) => (true, m2)
            | (Some _, m2) => (false, m2)
            end
        end in
      if bunSucceeded then writeMarker m2
      else
        match run "npm install" (print FallingBackToNpm m2) with
        | (Some npmError, m3) =>
            (Throw (ErrorObject "Error"
                      ("Both bun and npm install failed: " +:+ messageOf npmError)), m3)
        | (None, m3) => writeMarker m3
        end
  end.

Definition ALIAS_MARK : string := "alias claude-mem=".
Definition FUNCTION_MARK : string := "function claude-mem".

(** One round of the loop over the shell configurations. *)
Definition addAlias (aliasLine config : string) (m : Machine) : option Thrown * Machine :=
  match files m !! config with
  | None => (None, m)
  | Some content =>
      if negb (JS.includes ALIAS_MARK content)
      then writeFileSync config (content +:+ newline +:+ aliasLine +:+ newline) m
      else (None, m)
  end.

Fixpoint addAliases (aliasLine : string) (configs : list string) (m : Machine)
  : option Thrown * Machine :=
  match configs with
  | [] => (None, m)
  | config :: rest =>
      match addAlias aliasLine config m with
      | (Some e, m') => (Some e, m')
      | (None, m') => addAliases aliasLine rest m'
      end
  end.

(** The Windows branch: a function in the PowerShell profile. *)
Definition addFunction (bunPath cli : string) (m : Machine) : option Thrown * Machine :=
  let profileHome := orDefault (USERPROFILE pf) (homedir pf) in
  let profilePath :=
    join pf [profileHome; "Documents"; "PowerShell"; "Microsoft.PowerShell_profile.ps1"] in
  let profileDir := join pf [profileHome; "Documents"; "PowerShell"] in
  let functionDef :=
    "function claude-mem { & " +:+ dquote +:+ bunPath +:+ dquote +:+ " "
    +:+ dquote +:+ cli +:+ dquote +:+ " $args }" +:+ newline in
  let '(thrown, m1) :=
    if negb (existsSync m profileDir)
    then run ("mkdir " +:+ dquote +:+ profileDir +:+ dquote) m
    else (None, m) in
  match thrown with
  | Some e => (Some e, m1)
  | None =>
      let existingContent := default EmptyString (files m1 !! profilePath) in
      if negb (JS.includes FUNCTION_MARK existingContent)
      then writeFileSync profilePath (existingContent +:+ newline +:+ functionDef) m1
      else (None, m1)
  end.

Definition shellConfigs : list string :=
  [join pf [homedir pf; ".bashrc"]; join pf [homedir pf; ".zshrc"]].

Definition installCLI (m : Machine) : Machine :=
  let WORKER_CLI := join pf [ROOT; "plugin"; "scripts"; "worker-service.cjs"] in
  let bunPath := orDefault (getBunPath m) "bun" in
  let aliasLine :=
    ALIAS_MARK +:+ "'" +:+ bunPath +:+ " " +:+ dquote +:+ WORKER_CLI +:+ dquote +:+ "'" in
  let markerPath := join pf [ROOT; ".cli-installed"] in
  if existsSync m markerPath then m
  else
    let '(thrown, m1) :=
      if IS_WINDOWS pf then addFunction bunPath WORKER_CLI m
      else addAliases aliasLine shellConfigs m in
    let '(thrown', m2) :=
      match thrown with
      | Some e => (Some e, m1)
      | None => writeFileSync markerPath (isoTime m1) m1
      end in
    match thrown' with
    | None => m2
    | Some e => print (UseDirectly bunPath WORKER_CLI) (print (CouldNotAddAlias (messageOf e)) m2)
    end.

End Script.

End SmartInstall.

(** ** Smart install: the order of the installs *)

Section InstallFacts.

Import SmartInstall.

Context `{!Builtins}.

Variable pf : Platform.
Variable execSync : string -> Machine -> option Thrown * Machine.

(** The command line of Bun as [installDeps] builds it. *)
Definition bunCmdOf (bunPath : string) : string :=
  if IS_WINDOWS pf && JS.includes " " bunPath
  then dquote +:+ bunPath +:+ dquote else bunPath.

Lemma run_frame (command : string) (m : Machine) :
  ran (snd (run execSync command m)) = command :: ran m
  /\ stderr (snd (run execSync command m)) = stderr m.
Proof. unfold run. destruct (execSync command m). split; reflexivity. Qed.

Lemma writeFileSync_frame (p text : string) (m : Machine) :
  ran (snd (writeFileSync p text m)) = ran m
  /\ stderr (snd (writeFileSync p text m)) = stderr m
  /\ versions (snd (writeFileSync p text m)) = versions m
  /\ isoTime (snd (writeFileSync p text m)) = isoTime m
  /\ denied (snd (writeFileSync p text m)) = denied m.
Proof. unfold writeFileSync. destruct (denied m p); repeat split; reflexivity. Qed.

Lemma writeMarker_frame (m : Machine) :
  ran (snd (writeMarker pf m)) = ran m /\ stderr (snd (writeMarker pf m)) = stderr m.
Proof.
  unfold writeMarker. destruct (readJson m _) as [e | pkg]; [split; reflexivity|].
  destruct (member pkg "version") as [version|]; [|split; reflexivity].
  pose proof (writeFileSync_frame (MARKER pf)
                (JSON_stringify (markerObject version (getBunVersion pf m)
                                              (getUvVersion pf m) (isoTime m))) m)
    as (Hran & Herr & _).
  destruct (writeFileSync _ _ m) as [[e|] m']; cbn in *; split; assumption.
Qed.

(** X18. [installDeps] runs nothing when Bun is not found.  Otherwise it
    runs [bun install], then [bun install --force] only after that failed, then
    [npm install] only after both failed, and no other command; it prints the
    fall-back warning exactly when it runs [npm install], and nothing else. *)
Theorem installDeps_tries_bun_twice_then_npm (m : Machine) :
  (getBunPath pf m = None ->
   installDeps pf execSync m = (Throw (ErrorObject "Error" "Bun executable not found"), m))
  /\ (forall bunPath,
         getBunPath pf m = Some bunPath ->
         let bun := bunCmdOf bunPath +:+ " install" in
         let force := bunCmdOf bunPath +:+ " install --force" in
         let first := run execSync bun m in
         let second := run execSync force (snd first) in
         let m' := snd (installDeps pf execSync m) in
         (fst first = None
          /\ ran m' = bun :: ran m /\ stderr m' = stderr m)
         \/ (fst first <> None /\ fst second = None
             /\ ran m' = force :: bun :: ran m /\ stderr m' = stderr m)
         \/ (fst first <> None /\ fst second <> None
             /\ ran m' = "npm install" :: force :: bun :: ran m
             /\ stderr m' = FallingBackToNpm :: stderr m)).
Proof.
  split.
  - intros Hnone. unfold installDeps. rewrite Hnone. reflexivity.
  - intros bunPath Hpath. cbv zeta. unfold installDeps. rewrite Hpath.
    assert (Hne : bunPath <> EmptyString).
    { unfold getBunPath in Hpath. destruct (versions m "bun"); [congruence|].
      unfold findExisting in Hpath.
      destruct (List.find _ _) as [[|c r]|]; congruence. }
    destruct bunPath as [|c r]; [contradiction|]. fold (bunCmdOf (String c r)).
    set (bun := bunCmdOf (String c r) +:+ " install").
    set (force := bunCmdOf (String c r) +:+ " install --force").
    pose proof (run_frame bun m) as [Hran1 Herr1].
    destruct (run execSync bun m) as [[e1|] m1]; cbn [fst snd] in *.
    + pose proof (run_frame force m1) as [Hran2 Herr2].
      destruct (run execSync force m1) as [[e2|] m2]; cbn [fst snd] in *.
      * right. right.
        pose proof (run_frame "npm install" (print FallingBackToNpm m2)) as [Hran3 Herr3].
        destruct (run execSync "npm install" (print FallingBackToNpm m2)) as [[e3|] m3];
          cbn [fst snd] in *.
        -- rewrite Hran3, Herr3. cbn. rewrite Hran2, Hran1, Herr2, Herr1.
           repeat split; discriminate.
        -- destruct (writeMarker_frame m3) as [Hran4 Herr4].
           rewrite Hran4, Herr4, Hran3, Herr3. cbn. rewrite Hran2, Hran1, Herr2, Herr1.
           repeat split; discriminate.
      * right. left. destruct (writeMarker_frame m2) as [Hran4 Herr4].
        rewrite Hran4, Herr4, Hran2, Hran1, Herr2, Herr1.
        repeat split; discriminate.
    + left. destruct (writeMarker_frame m1) as [Hran4 Herr4].
      rewrite Hran4, Herr4, Hran1, Herr1. repeat split.
Qed.

End InstallFacts.

(** ** Smart install: the version marker and the next run *)

Section MarkerFacts.

Import SmartInstall.

Context `{!Builtins}.

Variable pf : Platform.
Variable execSync : string -> Machine -> option Thrown * Machine.

(** A value [===] compares by content. *)
Definition primitive (v : option JSON) : bool :=
  match v with
  | Some (JArray _) | Some (JObject _) => false
  | _ => true
  end.

Lemma strictEq_refl (v : option JSON) : primitive v = true -> strictEq v v = true.
Proof.
  destruct v as [[| b | q | s | items | fields]|]; intros Hp; try discriminate; cbn.
  - reflexivity.
  - destruct b; reflexivity.
  - apply Qeq_bool_refl.
  - apply String.eqb_refl.
  - reflexivity.
Qed.

Lemma installDeps_returns (m m' : Machine) :
  installDeps pf execSync m = (Ok tt, m') ->
  exists m0, writeMarker pf m0 = (Ok tt, m').
Proof.
  unfold installDeps. destruct (getBunPath pf m) as [[|c r]|]; try discriminate.
  destruct (run execSync _ m) as [[e1|] m1].
  - destruct (run execSync _ m1) as [[e2|] m2].
    + destruct (run execSync "npm install" _) as [[e3|] m3]; [discriminate|].
      intros Hw. exists m3. exact Hw.
    + intros Hw. exists m2. exact Hw.
  - intros Hw. exists m1. exact Hw.
Qed.

Lemma find_agree {A : Type} (f g : A -> bool) (l : list A) :
  (forall x, In x l -> f x = g x) -> List.find f l = List.find g l.
Proof.
  induction l as [|x l IH]; intros Hfg; [reflexivity|]. cbn [List.find].
  rewrite (Hfg x) by (left; reflexivity). destruct (g x); [reflexivity|].
  apply IH. intros y Hy. apply Hfg. right. exact Hy.
Qed.

(** Writing a file that is none of the given paths changes nothing about
    which of them exists first. *)
Lemma findExisting_after_write (m : Machine) (p text : string) (paths : list string) :
  ~ In p paths ->
  findExisting (setFiles (<[p := text]> (files m)) m) paths = findExisting m paths.
Proof.
  intros Hout. unfold findExisting.
  rewrite (find_agree (existsSync (setFiles (<[p := text]> (files m)) m)) (existsSync m));
    [reflexivity|].
  intros x Hx. unfold existsSync. cbn [files setFiles].
  rewrite lookup_insert_ne; [reflexivity|]. intros ->. contradiction.
Qed.

Lemma field_markerObject_version (version : option JSON) (bun uv : option string)
      (t : string) :
  member (markerObject version bun uv t) "version" = Some version
  /\ member (markerObject version bun uv t) "bun" = Some (Some (nullable bun)).
Proof. destruct version; split; reflexivity. Qed.

(** X19. Take the marker to be a file of its own, neither [package.json]
    nor one of the install locations probed.  After [installDeps] has returned,
    the marker file holds the version of [package.json] and the versions of Bun
    and uv as they are then.  When that text parses back to the object written
    and the version is a string, a number, a boolean, [null] or missing,
    [needsInstall] says [true] exactly when [node_modules] does not exist. *)
Theorem needsInstall_after_installDeps (m m' : Machine) :
  installDeps pf execSync m = (Ok tt, m') ->
  MARKER pf <> join pf [ROOT pf; "package.json"] ->
  ~ In (MARKER pf) (BUN_COMMON_PATHS pf ++ UV_COMMON_PATHS pf) ->
  exists pkg version,
    readJson m' (join pf [ROOT pf; "package.json"]) = inr pkg
    /\ member pkg "version" = Some version
    /\ let marker := markerObject version (getBunVersion pf m') (getUvVersion pf m')
                                  (isoTime m') in
       files m' !! MARKER pf = Some (JSON_stringify marker)
       /\ (JSON_parse (JSON_stringify marker) = Some marker ->
           primitive version = true ->
           needsInstall pf m' = negb (existsSync m' (join pf [ROOT pf; "node_modules"]))).
Proof.
  intros Hdeps Hpkg Hpaths.
  apply installDeps_returns in Hdeps as (m0 & Hwrite). unfold writeMarker in Hwrite.
  destruct (readJson m0 (join pf [ROOT pf; "package.json"])) as [e | pkg] eqn:Hread;
    [discriminate|].
  destruct (member pkg "version") as [version|] eqn:Hversion; [|discriminate].
  unfold writeFileSync in Hwrite.
  destruct (denied m0 (MARKER pf)); [discriminate|].
  injection Hwrite as <-.
  set (text := JSON_stringify _).
  set (m' := setFiles (<[MARKER pf := text]> (files m0)) m0).
  assert (Hbun : getBunVersion pf m' = getBunVersion pf m0).
  { unfold getBunVersion, getBunPath. cbn [versions m' setFiles].
    unfold m'. rewrite findExisting_after_write; [reflexivity|].
    intros Hin. apply Hpaths, in_or_app. left. exact Hin. }
  assert (Huv : getUvVersion pf m' = getUvVersion pf m0).
  { unfold getUvVersion, getUvPath. cbn [versions m' setFiles].
    unfold m'. rewrite findExisting_after_write; [reflexivity|].
    intros Hin. apply Hpaths, in_or_app. right. exact Hin. }
  assert (Hread' : readJson m' (join pf [ROOT pf; "package.json"]) = inr pkg).
  { rewrite <- Hread. unfold readJson. cbn [files m' setFiles].
    rewrite lookup_insert_ne by exact Hpkg. reflexivity. }
  exists pkg, version. split; [exact Hread'|]. split; [exact Hversion|].
  cbv zeta. rewrite Hbun, Huv. change (isoTime m') with (isoTime m0). fold text.
  split; [cbn [files m' setFiles]; apply lookup_insert_eq|].
  intros Hround Hprim. unfold needsInstall.
  destruct (existsSync m' (join pf [ROOT pf; "node_modules"])); [|reflexivity].
  cbn [negb]. rewrite Hread'.
  assert (Hmarker : readJson m' (MARKER pf)
                    = inr (markerObject version (getBunVersion pf m0)
                                        (getUvVersion pf m0) (isoTime m0))).
  { unfold readJson. cbn [files m' setFiles]. rewrite lookup_insert_eq.
    rewrite Hround. reflexivity. }
  rewrite Hmarker, Hversion.
  destruct (field_markerObject_version version (getBunVersion pf m0)
              (getUvVersion pf m0) (isoTime m0)) as [Hmv Hmb].
  rewrite Hmv, Hmb, (strictEq_refl version Hprim), Hbun. cbn [negb].
  destruct (getBunVersion pf m0); cbn; [rewrite String.eqb_refl|]; reflexivity.
Qed.

End MarkerFacts.

(** ** Smart install: the shell alias *)

Section AliasFacts.

Import SmartInstall.

Context `{!Builtins}.

Variable pf : Platform.
Variable execSync : string -> Machine -> option Thrown * Machine.

Lemma includes_prefix (n s : string) :
  String.prefix n s = true -> JS.includes n s = true.
Proof.
  intros Hp. destruct s as [|c r].
  - cbn [JS.includes]. rewrite Hp. reflexivity.
  - rewrite includes_cons, Hp. reflexivity.
Qed.

Lemma setFiles_same (m : Machine) : setFiles (files m) m = m.
Proof. destruct m. reflexivity. Qed.

Lemma setFiles_setFiles (f g : gmap string string) (m : Machine) :
  setFiles f (setFiles g m) = setFiles f m.
Proof. reflexivity. Qed.

(** What one write appends to a shell configuration. *)
Definition added (aliasLine : string) : string := newline +:+ aliasLine +:+ newline.

(** The content of [p] is as before, or got the alias appended where no
    alias was mentioned. *)
Definition aliasedOnce (aliasLine : string) (before after : gmap string string)
           (p : string) : Prop :=
  after !! p = before !! p
  \/ exists content,
       before !! p = Some content
       /\ JS.includes ALIAS_MARK content = false
       /\ after !! p = Some (content +:+ added aliasLine).

(** Every file of [paths] that exists mentions the alias. *)
Definition allAliased (f : gmap string string) (paths : list string) : Prop :=
  forall p content, In p paths -> f !! p = Some content ->
                    JS.includes ALIAS_MARK content = true.

Section Line.

Variable aliasLine : string.
Hypothesis aliasLine_marked : JS.includes ALIAS_MARK aliasLine = true.

Lemma appended_marked (content : string) :
  JS.includes ALIAS_MARK (content +:+ added aliasLine) = true.
Proof.
  unfold added. apply includes_append_r, includes_append_r, includes_append_l.
  exact aliasLine_marked.
Qed.

Lemma append_assoc (a b c : string) : (a +:+ b) +:+ c = a +:+ (b +:+ c).
Proof.
  induction a as [|x a IH]; [reflexivity|]. rewrite !append_cons, IH. reflexivity.
Qed.

Lemma addAlias_effect (config : string) (m : Machine) :
  exists f,
    snd (addAlias aliasLine config m) = setFiles f m
    /\ (forall p, p <> config -> f !! p = files m !! p)
    /\ aliasedOnce aliasLine (files m) f config
    /\ (fst (addAlias aliasLine config m) = None -> allAliased f [config])
    /\ (denied m config = None -> fst (addAlias aliasLine config m) = None).
Proof.
  unfold addAlias. destruct (files m !! config) as [content|] eqn:Hfile.
  - destruct (JS.includes ALIAS_MARK content) eqn:Hmark; cbn [negb].
    + exists (files m). rewrite setFiles_same. split; [reflexivity|]. split; [auto|].
      split; [left; reflexivity|]. split; [|reflexivity].
      intros _ p content' [<- | []] Hp. congruence.
    + unfold writeFileSync. destruct (denied m config) as [e|].
      * exists (files m). rewrite setFiles_same. split; [reflexivity|]. split; [auto|].
        split; [left; reflexivity|]. split; discriminate.
      * exists (<[config := content +:+ newline +:+ aliasLine +:+ newline]> (files m)).
        split; [reflexivity|].
        split; [intros p Hp; apply lookup_insert_ne; congruence|].
        split.
        { right. exists content. split; [exact Hfile|]. split; [exact Hmark|].
          apply lookup_insert_eq. }
        split; [|reflexivity].
        intros _ p content' [<- | []] Hp. rewrite lookup_insert_eq in Hp.
        injection Hp as <-. apply (appended_marked content).
  - exists (files m). rewrite setFiles_same. split; [reflexivity|]. split; [auto|].
    split; [left; reflexivity|]. split; [|reflexivity].
    intros _ p content' [<- | []] Hp. congruence.
Qed.

Lemma aliasedOnce_trans (before mid after : gmap string string) (p : string) :
  aliasedOnce aliasLine before mid p ->
  aliasedOnce aliasLine mid after p ->
  aliasedOnce aliasLine before after p.
Proof.
  intros [Hfirst | (content0 & Hb & Hmark0 & Hm)] [Hsame | (content & Hmid & Hmark & Hafter)].
  - left. congruence.
  - right. exists content. rewrite <- Hfirst. auto.
  - right. exists content0. rewrite Hsame. auto.
  - exfalso. rewrite Hm in Hmid. injection Hmid as <-.
    rewrite appended_marked in Hmark. discriminate.
Qed.

Lemma aliasedOnce_everywhere (before after : gmap string string) (config : string) :
  (forall q, q <> config -> after !! q = before !! q) ->
  aliasedOnce aliasLine before after config ->
  forall p, aliasedOnce aliasLine before after p.
Proof.
  intros Hother Hstep p. destruct (decide (p = config)) as [->|Hne]; [exact Hstep|].
  left. apply Hother. exact Hne.
Qed.

Lemma allAliased_step (mid after : gmap string string) (config : string)
      (paths : list string) :
  allAliased mid paths ->
  (forall q, q <> config -> after !! q = mid !! q) ->
  aliasedOnce aliasLine mid after config ->
  allAliased after paths.
Proof.
  intros Hall Hother Hstep p content Hin Hp.
  destruct (decide (p = config)) as [->|Hne].
  - destruct Hstep as [Hsame | (content0 & Hmid & Hmark & Hafter)].
    + apply (Hall config content Hin). congruence.
    + rewrite Hafter in Hp. injection Hp as <-. apply appended_marked.
  - apply (Hall p content Hin). rewrite <- Hother by exact Hne. exact Hp.
Qed.

Lemma addAliases_effect (configs : list string) :
  forall done m,
    allAliased (files m) done ->
    exists f,
      snd (addAliases aliasLine configs m) = setFiles f m
      /\ (forall p, ~ In p configs -> f !! p = files m !! p)
      /\ (forall p, aliasedOnce aliasLine (files m) f p)
      /\ (fst (addAliases aliasLine configs m) = None -> allAliased f (done ++ configs))
      /\ ((forall p, denied m p = None) -> fst (addAliases aliasLine configs m) = None).
Proof.
  induction configs as [|config rest IH]; intros done m Hdone.
  - exists (files m). cbn [addAliases fst snd]. rewrite setFiles_same, app_nil_r.
    split; [reflexivity|]. split; [auto|]. split; [left; reflexivity|]. auto.
  - cbn [addAliases].
    destruct (addAlias_effect config m) as (f1 & Hm1 & Hother1 & Honce1 & Hall1 & Hfree1).
    destruct (addAlias aliasLine config m) as [[e|] m1]; cbn [fst snd] in *.
    + exists f1. split; [exact Hm1|].
      split; [intros p Hp; apply Hother1; intros ->; apply Hp; left; reflexivity|].
      split; [apply (aliasedOnce_everywhere (files m) f1 config Hother1 Honce1)|].
      split; [discriminate|]. intros Hfree. specialize (Hfree1 (Hfree config)). discriminate.
    + subst m1.
      destruct (IH (done ++ [config]) (setFiles f1 m)) as (f & Hm & Hother & Honce & Hall & Hfree).
      { intros p content Hin Hp. cbn [files setFiles] in Hp.
        apply in_app_or in Hin as [Hin | Hin].
        - apply (allAliased_step (files m) f1 config done Hdone Hother1 Honce1 p content Hin Hp).
        - apply (Hall1 eq_refl p content Hin Hp). }
      cbn [files setFiles denied] in *.
      exists f. split; [rewrite Hm; reflexivity|].
      split.
      { intros p Hp. rewrite Hother by (intros Hin; apply Hp; right; exact Hin).
        apply Hother1. intros ->. apply Hp. left. reflexivity. }
      split.
      { intros p. apply (aliasedOnce_trans (files m) f1 f p); [|apply Honce].
        apply (aliasedOnce_everywhere (files m) f1 config Hother1 Honce1). }
      split.
      { intros Hnone. rewrite <- app_assoc in Hall. apply Hall. exact Hnone. }
      intros Hfree'. apply Hfree. exact Hfree'.
Qed.

End Line.

Definition markerPathOf : string := join pf [ROOT pf; ".cli-installed"].

(** The alias line [installCLI] builds on a machine. *)
Definition aliasLineOf (m : Machine) : string :=
  ALIAS_MARK +:+ "'" +:+ orDefault (getBunPath pf m) "bun" +:+ " " +:+ dquote
  +:+ join pf [ROOT pf; "plugin"; "scripts"; "worker-service.cjs"] +:+ dquote +:+ "'".

Lemma aliasLineOf_marked (m : Machine) : JS.includes ALIAS_MARK (aliasLineOf m) = true.
Proof. unfold aliasLineOf. apply includes_append_l. reflexivity. Qed.

Lemma installCLI_installed (m : Machine) :
  existsSync m markerPathOf = true -> installCLI pf execSync m = m.
Proof. intros Hm. unfold installCLI. fold markerPathOf. rewrite Hm. reflexivity. Qed.

(** X20. On a system other than Windows [installCLI] does nothing once its
    marker exists.  Otherwise each of [.bashrc] and [.zshrc] is left as it is or
    gets the alias appended, and that only where the file exists and does not
    mention [alias claude-mem=] yet, so no file gets the alias twice however
    often the script runs.  When no write fails, the marker exists afterwards,
    a second run changes nothing, and every one of the two files that exists
    mentions the alias. *)
Theorem installCLI_adds_alias_once (m : Machine) :
  IS_WINDOWS pf = false ->
  ~ In markerPathOf (shellConfigs pf) ->
  let m' := installCLI pf execSync m in
  (existsSync m markerPathOf = true -> m' = m)
  /\ (forall config, In config (shellConfigs pf) ->
                     aliasedOnce (aliasLineOf m) (files m) (files m') config)
  /\ ((forall p, denied m p = None) ->
      existsSync m' markerPathOf = true
      /\ installCLI pf execSync m' = m'
      /\ (existsSync m markerPathOf = false -> allAliased (files m') (shellConfigs pf))).
Proof.
  intros Hwin Hown. cbv zeta.
  destruct (existsSync m markerPathOf) eqn:Hmarker.
  { rewrite (installCLI_installed m Hmarker). split; [reflexivity|].
    split; [intros config _; left; reflexivity|].
    intros _. split; [exact Hmarker|]. split; [apply installCLI_installed; exact Hmarker|].
    discriminate. }
  split; [discriminate|].
  unfold installCLI. fold markerPathOf. rewrite Hmarker, Hwin. fold (aliasLineOf m).
  destruct (addAliases_effect (aliasLineOf m) (aliasLineOf_marked m) (shellConfigs pf) [] m)
    as (f & Hm1 & Hother & Honce & Hall & Hfree).
  { intros p content []. }
  destruct (addAliases (aliasLineOf m) (shellConfigs pf) m) as [[e|] m1];
    cbn [fst snd] in *; subst m1.
  { split; [intros config _; apply Honce|].
    intros Hnone. specialize (Hfree Hnone). discriminate. }
  unfold writeFileSync. cbn [denied setFiles].
  destruct (denied m markerPathOf) as [e|] eqn:Hdenied.
  { split; [intros config _; apply Honce|].
    intros Hnone. rewrite Hnone in Hdenied. discriminate. }
  cbn [files setFiles isoTime].
  assert (Hconfig : forall config, In config (shellConfigs pf) ->
                                   <[markerPathOf := isoTime m]> f !! config = f !! config).
  { intros config Hin. apply lookup_insert_ne. intros Heq. apply Hown. rewrite Heq. exact Hin. }
  split.
  { intros config Hin. unfold aliasedOnce. rewrite (Hconfig config Hin). apply Honce. }
  intros _.
  assert (Hnow : existsSync (setFiles (<[markerPathOf := isoTime m]> f) (setFiles f m))
                            markerPathOf = true).
  { unfold existsSync. cbn [files setFiles]. rewrite lookup_insert_eq. reflexivity. }
  split; [exact Hnow|]. split; [rewrite Hnow; reflexivity|].
  intros _ p content Hin Hp. rewrite (Hconfig p Hin) in Hp.
  apply (Hall eq_refl p content); [exact Hin | exact Hp].
Qed.

End AliasFacts.

(** ** Smart install on a concrete machine *)

Definition unixPlatform : SmartInstall.Platform :=
{| SmartInstall.IS_WINDOWS := false;
   SmartInstall.homedir := "/home/dev";
   SmartInstall.CLAUDE_MEM_MARKETPLACE_VENDOR := None;
   SmartInstall.USERPROFILE := None;
   SmartInstall.join := String.concat "/" |}.

Definition pluginRoot : string := "/home/dev/.claude/plugins/marketplaces/enzo-claude-mem".

Definition installTime : string := "2026-01-01T00:00:00.000Z".

(** The marker this machine writes, and a [JSON.parse] that knows the two
    texts met here. *)
Definition expectedMarker : JSON :=
  SmartInstall.markerObject (Some (JString "9.0.2")) (Some "1.1.0") (Some "0.5.1")
                            installTime.

Definition installerBuiltins : Builtins :=
{| JSON_parse := fun s =>
     if String.eqb s "package" then Some (JObject [("version", JString "9.0.2")])
     else if String.eqb s "marker" then Some expectedMarker
     else None;
   JSON_stringify := fun _ => "marker" |}.

(** [bun install] fails with a 404, every other command succeeds and
    leaves [node_modules] behind. *)
Definition flakyBun (command : string) (m : SmartInstall.Machine)
  : option Thrown * SmartInstall.Machine :=
  if String.eqb command "bun install" then (Some (ErrorObject "Error" "404"), m)
  else (None, SmartInstall.setFiles
                (<[pluginRoot +:+ "/node_modules" := EmptyString]> (SmartInstall.files m)) m).

Definition freshMachine : SmartInstall.Machine :=
{| SmartInstall.files :=
     <[pluginRoot +:+ "/package.json" := "package"]>
       (<["/home/dev/.bashrc" := "export EDITOR=vi"]> ∅);
   SmartInstall.versions := fun command =>
     if String.eqb command "bun" then Some "1.1.0 "
     else if String.eqb command "uv" then Some "0.5.1"
     else None;
   SmartInstall.denied := fun _ => None;
   SmartInstall.isoTime := installTime;
   SmartInstall.ran := [];
   SmartInstall.stderr := [] |}.

Lemma installDeps_tries_bun_twice_then_npm_witness :
  SmartInstall.ran
    (snd (@SmartInstall.installDeps installerBuiltins unixPlatform flakyBun freshMachine))
  = [ "bun install --force"; "bun install" ].
Proof.
  destruct (@installDeps_tries_bun_twice_then_npm installerBuiltins unixPlatform flakyBun
              freshMachine) as [_ Hfound].
  destruct (Hfound "bun" eq_refl) as [(Hfirst & _) | [(_ & _ & Hran & _) | (_ & Hsecond & _)]].
  - vm_compute in Hfirst. discriminate.
  - exact Hran.
  - exfalso. apply Hsecond. vm_compute. reflexivity.
Defined.

Lemma needsInstall_after_installDeps_witness :
  @SmartInstall.needsInstall installerBuiltins unixPlatform
    (snd (@SmartInstall.installDeps installerBuiltins unixPlatform flakyBun freshMachine))
  = false.
Proof.
  destruct (@needsInstall_after_installDeps installerBuiltins unixPlatform flakyBun
              freshMachine
              (snd (@SmartInstall.installDeps installerBuiltins unixPlatform flakyBun
                      freshMachine)))
    as (pkg & version & Hread & Hversion & _ & Hnext).
  - apply injective_projections; [vm_compute; reflexivity | reflexivity].
  - vm_compute. discriminate.
  - vm_compute. intuition discriminate.
  - vm_compute in Hread. injection Hread as <-.
    vm_compute in Hversion. injection Hversion as <-.
    rewrite Hnext; [vm_compute; reflexivity | vm_compute; reflexivity | reflexivity].
Defined.

Lemma installCLI_adds_alias_once_witness :
  SmartInstall.installCLI unixPlatform flakyBun
    (SmartInstall.installCLI unixPlatform flakyBun freshMachine)
  = SmartInstall.installCLI unixPlatform flakyBun freshMachine
  /\ allAliased (SmartInstall.files (SmartInstall.installCLI unixPlatform flakyBun freshMachine))
                (SmartInstall.shellConfigs unixPlatform).
Proof.
  destruct (installCLI_adds_alias_once unixPlatform flakyBun freshMachine)
    as (_ & _ & Hclean).
  - reflexivity.
  - vm_compute. intuition discriminate.
  - destruct Hclean as (_ & Hsecond & Hall); [reflexivity|].
    split; [exact Hsecond | apply Hall; vm_compute; reflexivity].
Defined.

Example alias_appended_to_bashrc :
  SmartInstall.files (SmartInstall.installCLI unixPlatform flakyBun freshMachine)
    !! "/home/dev/.bashrc"
  = Some ("export EDITOR=vi" +:+ added (aliasLineOf unixPlatform freshMachine)).
Proof. vm_compute. reflexivity. Qed.

(** ** The further properties at work on the concrete configuration *)

Lemma truncatedContents_drops_no_more_than_needed_witness :
  Truncation.MAX_CONTEXT_MESSAGES smallWindowSettings
  <= Z.of_nat (length (Truncation.truncatedContents smallWindowSettings threeTurns))
  \/ Truncation.MAX_ESTIMATED_TOKENS smallWindowSettings
     < Truncation.totalTokens (Truncation.truncatedContents smallWindowSettings threeTurns)
       + Truncation.estimateTokens "first prompt".
Proof.
  destruct (truncatedContents_drops_no_more_than_needed smallWindowSettings threeTurns)
    as [_ Hneeded].
  apply (Hneeded [] {| role := user; content := "first prompt" |}).
  vm_compute. reflexivity.
Defined.

Lemma queryGeminiMultiTurn_requests_carry_recent_turns_witness :
  let w := demoWorld smallWindowSettings [busy] (HttpOk (aResponse "<observation/>")) in
  exists later,
    trace (snd (queryGeminiMultiTurn threeTurns "key" "gemini-2.5-flash" true w))
    = later ++ trace w
    /\ forall t request,
         In (EvFetch t request) later ->
         req_model request = "gemini-2.5-flash" /\ req_apiKey request = "key"
         /\ exists kept,
              kept `suffix_of` threeTurns
              /\ Z.of_nat (length kept)
                 <= Z.max 0 (Truncation.MAX_CONTEXT_MESSAGES (settings w))
              /\ Truncation.totalTokens kept
                 <= Z.max 0 (Truncation.MAX_ESTIMATED_TOKENS (settings w))
              /\ map gc_text (req_contents request) = map content kept
              /\ map gc_role (req_contents request)
                 = map (fun m => geminiRole (role m)) kept.
Proof.
  apply (@queryGeminiMultiTurn_requests_carry_recent_turns demoBuiltins demoCollaborators).
Defined.

Lemma getGeminiConfig_valid_model_witness :
  let w := demoWorld smallWindowSettings [] busy in
  exists cfg, getGeminiConfig w = (Ok cfg, w) /\ model cfg = "gemini-3-pro-preview".
Proof.
  destruct (@getGeminiConfig_valid_model demoCollaborators
              (demoWorld smallWindowSettings [] busy))
    as (cfg & Hrun & _ & Hvalid & _).
  exists cfg. split; [exact Hrun|]. apply Hvalid. vm_compute. tauto.
Defined.

Lemma isRateLimitError_reads_body_of_any_status_witness :
  Retry.isRateLimitError (apiError 503 "Quota exceeded for this project") = true.
Proof.
  destruct (@isRateLimitError_reads_body_of_any_status demoBuiltins demoCollaborators)
    as (Hbody & _).
  apply (Hbody 503 "Quota exceeded for this project" "quota exceeded").
  - vm_compute. tauto.
  - vm_compute. reflexivity.
Defined.

Lemma parseGeminiResponse_content_and_tokens_witness :
  qr_content (parseGeminiResponse (aResponse "<observation/>") "gemini-2.5-flash")
  <> EmptyString.
Proof.
  destruct (parseGeminiResponse_content_and_tokens (aResponse "<observation/>")
              "gemini-2.5-flash") as (Hcontent & _).
  apply Hcontent.
  exists {| text := Some "<observation/>"; thought := None |}.
  split; [right; left; reflexivity | split; reflexivity].
Defined.

